(** * Pose Wrangler (epic_pose_wrangler v2): a shallow embedding

    The development follows the layout of the Python package:

    - [Exceptions]      the exception classes and the messages of the raise sites;
    - [Re]              the fragment of Python's [re.match] that the mirror
                        mappings use (greedy, backtracking, capture groups);
    - [MirrorMappingM]  [model/mirror_mapping.py];
    - [MirrorName]      [RBFNode._get_mirrored_solver_name];
    - [MirrorMath]      the rotation part of [RBFNode.mirror_pose];
    - [Scene]           the Maya scene as far as the solver wrappers touch it,
                        [v2/model/pose_blender.py], [v2/model/api.py] and the
                        entry points of [v2/main.py].

    Doubles are modelled by exact numbers ([Q] where matrices are only stored
    and copied, [R] where they are multiplied); rounding is outside the model. *)

From Stdlib Require Import ZArith List String Ascii QArith Qabs Reals Lra Lia Bool.
From Stdlib Require Import ClassicalEpsilon.
From stdpp Require Import base option list sorting gmap strings.
Import ListNotations.

Local Open Scope string_scope.
#[local] Arguments append !s1 s2 : simpl nomatch.

(* ================================================================== *)
(** * Exceptions *)
(* ================================================================== *)

Module Exceptions.

(** One constructor per raise site that the development reaches; the
    constructor's comment is the text of the Python message. *)
Inductive message : Type :=
| Unable_to_add_driver_after_poses
    (* 'Unable to add driver after poses have been added' *)
| Too_many_poses_unable_to_add_driver
    (* "Too many poses have been created, unable to add a new driver." *)
| Node_not_found (node : string)
| Invalid_transform_node (node : string)
| Already_has_driver (node : string)
| Unable_to_add_controller_after_poses
| Already_has_controller (node : string)
| Unable_to_get_driver_at_index (i : nat)
| Unable_to_get_controller_at_index (i : nat)
| You_must_add_a_driver_first
| Already_a_pose_called (pose_name : string)
| Invalid_number_of_matrices
    (* 'Invalid number of matrices. Must match number of drivers.' *)
| Invalid_number_of_controller_matrices
| Pose_not_found (pose_name : string)
| Unable_to_get_Driver_indices
| Invalid_Driver_Indices
| Invalid_Controller_Indices
| Pose_does_not_exist (pose_name : string)
    (* "Pose {pose_name} does not exist." *)
| Pose_to_update_does_not_exist (pose_name : string)
    (* 'Pose "{}" does not exist' *)
| list_index_out_of_range
| Unable_to_query_the_mute_status
    (* "Unable to query the mute status, no pose name or index specified" *)
| Unable_to_delete_pose
| No_driven_transform
| Unable_to_mirror_solver (solver : string)
    (* "Unable to mirror solver '{solver}'. The naming conventions do not
        match the mirror mapping specified: {expression}" *)
| Invalid_node (node : string)
| str_and_NoneType
    (* can only concatenate str (not "NoneType") to str *)
| NoneType_not_iterable
| NoneType_has_no_len
| pop_index_out_of_range.

(** The exception classes.  [MayaError] stands for whatever the host raises
    on its own; it is never one of the package's classes. *)
Inductive exn : Type :=
| RuntimeError (m : message)
| TypeError (m : message)
| IndexError (m : message)
| InvalidPose (m : message)
| InvalidPoseIndex (m : message)
| InvalidNodeType (m : message)
| PoseBlenderPoseError (m : message)
| InvalidMirrorMapping (m : message)
| MayaError (what : string).

(** Outcome of a call: a value or a raised exception. *)
Inductive result (A : Type) : Type :=
| Ok (a : A)
| Raise (e : exn).
Arguments Ok {A} a.
Arguments Raise {A} e.

Definition bind {A B} (r : result A) (k : A -> result B) : result B :=
  match r with
  | Ok a => k a
  | Raise e => Raise e
  end.

Definition is_ok {A} (r : result A) : bool :=
  match r with Ok _ => true | Raise _ => false end.

End Exceptions.
Export Exceptions.

Notation "x <- c ;; k" := (bind c (fun x => k))
(at level 100, c at next level, right associativity).

(* ================================================================== *)
(** * The fragment of [re.match] used by the mirror mappings *)
(* ================================================================== *)

Module Re.

(** Patterns.  Groups are numbered from 0 in the order of their opening
    parenthesis, as [match.groups()] lists them. *)
Inductive regex : Type :=
| Class (p : ascii -> bool)          (* [...]  one character *)
| PlusClass (p : ascii -> bool)      (* [...]+ greedy *)
| Cat (r1 r2 : regex)
| Rep (n : nat) (r : regex)          (* r{n} *)
| Opt (r : regex)                    (* r?  greedy *)
| Group (i : nat) (r : regex).       (* (?P<name>r) *)

Definition captures := list (option string).

Section Matcher.
Context {X : Type}.

(** Continuations receive the rest of the subject and the captures. *)
Definition cont := string -> captures -> option X.

(** [p+] : take as many characters as possible, give back one at a
    time while the continuation fails. *)
Fixpoint plus_class (p : ascii -> bool) (k : cont) (s : string)
         (caps : captures) : option X :=
  match s with
  | EmptyString => None
  | String c s' =>
      if p c then
        match plus_class p k s' caps with
        | Some x => Some x
        | None => k s' caps
        end
      else None
  end.

Fixpoint rep (n : nat) (step : cont -> cont) (k : cont) : cont :=
  match n with
  | O => k
  | S n' => step (rep n' step k)
  end.

Fixpoint run (r : regex) (k : cont) (s : string) (caps : captures)
  : option X :=
  match r with
  | Class p =>
      match s with
      | String c s' => if p c then k s' caps else None
      | EmptyString => None
      end
  | PlusClass p => plus_class p k s caps
  | Cat r1 r2 => run r1 (run r2 k) s caps
  | Rep n r' => rep n (run r') k s caps
  | Opt r' =>
      match run r' k s caps with
      | Some x => Some x
      | None => k s caps
      end
  | Group i r' =>
      run r'
        (fun s' caps' =>
           k s' (<[i := Some (substring 0 (String.length s - String.length s') s)]> caps'))
        s caps
  end.
End Matcher.

(** [re.match(pattern, subject)]: anchored at the start, the rest of the
    subject is free.  [ngroups] is the number of groups of the pattern;
    a group that took no part in the match reads [None]. *)
Definition re_match (r : regex) (ngroups : nat) (subject : string)
  : option captures :=
  run r (fun _ caps => Some caps) subject (replicate ngroups None).

(** Character classes. *)
Definition in_range (lo hi c : ascii) : bool :=
  (nat_of_ascii lo <=? nat_of_ascii c)%nat && (nat_of_ascii c <=? nat_of_ascii hi)%nat.

Definition alnum (c : ascii) : bool :=
  in_range "a" "z" c || in_range "A" "Z" c || in_range "0" "9" c.

Definition one_of (cs : list ascii) (c : ascii) : bool :=
  existsb (Ascii.eqb c) cs.

Definition lit (a : ascii) : regex := Class (Ascii.eqb a).

End Re.

(* ================================================================== *)
(** * model/mirror_mapping.py *)
(* ================================================================== *)

Module MirrorMappingM.
Import Re.

Inductive side := LEFT | RIGHT.

Record syntax := { solver_syntax : string; transform_syntax : string }.

(** The mapping document: [_mapping_data]. *)
Record mapping_data := {
  md_solver_expression : regex;
  md_solver_groups : nat;
  md_transform_expression : regex;
  md_transform_groups : nat;
  md_left : syntax;
  md_right : syntax
}.

(** A [MirrorMapping] object.  Its cached [_source_*] and [_target_*]
    fields are always assigned together by the [source_side] setter, so
    they are functions of [source_side]. *)
Record MirrorMapping := {
  data : mapping_data;
  source_side : side
}.

Definition opposite (s : side) : side :=
  match s with LEFT => RIGHT | RIGHT => LEFT end.

Definition side_data (d : mapping_data) (s : side) : syntax :=
  match s with LEFT => md_left d | RIGHT => md_right d end.

Definition solver_expression (m : MirrorMapping) := md_solver_expression (data m).
Definition source_solver_syntax (m : MirrorMapping) : string :=
  solver_syntax (side_data (data m) (source_side m)).
Definition target_solver_syntax (m : MirrorMapping) : string :=
  solver_syntax (side_data (data m) (opposite (source_side m))).

(** [source_side.setter] *)
Definition set_source_side (m : MirrorMapping) (s : side) : MirrorMapping :=
  {| data := data m; source_side := s |}.

(** [swap_sides]:
    new_target = LEFT if self.source_side == RIGHT else RIGHT *)
Definition swap_sides (m : MirrorMapping) : MirrorMapping :=
  set_source_side m
    (match source_side m with RIGHT => LEFT | LEFT => RIGHT end).

(** The example mapping of the module docstring (MetaHuman):
    (?P<prefix>[a-zA-Z0-9]+)?(?P<side>_[lr]{1}_)(?P<suffix>[a-zA-Z0-9]+) *)
Definition metahuman_expression : regex :=
  Cat (Opt (Group 0 (PlusClass alnum)))
      (Cat (Group 1 (Cat (lit "_") (Cat (Rep 1 (Class (one_of ["l"; "r"]%char))) (lit "_"))))
           (Group 2 (PlusClass alnum))).

Definition metahuman_data : mapping_data :=
  {| md_solver_expression := metahuman_expression;
     md_solver_groups := 3;
     md_transform_expression := metahuman_expression;
     md_transform_groups := 3;
     md_left := {| solver_syntax := "_l_"; transform_syntax := "_l_" |};
     md_right := {| solver_syntax := "_r_"; transform_syntax := "_r_" |} |}.

(** [MirrorMapping()] : file_path=None, source_side="left". *)
Definition metahuman : MirrorMapping :=
  {| data := metahuman_data; source_side := LEFT |}.

End MirrorMappingM.

(* ================================================================== *)
(** * RBFNode._get_mirrored_solver_name *)
(* ================================================================== *)

Module MirrorName.
Import Re MirrorMappingM.

(** The body of [for group in match.groups()]: one group, the name built
    so far and the mapping, which [swap_sides] mutates. *)
Definition mirror_group (group : option string)
           (st : string * MirrorMapping) : result (string * MirrorMapping) :=
  let '(name, mm) := st in
  (* None compares unequal to both syntaxes *)
  let '(group', mm') :=
    match group with
    | Some g =>
        if String.eqb g (source_solver_syntax mm) then
          (Some (target_solver_syntax mm), mm)
        else if String.eqb g (target_solver_syntax mm) then
          (Some (source_solver_syntax mm), swap_sides mm)
        else (Some g, mm)
    | None => (None, mm)
    end in
  match group' with
  | Some g => Ok (name +:+ g, mm')
  | None => Raise (TypeError str_and_NoneType)
  end.

Fixpoint mirror_groups (groups : list (option string))
         (st : string * MirrorMapping) : result (string * MirrorMapping) :=
  match groups with
  | [] => Ok st
  | g :: rest => st' <- mirror_group g st ;; mirror_groups rest st'
  end.

(** [_get_mirrored_solver_name(self, mirror_mapping)], [str(self)] being
    [solver].  The mapping is returned as the call leaves it. *)
Definition _get_mirrored_solver_name (solver : string) (mm : MirrorMapping)
  : result (string * MirrorMapping) :=
  match re_match (solver_expression mm) (md_solver_groups (data mm)) solver with
  | None => Raise (InvalidMirrorMapping (Unable_to_mirror_solver solver))
  | Some groups => mirror_groups groups ("", mm)
  end.

(** What one group contributes to the name: a side token is exchanged for
    the other one, anything else is kept. *)
Definition swap_token (mm : MirrorMapping) (g : string) : string :=
  if String.eqb g (source_solver_syntax mm) then target_solver_syntax mm
  else if String.eqb g (target_solver_syntax mm) then source_solver_syntax mm
  else g.

Fixpoint join (parts : list string) : string :=
  match parts with
  | [] => ""
  | p :: rest => p +:+ join rest
  end.

Definition name_of {A B} (r : result (A * B)) : result A :=
  x <- r ;; Ok (fst x).

(** All groups of a match, when every one of them took part in it. *)
Fixpoint participating (groups : list (option string)) : option (list string) :=
  match groups with
  | [] => Some []
  | None :: _ => None
  | Some g :: rest =>
      match participating rest with
      | Some gs => Some (g :: gs)
      | None => None
      end
  end.

(** The mapping object built from the MetaHuman document with a given
    source side. *)
Definition metahuman_from (sd : side) : MirrorMapping :=
  set_source_side metahuman sd.

Definition side_token (sd : side) : string :=
  match sd with LEFT => "_l_" | RIGHT => "_r_" end.

(** Words of the class [[a-zA-Z0-9]+]. *)
Fixpoint all_class (p : ascii -> bool) (s : string) : bool :=
  match s with
  | EmptyString => true
  | String c s' => p c && all_class p s'
  end.

Definition starts_with_class (p : ascii -> bool) (s : string) : bool :=
  match s with
  | EmptyString => false
  | String c _ => p c
  end.

Definition is_word (w : string) : bool :=
  starts_with_class alnum w && all_class alnum w.

End MirrorName.


(* ================================================================== *)
(** * The rotation part of RBFNode.mirror_pose *)
(* ================================================================== *)

Module MirrorMath.
Local Open Scope R_scope.

(** ** The host's matrix types

    [MMatrix] is Maya's 4x4 matrix of doubles; vectors are rows
    ([v * M]), so the local-to-world matrix of a child is
    [child * parent]. *)

Inductive ix := i0 | i1 | i2 | i3.

Record MMatrix := Matrix {
  a00 : R; a01 : R; a02 : R; a03 : R;
  a10 : R; a11 : R; a12 : R; a13 : R;
  a20 : R; a21 : R; a22 : R; a23 : R;
  a30 : R; a31 : R; a32 : R; a33 : R }.

Definition entry (m : MMatrix) (i j : ix) : R :=
  match i, j with
  | i0, i0 => a00 m | i0, i1 => a01 m | i0, i2 => a02 m | i0, i3 => a03 m
  | i1, i0 => a10 m | i1, i1 => a11 m | i1, i2 => a12 m | i1, i3 => a13 m
  | i2, i0 => a20 m | i2, i1 => a21 m | i2, i2 => a22 m | i2, i3 => a23 m
  | i3, i0 => a30 m | i3, i1 => a31 m | i3, i2 => a32 m | i3, i3 => a33 m
  end.

Definition build (f : ix -> ix -> R) : MMatrix :=
  Matrix (f i0 i0) (f i0 i1) (f i0 i2) (f i0 i3)
         (f i1 i0) (f i1 i1) (f i1 i2) (f i1 i3)
         (f i2 i0) (f i2 i1) (f i2 i2) (f i2 i3)
         (f i3 i0) (f i3 i1) (f i3 i2) (f i3 i3).

(** [om.MMatrix.kIdentity] *)
Definition kIdentity : MMatrix :=
  Matrix 1 0 0 0
         0 1 0 0
         0 0 1 0
         0 0 0 1.

(** [a * b] on MMatrix *)
Definition mmul (a b : MMatrix) : MMatrix :=
  build (fun i j => entry a i i0 * entry b i0 j + entry a i i1 * entry b i1 j
                    + entry a i i2 * entry b i2 j + entry a i i3 * entry b i3 j).

(** The three indices that are left when one is struck out. *)
Definition others (i : ix) : ix * ix * ix :=
  match i with
  | i0 => (i1, i2, i3)
  | i1 => (i0, i2, i3)
  | i2 => (i0, i1, i3)
  | i3 => (i0, i1, i2)
  end.

Definition sign (i j : ix) : R :=
  match i, j with
  | i0, i0 | i0, i2 | i1, i1 | i1, i3 | i2, i0 | i2, i2 | i3, i1 | i3, i3 => 1
  | _, _ => -1
  end.

Definition minor (m : MMatrix) (i j : ix) : R :=
  let '(r0, r1, r2) := others i in
  let '(c0, c1, c2) := others j in
  entry m r0 c0 * (entry m r1 c1 * entry m r2 c2 - entry m r1 c2 * entry m r2 c1)
  - entry m r0 c1 * (entry m r1 c0 * entry m r2 c2 - entry m r1 c2 * entry m r2 c0)
  + entry m r0 c2 * (entry m r1 c0 * entry m r2 c1 - entry m r1 c1 * entry m r2 c0).

Definition cofactor (m : MMatrix) (i j : ix) : R := sign i j * minor m i j.

(** [MMatrix.det4x4()] *)
Definition det4x4 (m : MMatrix) : R :=
  entry m i0 i0 * cofactor m i0 i0 + entry m i0 i1 * cofactor m i0 i1
  + entry m i0 i2 * cofactor m i0 i2 + entry m i0 i3 * cofactor m i0 i3.

(** [MMatrix.inverse()]: the adjugate over the determinant. *)
Definition inverse (m : MMatrix) : MMatrix :=
  build (fun i j => cofactor m j i / det4x4 m).

(** Vectors of three doubles: [MVector], and the angles of an
    [MEulerRotation] (rotation order XYZ, the default, throughout). *)
Definition vec3 : Type := R * R * R.

Definition vmap (f : R -> R) (v : vec3) : vec3 :=
  let '(x, y, z) := v in (f x, f y, f z).

(** [math.radians], [math.degrees] *)
Definition radians (x : R) : R := x * (PI / 180).
Definition degrees (x : R) : R := x * (180 / PI).

Definition rotX (t : R) : MMatrix :=
  Matrix 1 0 0 0
         0 (cos t) (sin t) 0
         0 (- sin t) (cos t) 0
         0 0 0 1.

Definition rotY (t : R) : MMatrix :=
  Matrix (cos t) 0 (- sin t) 0
         0 1 0 0
         (sin t) 0 (cos t) 0
         0 0 0 1.

Definition rotZ (t : R) : MMatrix :=
  Matrix (cos t) (sin t) 0 0
         (- sin t) (cos t) 0 0
         0 0 1 0
         0 0 0 1.

(** [MTransformationMatrix(kIdentity).setRotation(MEulerRotation(x, y, z)).asMatrix()] *)
Definition euler_as_matrix (e : vec3) : MMatrix :=
  let '(x, y, z) := e in mmul (mmul (rotX x) (rotY y)) (rotZ z).

Record MQuaternion := Quat { qx : R; qy : R; qz : R; qw : R }.

(** [MQuaternion.asMatrix()] *)
Definition quat_as_matrix (q : MQuaternion) : MMatrix :=
  let '(x, y, z, w) := (qx q, qy q, qz q, qw q) in
  Matrix (1 - 2 * (y * y + z * z)) (2 * (x * y + z * w)) (2 * (x * z - y * w)) 0
         (2 * (x * y - z * w)) (1 - 2 * (x * x + z * z)) (2 * (y * z + x * w)) 0
         (2 * (x * z + y * w)) (2 * (y * z - x * w)) (1 - 2 * (x * x + y * y)) 0
         0 0 0 1.

(** [rot.x = rot.x * -1.0; rot.w = rot.w * -1.0] *)
Definition negate_x_w (rot : MQuaternion) : MQuaternion :=
  {| qx := qx rot * -1; qy := qy rot; qz := qz rot; qw := qw rot * -1 |}.

Definition unit_quaternion (q : MQuaternion) : Prop :=
  qx q * qx q + qy q * qy q + qz q * qz q + qw q * qw q = 1.

(** Conjugation by the reflection [diag(-1, 1, 1, 1)]. *)
Definition mirror_x (m : MMatrix) : MMatrix :=
  Matrix (a00 m) (- a01 m) (- a02 m) (a03 m)
         (- a10 m) (a11 m) (a12 m) (a13 m)
         (- a20 m) (a21 m) (a22 m) (a23 m)
         (a30 m) (a31 m) (a32 m) (a33 m).

Section Host.

(** The decomposition of a matrix by [MTransformationMatrix] is the host's:
    [MTransformationMatrix(m).rotation(asQuaternion=True)] and
    [MTransformationMatrix(m).rotation(asQuaternion=False)]. *)
Variable rotation_quat : MMatrix -> MQuaternion.
Variable rotation_euler : MMatrix -> vec3.

(** What the host promises of them: the rotation read off a rotation matrix
    is that rotation, and the identity reads as zero angles. *)
Record host_contract : Prop := {
  rotation_quat_sound :
    forall q, unit_quaternion q ->
      quat_as_matrix (rotation_quat (quat_as_matrix q)) = quat_as_matrix q;
  rotation_euler_sound :
    forall e, euler_as_matrix (rotation_euler (euler_as_matrix e)) = euler_as_matrix e;
  rotation_euler_identity : rotation_euler kIdentity = (0, 0, 0)
}.

(** [mirror_pose], lines 938-967: from the source's [rotate] attribute to
    the value set on the target's. *)
Definition mirror_rotation (source_parent_matrix target_parent_matrix : MMatrix)
           (rotate : vec3) : vec3 :=
  let euler := vmap radians rotate in
  let driver_matrix := euler_as_matrix euler in
  let world_matrix := mmul driver_matrix source_parent_matrix in
  let rot_matrix := mmul (inverse source_parent_matrix) world_matrix in
  let rot := rotation_quat rot_matrix in
  let rot := negate_x_w rot in
  let rot_matrix := quat_as_matrix rot in
  let final_rot_matrix :=
    mmul (mmul target_parent_matrix rot_matrix) (inverse target_parent_matrix) in
  let rot := rotation_euler final_rot_matrix in
  vmap degrees rot.

(** The steps as the specification words them: the quaternion is taken of
    the world-space matrix, and the result is brought into the target's
    local space by the target parent's inverse. *)
Definition mirror_rotation_spec (source_parent_matrix target_parent_matrix : MMatrix)
           (local_euler_degrees : vec3) : vec3 :=
  let rotation_matrix := euler_as_matrix (vmap radians local_euler_degrees) in
  let world := mmul rotation_matrix source_parent_matrix in
  let q := negate_x_w (rotation_quat world) in
  let reconstituted := quat_as_matrix q in
  let local := mmul reconstituted (inverse target_parent_matrix) in
  vmap degrees (rotation_euler local).

(** The steps as the code takes them. *)
Definition conjugate_by_inverse (parent m : MMatrix) : MMatrix :=
  mmul (inverse parent) (mmul m parent).

Definition conjugate_by (parent m : MMatrix) : MMatrix :=
  mmul (mmul parent m) (inverse parent).

Definition mirror_rotation_amended (source_parent_matrix target_parent_matrix : MMatrix)
           (local_euler_degrees : vec3) : vec3 :=
  let rotation_matrix := euler_as_matrix (vmap radians local_euler_degrees) in
  let in_source_frame := conjugate_by_inverse source_parent_matrix rotation_matrix in
  let q := negate_x_w (rotation_quat in_source_frame) in
  let reconstituted := quat_as_matrix q in
  let in_target_frame := conjugate_by target_parent_matrix reconstituted in
  vmap degrees (rotation_euler in_target_frame).

End Host.

(** A host that keeps the contract. *)
Definition rotation_quat0 (m : MMatrix) : MQuaternion :=
  epsilon (inhabits (Quat 0 0 0 1)) (fun q => quat_as_matrix q = m).

Definition rotation_euler0 (m : MMatrix) : vec3 :=
  epsilon (inhabits (0, 0, 0))
          (fun e => euler_as_matrix e = m /\ (m = kIdentity -> e = (0, 0, 0))).

(** Half turns about the axes. *)
Definition half_turn_x : MMatrix :=
  Matrix 1 0 0 0  0 (-1) 0 0  0 0 (-1) 0  0 0 0 1.
Definition half_turn_y : MMatrix :=
  Matrix (-1) 0 0 0  0 1 0 0  0 0 (-1) 0  0 0 0 1.
Definition half_turn_z : MMatrix :=
  Matrix (-1) 0 0 0  0 (-1) 0 0  0 0 1 0  0 0 0 1.

(** A parent that is scaled and moved. *)
Definition scaled_parent : MMatrix :=
  Matrix 2 0 0 0  0 1 0 0  0 0 1 0  3 0 0 1.

End MirrorMath.

(* ================================================================== *)
(** * The Maya scene, pose_blender.py, api.py and main.py *)
(* ================================================================== *)

Module Scene.

(** ** Host data

    A matrix is the list of 16 doubles that [cmds.getAttr] and
    [cmds.xform(q=True, matrix=True)] return; the wrappers only store and
    copy them. *)
Definition matrix : Type := list Q.

Definition identity_matrix : matrix :=
  [1; 0; 0; 0;  0; 1; 0; 0;  0; 0; 1; 0;  0; 0; 0; 1]%Q.

(** A multi attribute is a sparse array over logical indices.
    [getAttr(size=True)] is [size], [getAttr(multiIndices=True)] lists the
    indices in use in increasing order (the Python code reads Maya's [None]
    for an empty array as an empty list wherever it iterates). *)
Definition multiIndices {A} (m : gmap nat A) : list nat :=
  merge_sort le (elements (dom m)).

Definition values_of {A} (m : gmap nat A) : list A :=
  omap (fun i => m !! i) (multiIndices m).

(** [for i, x in enumerate(xs): setAttr(attr[i], x)] *)
Definition set_all {A} (xs : list A) (m : gmap nat A) : gmap nat A :=
  map_seq 0 xs ∪ m.

(** [for i in reversed(range(n)): removeMultiInstance(attr[i])] *)
Definition remove_range {A} (n : nat) (m : gmap nat A) : gmap nat A :=
  foldl (fun acc i => delete i acc) m (rev (seq 0 n)).

(** One element of [solver.targets]. *)
Record target := Target {
  targetName : string;
  targetValues : gmap nat matrix;
  targetControllers : gmap nat matrix;
  targetEnable : bool;
  targetFunctionType : string;
  targetScaleFactor : Q;
  targetDistanceMethod : string
}.

(** An element that no [setAttr] has touched yet.  Every field that
    [add_pose] does not write stays as it is here. *)
Definition default_target : target :=
  {| targetName := "";
     targetValues := ∅;
     targetControllers := ∅;
     targetEnable := true;
     targetFunctionType := "DefaultFunctionType";
     targetScaleFactor := 1%Q;
     targetDistanceMethod := "DefaultMethod" |}.

(** The scalar attributes of a solver node; enums by index, as
    [getAttr(asString=False)] reads them. *)
Record solver_config := Config {
  mode : Z;
  radius : Q;
  automaticRadius : bool;
  weightThreshold : Q;
  distanceMethod : Z;
  normalizeMethod : Z;
  functionType : Z;
  twistAxis : Z;
  inputMode : Z
}.

(** A UERBFSolverNode.  [poseBlenders] is [None] while the message
    attribute does not exist, and the list of connected pose blender nodes
    once [add_driven_transforms] has created it. *)
Record solver := Solver {
  inputs : gmap nat string;
  inputsRest : gmap nat matrix;
  inputsControllers : gmap nat string;
  targets : gmap nat target;
  poseBlenders : option (list string);
  config : solver_config
}.

(** A UEPoseBlenderNode.  [outMatrix_connected] tells whether [outMatrix]
    drives the transform through a decomposeMatrix node. *)
Record blender := Blender {
  drivenTransform : option string;
  blender_poses : gmap nat matrix;
  outMatrix_connected : bool
}.

(** The scene: transforms with their local matrix, solver nodes, pose
    blender nodes, and the active selection. *)
Record scene := Scene {
  transforms : gmap string matrix;
  solvers : gmap string solver;
  blenders : gmap string blender;
  selection : list string
}.

(** ** Calls: state and exceptions

    A call takes the scene and returns its outcome with the scene as the
    call leaves it; what was written before an exception stays written. *)
Definition M (A : Type) : Type := scene -> result A * scene.

Definition ret {A} (a : A) : M A := fun sc => (Ok a, sc).
Definition raise {A} (e : exn) : M A := fun sc => (Raise e, sc).
Definition bindM {A B} (c : M A) (k : A -> M B) : M B :=
  fun sc =>
    match c sc with
    | (Ok a, sc') => k a sc'
    | (Raise e, sc') => (Raise e, sc')
    end.
(** A query: it reads the scene and leaves it alone. *)
Definition query {A} (f : scene -> result A) : M A := fun sc => (f sc, sc).
Definition modify (f : scene -> scene) : M unit := fun sc => (Ok tt, f sc).

End Scene.

Notation "x <~ c ;; k" := (Scene.bindM c (fun x => k))
(at level 100, c at next level, right associativity).
Notation "c ;;; k" := (Scene.bindM c (fun _ => k))
(at level 100, right associativity).

Module Host.
Import Scene.

Fixpoint for_each {A} (xs : list A) (body : A -> M unit) : M unit :=
  match xs with
  | [] => ret tt
  | x :: rest => body x ;;; for_each rest body
  end.

(** [for i, x in enumerate(xs)] *)
Definition enumerate {A} (xs : list A) : list (nat * A) := imap pair xs.

(** ** Python dictionaries that keep insertion order *)
Section Dict.
Context {K V : Type} `{EqDecision K}.

Fixpoint dict_get (k : K) (d : list (K * V)) : option V :=
  match d with
  | [] => None
  | (k', v) :: rest => if decide (k = k') then Some v else dict_get k rest
  end.

(** [d[k] = v] *)
Fixpoint dict_set (k : K) (v : V) (d : list (K * V)) : list (K * V) :=
  match d with
  | [] => [(k, v)]
  | (k', v') :: rest =>
      if decide (k = k') then (k, v) :: rest else (k', v') :: dict_set k v rest
  end.

(** [d.pop(k)] for a key that is present *)
Fixpoint dict_pop (k : K) (d : list (K * V)) : list (K * V) :=
  match d with
  | [] => []
  | (k', v') :: rest =>
      if decide (k = k') then rest else (k', v') :: dict_pop k rest
  end.

Definition dict_keys (d : list (K * V)) : list K := d.*1.
End Dict.

(** ** cmds *)

(** [cmds.objExists] *)
Definition objExists (name : string) (sc : scene) : bool :=
  bool_decide (is_Some (transforms sc !! name))
  || bool_decide (is_Some (solvers sc !! name))
  || bool_decide (is_Some (blenders sc !! name)).

(** [cmds.objectType(name, isAType='transform')] *)
Definition is_transform (name : string) (sc : scene) : bool :=
  bool_decide (is_Some (transforms sc !! name)).

(** [cmds.xform(name, q=True, matrix=True, objectSpace=True)] *)
Definition xform_query (name : string) (sc : scene) : result matrix :=
  match transforms sc !! name with
  | Some m => Ok m
  | None => Raise (MayaError "No object matches name")
  end.

(** [cmds.xform(name, matrix=m)] *)
Definition xform_set (name : string) (m : matrix) : M unit :=
  fun sc =>
    match transforms sc !! name with
    | Some _ =>
        (Ok tt, {| transforms := <[name := m]> (transforms sc);
                   solvers := solvers sc;
                   blenders := blenders sc;
                   selection := selection sc |})
    | None => (Raise (MayaError "No object matches name"), sc)
    end.

Definition the_solver (self : string) (sc : scene) : result solver :=
  match solvers sc !! self with
  | Some sv => Ok sv
  | None => Raise (MayaError "No object matches name")
  end.

Definition the_blender (node : string) (sc : scene) : result blender :=
  match blenders sc !! node with
  | Some b => Ok b
  | None => Raise (InvalidNodeType (Invalid_node node))
  end.

Definition set_solver (self : string) (sv : solver) (sc : scene) : scene :=
  {| transforms := transforms sc;
     solvers := <[self := sv]> (solvers sc);
     blenders := blenders sc;
     selection := selection sc |}.

Definition set_blender (node : string) (b : blender) (sc : scene) : scene :=
  {| transforms := transforms sc;
     solvers := solvers sc;
     blenders := <[node := b]> (blenders sc);
     selection := selection sc |}.

(** A write to a solver node that exists. *)
Definition update_solver (self : string) (f : solver -> solver) : M unit :=
  fun sc =>
    match solvers sc !! self with
    | Some sv => (Ok tt, set_solver self (f sv) sc)
    | None => (Raise (MayaError "No object matches name"), sc)
    end.

Definition update_blender (node : string) (f : blender -> blender) : M unit :=
  fun sc =>
    match blenders sc !! node with
    | Some b => (Ok tt, set_blender node (f b) sc)
    | None => (Raise (InvalidNodeType (Invalid_node node)), sc)
    end.

Definition with_targets (f : gmap nat target -> gmap nat target) (sv : solver) : solver :=
  {| inputs := inputs sv; inputsRest := inputsRest sv;
     inputsControllers := inputsControllers sv;
     targets := f (targets sv);
     poseBlenders := poseBlenders sv; config := config sv |}.

(** [setAttr] on a field of [targets[i]]: the element comes into being
    with the write when it was not there. *)
Definition write_target (i : nat) (f : target -> target)
           (tg : gmap nat target) : gmap nat target :=
  <[i := f (default default_target (tg !! i))]> tg.

Definition set_targetValues (ms : list matrix) (t : target) : target :=
  {| targetName := targetName t;
     targetValues := set_all ms (targetValues t);
     targetControllers := targetControllers t;
     targetEnable := targetEnable t;
     targetFunctionType := targetFunctionType t;
     targetScaleFactor := targetScaleFactor t;
     targetDistanceMethod := targetDistanceMethod t |}.

Definition set_targetControllers (ms : list matrix) (t : target) : target :=
  {| targetName := targetName t;
     targetValues := targetValues t;
     targetControllers := set_all ms (targetControllers t);
     targetEnable := targetEnable t;
     targetFunctionType := targetFunctionType t;
     targetScaleFactor := targetScaleFactor t;
     targetDistanceMethod := targetDistanceMethod t |}.

Definition set_targetName (n : string) (t : target) : target :=
  {| targetName := n;
     targetValues := targetValues t;
     targetControllers := targetControllers t;
     targetEnable := targetEnable t;
     targetFunctionType := targetFunctionType t;
     targetScaleFactor := targetScaleFactor t;
     targetDistanceMethod := targetDistanceMethod t |}.

Definition set_targetEnable (e : bool) (t : target) : target :=
  {| targetName := targetName t;
     targetValues := targetValues t;
     targetControllers := targetControllers t;
     targetEnable := e;
     targetFunctionType := targetFunctionType t;
     targetScaleFactor := targetScaleFactor t;
     targetDistanceMethod := targetDistanceMethod t |}.

End Host.

(* ================================================================== *)
(** * v2/model/pose_blender.py : UEPoseBlenderNode *)
(* ================================================================== *)

Module UEPoseBlenderNode.
Import Scene Host.

Definition with_poses (f : gmap nat matrix -> gmap nat matrix) (b : blender) : blender :=
  {| drivenTransform := drivenTransform b;
     blender_poses := f (blender_poses b);
     outMatrix_connected := outMatrix_connected b |}.

Definition with_out (c : bool) (b : blender) : blender :=
  {| drivenTransform := drivenTransform b;
     blender_poses := blender_poses b;
     outMatrix_connected := c |}.

(** [driven_transform] *)
Definition driven_transform (node : string) (sc : scene) : result (option string) :=
  b <- the_blender node sc ;; Ok (drivenTransform b).

(** [edit] (getter): no transform, or no connection out of [outMatrix]. *)
Definition edit_of (b : blender) : bool :=
  match drivenTransform b with
  | None => true
  | Some _ => negb (outMatrix_connected b)
  end.

Definition edit (node : string) (sc : scene) : result bool :=
  b <- the_blender node sc ;; Ok (edit_of b).

(** [out_matrix] (setter).  With a transform name the output is wired to
    it through a new decomposeMatrix node; with [None] every connection is
    removed and the transform is put back where it stood. *)
Definition set_out_matrix (node : string) (transform_name : option string) : M unit :=
  match transform_name with
  | Some t =>
      fun sc =>
        if is_transform t sc then update_blender node (with_out true) sc
        else (Raise (InvalidNodeType (Invalid_node t)), sc)
  | None =>
      b <~ query (the_blender node) ;;
      match drivenTransform b with
      | Some d =>
          current_matrix <~ query (xform_query d) ;;
          update_blender node (with_out false) ;;;
          xform_set d current_matrix
      | None => raise (MayaError "No object matches name")
      end
  end.

(** [edit] (setter) *)
Definition set_edit (node : string) (value : bool) : M unit :=
  transform <~ query (driven_transform node) ;;
  match transform with
  | None => ret tt
  | Some t => if value then set_out_matrix node None else set_out_matrix node (Some t)
  end.

(** [get_pose(index)].  An element that was never set reads as the
    attribute's default, the identity. *)
Definition get_pose (node : string) (index : nat) (sc : scene) : result matrix :=
  b <- the_blender node sc ;;
  Ok (default identity_matrix (blender_poses b !! index)).

(** [get_poses()] *)
Definition get_poses (node : string) (sc : scene) : result (list matrix) :=
  b <- the_blender node sc ;; Ok (values_of (blender_poses b)).

(** [set_pose(index=index, matrix=matrix)] with an index that is not
    negative; without a matrix the driven transform's current one is
    taken. *)
Definition set_pose (node : string) (index : nat) (m : option matrix) : M unit :=
  mx <~ match m with
        | Some mx => ret mx
        | None =>
            t <~ query (driven_transform node) ;;
            match t with
            | Some d => query (xform_query d)
            | None => raise (MayaError "No object matches name")
            end
        end ;;
  update_blender node (with_poses (insert index mx)).

(** [add_pose_from_current(pose_name, index)] *)
Definition add_pose_from_current (node : string) (index : nat) : M unit :=
  t <~ query (driven_transform node) ;;
  match t with
  | None => raise (PoseBlenderPoseError No_driven_transform)
  | Some d =>
      local_matrix <~ query (xform_query d) ;;
      set_pose node index (Some local_matrix)
  end.

(** [go_to_pose(index)] *)
Definition go_to_pose (node : string) (index : nat) : M unit :=
  pose_matrix <~ query (get_pose node index) ;;
  t <~ query (driven_transform node) ;;
  match t with
  | Some d => xform_set d pose_matrix
  | None => raise (MayaError "No object matches name")
  end.

(** [poses.pop(index)] on a list *)
Definition list_pop {A} (index : nat) (l : list A) : result (list A) :=
  if decide (index < length l) then Ok (delete index l)
  else Raise (IndexError pop_index_out_of_range).

(** [delete_pose(index=index)] with an index that is not negative: all
    poses are read, the attribute is emptied, and all but the one at
    [index] are set again at 0, 1, ... *)
Definition delete_pose (node : string) (index : nat) : M unit :=
  all_poses <~ query (get_poses node) ;;
  update_blender node (with_poses (remove_range (length all_poses))) ;;;
  kept <~ query (fun _ => list_pop index all_poses) ;;
  for_each (enumerate kept) (fun '(pose_index, m) => set_pose node pose_index (Some m)).

(** [find_by_transform(transform)]: the node whose [drivenTransform]
    message attribute is connected to the transform. *)
Definition find_by_transform (transform : string) (sc : scene) : option string :=
  match list_find (fun nb : string * blender => drivenTransform (snd nb) = Some transform)
                  (map_to_list (blenders sc)) with
  | Some (_, (node, _)) => Some node
  | None => None
  end.

(** [create(driven_transform)]: the node is named after the transform,
    connected to it, and its base pose (pose 0) is the transform's current
    local matrix. *)
Definition create (driven : string) : M string :=
  let node := driven +:+ "_UEPoseBlenderNode" in
  m <~ query (xform_query driven) ;;
  modify (set_blender node {| drivenTransform := Some driven;
                              blender_poses := {[ 0%nat := m ]};
                              outMatrix_connected := false |}) ;;;
  ret node.

End UEPoseBlenderNode.

(* ================================================================== *)
(** * v2/model/api.py : RBFNode *)
(* ================================================================== *)

Module RBFNode.
Import Scene Host.

(** What [pose()] returns.  Blendshape bindings are host geometry; the
    solvers of this model have none, so [blendshape_data] is always the
    empty list and [delete_blendshape] has nothing to do. *)
Record pose_data := PoseData {
  pd_drivers : list matrix;
  pd_controllers : list matrix;
  pd_driven : list (option string * matrix);
  pd_function_type : string;
  pd_scale_factor : Q;
  pd_distance_method : string;
  pd_target_enable : bool
}.

(** Python truth of a list that may be [None]. *)
Definition truthy {A} (l : option (list A)) : bool :=
  match l with
  | Some (_ :: _) => true
  | _ => false
  end.

Fixpoint result_mapM {A B} (f : A -> result B) (xs : list A) : result (list B) :=
  match xs with
  | [] => Ok []
  | x :: rest => y <- f x ;; ys <- result_mapM f rest ;; Ok (y :: ys)
  end.

(** ** Queries on a solver node *)

Definition num_poses (sv : solver) : nat := size (targets sv).
Definition num_drivers (sv : solver) : nat := size (inputs sv).
Definition num_controllers (sv : solver) : nat := size (inputsControllers sv).
Definition drivers (sv : solver) : list string := values_of (inputs sv).
Definition controllers (sv : solver) : list string := values_of (inputsControllers sv).
Definition has_driver (sv : solver) (transform_node : string) : bool :=
  bool_decide (transform_node ∈ drivers sv).
Definition has_controller (sv : solver) (transform_node : string) : bool :=
  bool_decide (transform_node ∈ controllers sv).

Definition target_at (sv : solver) (i : nat) : target :=
  default default_target (targets sv !! i).

(** [pose_index]: the first index whose [targetName] is the name, or -1. *)
Fixpoint find_pose_index (sv : solver) (pose_name : string) (indices : list nat) : Z :=
  match indices with
  | [] => (-1)%Z
  | i :: rest =>
      if String.eqb pose_name (targetName (target_at sv i)) then Z.of_nat i
      else find_pose_index sv pose_name rest
  end.

Definition pose_index (sv : solver) (pose_name : string) : Z :=
  find_pose_index sv pose_name (multiIndices (targets sv)).

(** The pose blender part of [pose()]:
    pose_blender_data[node.driven_transform] = node.get_pose(index) *)
Fixpoint collect_driven (sc : scene) (index : nat) (nodes : list string)
         (acc : list (option string * matrix)) : result (list (option string * matrix)) :=
  match nodes with
  | [] => Ok acc
  | node :: rest =>
      pose_matrix <- UEPoseBlenderNode.get_pose node index sc ;;
      t <- UEPoseBlenderNode.driven_transform node sc ;;
      collect_driven sc index rest (dict_set t pose_matrix acc)
  end.

(** [for node in cmds.listConnections(solver.poseBlenders)], guarded by
    [attributeQuery(exists=True)]: nothing without the attribute, and a
    TypeError when the attribute is there but nothing is connected, since
    listConnections then returns None. *)
Definition pose_blender_nodes (sv : solver) : result (list string) :=
  match poseBlenders sv with
  | None => Ok []
  | Some [] => Raise (TypeError NoneType_not_iterable)
  | Some nodes => Ok nodes
  end.

(** [pose(pose_name)] *)
Definition pose (sc : scene) (sv : solver) (pose_name : string) : result pose_data :=
  let pi := pose_index sv pose_name in
  if (pi =? -1)%Z then Raise (InvalidPose (Pose_not_found pose_name)) else
  let i := Z.to_nat pi in
  let t := target_at sv i in
  let driver_indices := multiIndices (targetValues t) in
  if bool_decide (driver_indices = []) then
    Raise (InvalidPose Unable_to_get_Driver_indices)
  else if negb (length driver_indices =? num_drivers sv)%nat then
    Raise (InvalidPose Invalid_Driver_Indices)
  else
  let matrices := values_of (targetValues t) in
  let controller_indices := multiIndices (targetControllers t) in
  if negb (length controller_indices =? num_controllers sv)%nat then
    Raise (RuntimeError Invalid_Controller_Indices)
  else
  let controller_matrices := values_of (targetControllers t) in
  nodes <- pose_blender_nodes sv ;;
  pose_blender_data <- collect_driven sc i nodes [] ;;
  Ok {| pd_drivers := matrices;
        pd_controllers := controller_matrices;
        pd_driven := pose_blender_data;
        pd_function_type := targetFunctionType t;
        pd_scale_factor := targetScaleFactor t;
        pd_distance_method := targetDistanceMethod t;
        pd_target_enable := targetEnable t |}.

(** [poses()]: the named poses, in index order. *)
Fixpoint poses_loop (sc : scene) (sv : solver) (indices : list nat)
         (acc : list (string * pose_data)) : result (list (string * pose_data)) :=
  match indices with
  | [] => Ok acc
  | i :: rest =>
      let pose_name := targetName (target_at sv i) in
      if String.eqb pose_name "" then poses_loop sc sv rest acc
      else pd <- pose sc sv pose_name ;;
           poses_loop sc sv rest (dict_set pose_name pd acc)
  end.

Definition poses (sc : scene) (sv : solver) : result (list (string * pose_data)) :=
  poses_loop sc sv (multiIndices (targets sv)) [].

(** [has_pose(pose_name)]: pose_name in self.poses() *)
Definition has_pose (sc : scene) (sv : solver) (pose_name : string) : result bool :=
  ps <- poses sc sv ;; Ok (bool_decide (pose_name ∈ dict_keys ps)).

(** ** Calls on [self], the name of the solver node *)

Definition self_query {A} (self : string) (f : scene -> solver -> result A) : M A :=
  query (fun sc => sv <- the_solver self sc ;; f sc sv).

Definition with_inputs (f : gmap nat string -> gmap nat string)
           (g : gmap nat matrix -> gmap nat matrix) (sv : solver) : solver :=
  {| inputs := f (inputs sv); inputsRest := g (inputsRest sv);
     inputsControllers := inputsControllers sv;
     targets := targets sv;
     poseBlenders := poseBlenders sv; config := config sv |}.

Definition with_controllers (f : gmap nat string -> gmap nat string) (sv : solver) : solver :=
  {| inputs := inputs sv; inputsRest := inputsRest sv;
     inputsControllers := f (inputsControllers sv);
     targets := targets sv;
     poseBlenders := poseBlenders sv; config := config sv |}.

Definition with_poseBlenders (f : option (list string) -> option (list string))
           (sv : solver) : solver :=
  {| inputs := inputs sv; inputsRest := inputsRest sv;
     inputsControllers := inputsControllers sv;
     targets := targets sv;
     poseBlenders := f (poseBlenders sv); config := config sv |}.

Definition with_config (c : solver_config) (sv : solver) : solver :=
  {| inputs := inputs sv; inputsRest := inputsRest sv;
     inputsControllers := inputsControllers sv;
     targets := targets sv;
     poseBlenders := poseBlenders sv; config := c |}.

(** The body of the loop of [add_driver]. *)
Definition add_one_driver (self transform_node : string) : M unit :=
  exists_ <~ query (fun sc => Ok (objExists transform_node sc)) ;;
  if negb exists_ then raise (RuntimeError (Node_not_found transform_node)) else
  is_t <~ query (fun sc => Ok (is_transform transform_node sc)) ;;
  if negb is_t then raise (RuntimeError (Invalid_transform_node transform_node)) else
  sv <~ query (the_solver self) ;;
  if has_driver sv transform_node then
    raise (RuntimeError (Already_has_driver transform_node))
  else
  let index := num_drivers sv in
  (* connectAttr refuses a destination that is already connected *)
  if bool_decide (is_Some (inputs sv !! index)) then
    raise (MayaError "Destination is already connected")
  else
  update_solver self (with_inputs (insert index transform_node) (fun r => r)) ;;;
  rest_matrix <~ query (xform_query transform_node) ;;
  update_solver self (with_inputs (fun i => i) (insert index rest_matrix)).

(** [add_driver(transform_nodes)] *)
Definition add_driver (self : string) (transform_nodes : option (list string)) : M unit :=
  transform_nodes <~ match transform_nodes with
                     | Some nodes => ret nodes
                     | None =>
                         query (fun sc => Ok (filter (fun t => is_transform t sc = true)
                                                     (selection sc)))
                     end ;;
  sv <~ query (the_solver self) ;;
  if (1 <? num_poses sv)%nat then
    raise (RuntimeError Unable_to_add_driver_after_poses)
  else for_each transform_nodes (add_one_driver self).

Definition add_one_controller (self transform_node : string) : M unit :=
  exists_ <~ query (fun sc => Ok (objExists transform_node sc)) ;;
  if negb exists_ then raise (RuntimeError (Node_not_found transform_node)) else
  is_t <~ query (fun sc => Ok (is_transform transform_node sc)) ;;
  if negb is_t then raise (RuntimeError (Invalid_transform_node transform_node)) else
  sv <~ query (the_solver self) ;;
  if has_controller sv transform_node then
    raise (RuntimeError (Already_has_controller transform_node))
  else
  let index := num_controllers sv in
  if bool_decide (is_Some (inputsControllers sv !! index)) then
    raise (MayaError "Destination is already connected")
  else update_solver self (with_controllers (insert index transform_node)).

(** [add_controller(transform_nodes)] *)
Definition add_controller (self : string) (transform_nodes : list string) : M unit :=
  sv <~ query (the_solver self) ;;
  if (0 <? num_poses sv)%nat then
    raise (RuntimeError Unable_to_add_controller_after_poses)
  else for_each transform_nodes (add_one_controller self).

(** The body of the loop of [add_driven_transforms]. *)
Definition add_one_driven (self node : string) (edit : bool) : M unit :=
  exists_ <~ query (fun sc => Ok (objExists node sc)) ;;
  if negb exists_ then raise (MayaError "No object matches name") else
  existing_connection <~ query (fun sc => Ok (UEPoseBlenderNode.find_by_transform node sc)) ;;
  match existing_connection with
  | Some _ => ret tt          (* logged and skipped *)
  | None =>
      pose_blender_node <~ UEPoseBlenderNode.create node ;;
      update_solver self
        (with_poseBlenders (fun pb => Some (default [] pb ++ [pose_blender_node])%list)) ;;;
      UEPoseBlenderNode.set_edit pose_blender_node edit
  end.

(** [add_driven_transforms(driven_nodes, edit)] *)
Definition add_driven_transforms (self : string) (driven_nodes : list string)
           (edit : bool) : M unit :=
  driven_nodes <~ match driven_nodes with
                  | [] => query (fun sc => Ok (filter (fun t => is_transform t sc = true)
                                                      (selection sc)))
                  | _ => ret driven_nodes
                  end ;;
  for_each driven_nodes (fun node => add_one_driven self node edit).

(** The pose blender part of [add_pose]. *)
Definition add_pose_on_blender (pose_index : nat)
           (driven_matrices : option (list (option string * matrix)))
           (node : string) : M unit :=
  t <~ query (UEPoseBlenderNode.driven_transform node) ;;
  let given :=
    if truthy driven_matrices then dict_get t (default [] driven_matrices) else None in
  match given with
  | Some ((_ :: _) as m) => UEPoseBlenderNode.set_pose node pose_index (Some m)
  | _ => UEPoseBlenderNode.add_pose_from_current node pose_index
  end.

(** [add_pose(pose_name, drivers, matrices, controller_matrices,
    driven_matrices, function_type, distance_method, scale_factor,
    target_enable)].  The body never reads [function_type],
    [distance_method] and [scale_factor]; they are left out. *)
Definition add_pose (self pose_name : string)
           (drivers_arg : option (list string)) (matrices : option (list matrix))
           (controller_matrices : option (list matrix))
           (driven_matrices : option (list (option string * matrix)))
           (target_enable : bool) : M unit :=
  matrices <~ (if truthy drivers_arg && bool_decide (matrices = None) then
                 ms <~ query (fun sc => result_mapM (fun d => xform_query d sc)
                                                    (default [] drivers_arg)) ;;
                 ret (Some ms)
               else ret matrices) ;;
  sv <~ query (the_solver self) ;;
  if (num_drivers sv =? 0)%nat then raise (InvalidPose You_must_add_a_driver_first) else
  exists_ <~ query (fun sc => has_pose sc sv pose_name) ;;
  if exists_ then raise (InvalidPose (Already_a_pose_called pose_name)) else
  match matrices with
  | None => raise (TypeError NoneType_has_no_len)
  | Some ms =>
      if negb (length ms =? num_drivers sv)%nat then
        raise (InvalidPose Invalid_number_of_matrices)
      else if truthy controller_matrices
              && negb (length (default [] controller_matrices) =? num_controllers sv)%nat then
        raise (InvalidPose Invalid_number_of_controller_matrices)
      else if negb (num_controllers sv =? 0)%nat && negb (truthy controller_matrices) then
        raise (InvalidPose Invalid_number_of_controller_matrices)
      else
      let pose_index := num_poses sv in
      update_solver self (with_targets (write_target pose_index (set_targetValues ms))) ;;;
      (if truthy controller_matrices then
         update_solver self
           (with_targets (write_target pose_index
                            (set_targetControllers (default [] controller_matrices))))
       else ret tt) ;;;
      nodes <~ query (fun _ => pose_blender_nodes sv) ;;
      for_each nodes (add_pose_on_blender pose_index driven_matrices) ;;;
      update_solver self (with_targets (write_target pose_index (set_targetName pose_name))) ;;;
      update_solver self (with_targets (write_target pose_index (set_targetEnable target_enable)))
  end.

(** [update_pose(pose_name, drivers, matrices, controller_matrices)] *)
Definition update_pose (self pose_name : string)
           (drivers_arg : option (list string)) (matrices : option (list matrix))
           (controller_matrices : option (list matrix)) : M unit :=
  matrices <~ (if truthy drivers_arg && bool_decide (matrices = None) then
                 ms <~ query (fun sc => result_mapM (fun d => xform_query d sc)
                                                    (default [] drivers_arg)) ;;
                 ret (Some ms)
               else ret matrices) ;;
  sv <~ query (the_solver self) ;;
  exists_ <~ query (fun sc => has_pose sc sv pose_name) ;;
  if negb exists_ then raise (RuntimeError (Pose_to_update_does_not_exist pose_name)) else
  let pose_index := Z.to_nat (pose_index sv pose_name) in
  match matrices with
  | None => raise (TypeError NoneType_not_iterable)
  | Some ms =>
      update_solver self (with_targets (write_target pose_index (set_targetValues ms))) ;;;
      (if truthy controller_matrices then
         update_solver self
           (with_targets (write_target pose_index
                            (set_targetControllers (default [] controller_matrices))))
       else ret tt) ;;;
      nodes <~ query (fun _ => pose_blender_nodes sv) ;;
      for_each nodes (fun node => UEPoseBlenderNode.set_pose node pose_index None)
  end.

(** [add_pose_from_current(pose_name, update)] *)
Definition add_pose_from_current (self pose_name : string) (update : bool) : M unit :=
  sv <~ query (the_solver self) ;;
  let drivers_ := drivers sv in
  matrices <~ query (fun sc => result_mapM (fun d => xform_query d sc) drivers_) ;;
  controller_matrices <~
    (if negb (num_controllers sv =? 0)%nat then
       cm <~ query (fun sc => result_mapM (fun c => xform_query c sc) (controllers sv)) ;;
       ret (Some cm)
     else ret None) ;;
  if update then
    update_pose self pose_name (Some drivers_) (Some matrices) controller_matrices
  else
    add_pose self pose_name (Some drivers_) (Some matrices) controller_matrices None true.

(** [matrices[i]] *)
Definition list_item {A} (l : list A) (i : nat) : result A :=
  match l !! i with
  | Some x => Ok x
  | None => Raise (IndexError list_index_out_of_range)
  end.

(** [go_to_pose(pose_name)] *)
Definition go_to_pose (self pose_name : string) : M unit :=
  sv <~ query (the_solver self) ;;
  pose_ <~ query (fun sc => pose sc sv pose_name) ;;
  let pose_index := Z.to_nat (pose_index sv pose_name) in
  (if (num_controllers sv =? 0)%nat then
     for_each (enumerate (drivers sv))
       (fun '(driver_index, driver) =>
          m <~ query (fun _ => list_item (pd_drivers pose_) driver_index) ;;
          xform_set driver m)
   else
     for_each (enumerate (controllers sv))
       (fun '(controller_index, controller) =>
          m <~ query (fun _ => list_item (pd_controllers pose_) controller_index) ;;
          xform_set controller m)) ;;;
  nodes <~ query (fun _ => pose_blender_nodes sv) ;;
  for_each nodes (fun node => UEPoseBlenderNode.go_to_pose node pose_index).

(** [delete_pose(pose_name)] *)
Definition delete_pose (self pose_name : string) : M unit :=
  sv <~ query (the_solver self) ;;
  exists_ <~ query (fun sc => has_pose sc sv pose_name) ;;
  if negb exists_ then raise (InvalidPose (Pose_does_not_exist pose_name)) else
  poses_ <~ query (fun sc => poses sc sv) ;;
  let pose_index := Z.to_nat (pose_index sv pose_name) in
  (* delete_blendshape(pose) for every pose: nothing is bound *)
  update_solver self (with_targets (remove_range (length poses_))) ;;;
  let poses_ := dict_pop pose_name poses_ in
  nodes <~ query (fun _ => pose_blender_nodes sv) ;;
  for_each nodes (fun node => UEPoseBlenderNode.delete_pose node pose_index) ;;;
  for_each poses_
    (fun '(name, pose_data) =>
       add_pose self name None
                (Some (pd_drivers pose_data))
                (Some (pd_controllers pose_data))
                (Some (pd_driven pose_data))
                (pd_target_enable pose_data)).

(** The attribute [targets[index].targetEnable], read and written by the
    host.  An index that is not negative names an element (unset elements
    read as the default); a negative one names nothing. *)
Definition getAttr_targetEnable (sv : solver) (index : Z) : result bool :=
  if (index <? 0)%Z then Raise (MayaError "No object matches name")
  else Ok (targetEnable (target_at sv (Z.to_nat index))).

Definition setAttr_targetEnable (self : string) (index : Z) (value : bool) : M unit :=
  if (index <? 0)%Z then raise (MayaError "No object matches name")
  else update_solver self
         (with_targets (write_target (Z.to_nat index) (set_targetEnable value))).

(** The index that [is_pose_muted] and [mute_pose] put into the attribute
    name. *)
Definition mute_index (sv : solver) (pose_name : string) (pose_index_arg : Z) : result Z :=
  if (pose_index_arg <? 0)%Z && negb (String.eqb pose_name "") then
    Ok (pose_index sv pose_name)
  else if String.eqb pose_name "" && (pose_index_arg <? 0)%Z then
    Raise (InvalidPoseIndex Unable_to_query_the_mute_status)
  else Ok pose_index_arg.

(** [is_pose_muted(pose_name, pose_index)] *)
Definition is_pose_muted (sv : solver) (pose_name : string) (pose_index_arg : Z)
  : result bool :=
  index <- mute_index sv pose_name pose_index_arg ;;
  enabled <- getAttr_targetEnable sv index ;;
  Ok (negb enabled).

(** [mute_pose(pose_name, pose_index, mute)]; [mute=None] toggles. *)
Definition mute_pose (self pose_name : string) (pose_index_arg : Z)
           (mute : option bool) : M bool :=
  sv <~ query (the_solver self) ;;
  index <~ query (fun _ => mute_index sv pose_name pose_index_arg) ;;
  mute <~ match mute with
          | Some b => ret b
          | None => muted <~ query (fun _ => is_pose_muted sv "" index) ;;
                    ret (negb muted)
          end ;;
  setAttr_targetEnable self index (negb mute) ;;;
  ret (negb mute).

(** [find_all()] *)
Definition find_all (sc : scene) : list string := (map_to_list (solvers sc)).*1.

(** [edit_solver(edit)] *)
Definition edit_solver (self : string) (edit : bool) : M unit :=
  sv <~ query (the_solver self) ;;
  nodes <~ query (fun _ => pose_blender_nodes sv) ;;
  for_each nodes (fun node => UEPoseBlenderNode.set_edit node edit) ;;;
  all_solvers <~ query (fun sc => Ok (find_all sc)) ;;
  for_each all_solvers
    (fun solver =>
       if bool_decide (solver = self) then ret tt
       else
         has_default <~ self_query solver (fun sc sv' => has_pose sc sv' "default") ;;
         if has_default then go_to_pose solver "default" else ret tt).

(** [get_solver_edit_status()] *)
Fixpoint any_edit (sc : scene) (nodes : list string) : result bool :=
  match nodes with
  | [] => Ok false
  | node :: rest =>
      e <- UEPoseBlenderNode.edit node sc ;;
      if e then Ok true else any_edit sc rest
  end.

Definition get_solver_edit_status (self : string) (sc : scene) : result bool :=
  sv <- the_solver self sc ;;
  nodes <- pose_blender_nodes sv ;;
  any_edit sc nodes.

(** [driven_nodes(type=UEPoseBlenderNode.node_type)] *)
Definition driven_nodes (sc : scene) (sv : solver) : result (list (option string)) :=
  result_mapM (fun node => UEPoseBlenderNode.driven_transform node sc)
              (default [] (poseBlenders sv)).

(** What [data()] returns; [driven_attrs] concerns blendshapes only. *)
Record solver_data := SolverData {
  d_solver_name : string;
  d_drivers : list string;
  d_driven_transforms : list (option string);
  d_controllers : list string;
  d_poses : list (string * pose_data);
  d_config : solver_config
}.

(** [data()] *)
Definition data (self : string) (sc : scene) : result solver_data :=
  sv <- the_solver self sc ;;
  driven <- driven_nodes sc sv ;;
  ps <- poses sc sv ;;
  Ok {| d_solver_name := self;
        d_drivers := drivers sv;
        d_driven_transforms := driven;
        d_controllers := controllers sv;
        d_poses := ps;
        d_config := config sv |}.

Section Native.
(** The attribute values of a node fresh from [cmds.createNode] belong to
    the native plug-in, as does the index of the [Interpolative] mode. *)
Variable native_config : solver_config.
Variable Interpolative : Z.

(** [create(name)], with [set_defaults()] *)
Definition create (name : string) : M unit :=
  modify (set_solver name
            {| inputs := ∅; inputsRest := ∅; inputsControllers := ∅;
               targets := ∅; poseBlenders := None;
               config := {| mode := Interpolative;
                            radius := 45;
                            automaticRadius := false;
                            weightThreshold := weightThreshold native_config;
                            distanceMethod := distanceMethod native_config;
                            normalizeMethod := normalizeMethod native_config;
                            functionType := functionType native_config;
                            twistAxis := twistAxis native_config;
                            inputMode := inputMode native_config |} |}).

(** [create_from_data(data)] *)
Definition create_from_data (d : solver_data) : M string :=
  let rbf_node := d_solver_name d in
  exists_ <~ query (fun sc => Ok (objExists rbf_node sc)) ;;
  (if negb exists_ then create rbf_node
   else (* cls(name) *)
     is_solver <~ query (fun sc => Ok (bool_decide (is_Some (solvers sc !! rbf_node)))) ;;
     if is_solver then ret tt else raise (TypeError (Invalid_node rbf_node))) ;;;
  for_each (d_drivers d)
    (fun driver =>
       sv <~ query (the_solver rbf_node) ;;
       if has_driver sv driver then ret tt else add_driver rbf_node (Some [driver])) ;;;
  for_each (d_controllers d)
    (fun controller =>
       sv <~ query (the_solver rbf_node) ;;
       if has_controller sv controller then ret tt
       else add_controller rbf_node [controller]) ;;;
  (match d_driven_transforms d with
   | [] => ret tt
   | driven =>
       for_each driven
         (fun node =>
            match node with
            | Some n => add_one_driven rbf_node n false
            | None => raise (MayaError "No object matches name")
            end)
   end) ;;;
  for_each (d_poses d)
    (fun '(pose_name, pd) =>
       add_pose rbf_node pose_name (Some (d_drivers d))
                (Some (pd_drivers pd)) (Some (pd_controllers pd))
                (Some (pd_driven pd)) (pd_target_enable pd)) ;;;
  update_solver rbf_node (with_config (d_config d)) ;;;
  ret rbf_node.
End Native.

End RBFNode.

(* ================================================================== *)
(** * v2/main.py : UERBFAPI *)
(* ================================================================== *)

Module UERBFAPI.
Import Scene Host.

(** [add_drivers(drivers, solver)] *)
Definition add_drivers (drivers : option (list string)) (solver : string) : M unit :=
  sv <~ query (the_solver solver) ;;
  if (1 <? RBFNode.num_poses sv)%nat then
    raise (InvalidPoseIndex Too_many_poses_unable_to_add_driver)
  else
  has_default <~ query (fun sc => RBFNode.has_pose sc sv "default") ;;
  (if has_default then RBFNode.delete_pose solver "default" else ret tt) ;;;
  RBFNode.add_driver solver drivers ;;;
  RBFNode.add_pose_from_current solver "default" false.

(** [serialize(solvers)] *)
Definition serialize (solvers_arg : list string) (sc : scene)
  : result (list (string * RBFNode.solver_data)) :=
  let names := match solvers_arg with [] => RBFNode.find_all sc | _ => solvers_arg end in
  foldl (fun acc name =>
           d <- acc ;; sd <- RBFNode.data name sc ;; Ok (dict_set name sd d))
        (Ok []) names.

Section Native.
Variable native_config : solver_config.
Variable Interpolative : Z.

(** [deserialize(data, solver_names)] *)
Definition deserialize (data : list (string * RBFNode.solver_data))
           (solver_names : list string) : M unit :=
  for_each data
    (fun '(solver_name, solver_data) =>
       if bool_decide (solver_names = []) || bool_decide (solver_name ∈ solver_names) then
         RBFNode.create_from_data native_config Interpolative solver_data ;;; ret tt
       else ret tt).
End Native.

End UERBFAPI.

(* ================================================================== *)
(** * Example scenes *)
(* ================================================================== *)

Module Examples.
Import Scene Host RBFNode.

(** A rotation of 45 degrees about Z, to three decimals. *)
Definition rotate_z_45 : matrix :=
  [0.707; 0.707; 0; 0;  -0.707; 0.707; 0; 0;  0; 0; 1; 0;  0; 0; 0; 1]%Q.

Definition some_config : solver_config :=
  {| mode := 1; radius := 45; automaticRadius := false; weightThreshold := 0.001;
     distanceMethod := 0; normalizeMethod := 1; functionType := 0;
     twistAxis := 0; inputMode := 0 |}.

(** Four joints, no solver yet. *)
Definition joints : scene :=
  {| transforms := {[ "J_l_shoulder" := identity_matrix;
                      "J_l_elbow" := rotate_z_45;
                      "J_r_shoulder" := identity_matrix;
                      "J_r_elbow" := rotate_z_45 ]};
     solvers := ∅;
     blenders := ∅;
     selection := [] |}.

(** Scenario A of the specification on a solver named [self], driven by
    [driver], driving [driven]. *)
Definition scenario_A_calls (self driver driven : string) : M unit :=
  create some_config 1 self ;;;
  add_driver self (Some [driver]) ;;;
  add_pose self "default" None (Some [identity_matrix]) None None true ;;;
  add_driven_transforms self [driven] true ;;;
  add_pose self "raised" None (Some [rotate_z_45]) None None true.

Definition scenario_A : scene :=
  snd (scenario_A_calls "arm_l_UERBFSolver" "J_l_shoulder" "J_l_elbow" joints).

Definition solver_of (self : string) (sc : scene) : solver :=
  default {| inputs := ∅; inputsRest := ∅; inputsControllers := ∅; targets := ∅;
             poseBlenders := None; config := some_config |}
          (solvers sc !! self).

Definition solver_A : solver := solver_of "arm_l_UERBFSolver" scenario_A.

(** The poses of Scenario A, in index order, and its Driven Binding. *)
Definition poses_A : list target := values_of (targets solver_A).
Definition nodes_A : list string := ["J_l_elbow_UEPoseBlenderNode"].

(** Scenario A before the pose 'raised' is added: one driver, the pose
    'default', one Driven Binding. *)
Definition scenario_D : scene :=
  snd ((create some_config 1 "arm_l_UERBFSolver" ;;;
        add_driver "arm_l_UERBFSolver" (Some ["J_l_shoulder"]) ;;;
        add_pose "arm_l_UERBFSolver" "default" None (Some [identity_matrix]) None None true ;;;
        add_driven_transforms "arm_l_UERBFSolver" ["J_l_elbow"] true) joints).

Definition solver_D : solver := solver_of "arm_l_UERBFSolver" scenario_D.
Definition default_D : target := target_at solver_D 0.

(** Two solvers, left and right, both left in edit mode. *)
Definition two_solvers : scene :=
  snd ((scenario_A_calls "arm_l_UERBFSolver" "J_l_shoulder" "J_l_elbow" ;;;
        scenario_A_calls "arm_r_UERBFSolver" "J_r_shoulder" "J_r_elbow") joints).

End Examples.

(* ================================================================== *)
(** * Solvers that keep the invariants of the data model *)
(* ================================================================== *)

Module Invariants.
Import Scene Host RBFNode.

(** I1, I2 and the naming of a pose: the stored matrices sit at the
    indices 0, 1, ... and there is one per driver and one per controller. *)
Definition dense_target (sv : solver) (t : target) : Prop :=
  targetName t <> ""
  /\ (exists vs, targetValues t = map_seq 0 vs /\ length vs = num_drivers sv)
  /\ (exists cs, targetControllers t = map_seq 0 cs /\ length cs = num_controllers sv).

(** I5 for one Driven Binding: the pose blender node is there, drives a
    transform, and records one matrix per pose. *)
Definition bound_blender (sc : scene) (n_poses : nat) (node : string) : Prop :=
  exists b d ps,
    blenders sc !! node = Some b
    /\ drivenTransform b = Some d
    /\ blender_poses b = map_seq 0 ps
    /\ length ps = n_poses
    /\ Forall (fun m : matrix => m <> []) ps.

Definition driven_transform_of (sc : scene) (node : string) : option string :=
  b ← blenders sc !! node; drivenTransform b.

(** A solver whose poses are [ts], in index order, and whose Driven
    Bindings are the pose blender nodes [nodes]: I1, I2, I4 and I5 hold,
    and there is a driver. *)
Record well_formed (sc : scene) (sv : solver) (ts : list target)
       (nodes : list string) : Prop := {
  wf_targets : targets sv = map_seq 0 ts;
  wf_target : Forall (dense_target sv) ts;
  wf_names : NoDup (targetName <$> ts);
  wf_drivers : num_drivers sv <> 0%nat;
  wf_nodes : pose_blender_nodes sv = Ok nodes;
  wf_blenders : Forall (bound_blender sc (length ts)) nodes;
  wf_driven : NoDup (driven_transform_of sc <$> nodes)
}.

(** What [pose()] and [poses()] need in order to read the poses [ts] of a
    solver: dense, distinctly named targets of the right arity, a driver,
    and pose blender nodes that are there. *)
Record readable (sc : scene) (sv : solver) (ts : list target)
       (nodes : list string) : Prop := {
  rd_targets : targets sv = map_seq 0 ts;
  rd_target : Forall (dense_target sv) ts;
  rd_names : NoDup (targetName <$> ts);
  rd_drivers : num_drivers sv <> 0%nat;
  rd_nodes : pose_blender_nodes sv = Ok nodes;
  rd_present : Forall (fun node => is_Some (blenders sc !! node)) nodes
}.

(** What the Driven Bindings record for the pose at [index]. *)
Definition driven_of (sc : scene) (index : nat) (nodes : list string)
  : list (option string * matrix) :=
  foldl (fun acc node =>
           match blenders sc !! node with
           | Some b => dict_set (drivenTransform b)
                                (default identity_matrix (blender_poses b !! index)) acc
           | None => acc
           end) [] nodes.

(** What [pose()] returns for the target [t] at [index]. *)
Definition pose_data_of (sc : scene) (nodes : list string) (index : nat) (t : target)
  : pose_data :=
  {| pd_drivers := values_of (targetValues t);
     pd_controllers := values_of (targetControllers t);
     pd_driven := driven_of sc index nodes;
     pd_function_type := targetFunctionType t;
     pd_scale_factor := targetScaleFactor t;
     pd_distance_method := targetDistanceMethod t;
     pd_target_enable := targetEnable t |}.

Definition pose_entries (sc : scene) (nodes : list string) (from : nat) (ts : list target)
  : list (string * pose_data) :=
  imap (fun i t => (targetName t, pose_data_of sc nodes (from + i) t)) ts.

(** A pose as [add_pose] stores it again: name, driver and controller
    matrices and the enabled flag are those of [t]; the per-pose function
    type, scale factor and distance method, which [add_pose] never writes,
    are back at their defaults. *)
Definition rebuilt (t : target) : target :=
  {| targetName := targetName t;
     targetValues := targetValues t;
     targetControllers := targetControllers t;
     targetEnable := targetEnable t;
     targetFunctionType := targetFunctionType default_target;
     targetScaleFactor := targetScaleFactor default_target;
     targetDistanceMethod := targetDistanceMethod default_target |}.

(** A Driven Binding without its recorded matrix at [index]. *)
Definition drop_pose (index : nat) (b : blender) : blender :=
  UEPoseBlenderNode.with_poses
    (fun m => map_seq 0 (delete index (values_of m))) b.

(** The scene with other solver and pose blender nodes. *)
Definition with_nodes (S : gmap string solver) (B : gmap string blender)
           (sc : scene) : scene :=
  {| transforms := transforms sc; solvers := S; blenders := B;
     selection := selection sc |}.

(** The scene while [delete_pose] adds the poses again: the solver [self]
    holds the targets [done] and the pose blender nodes are [B]. *)
Definition rebuilding (self : string) (sv : solver) (done : list target)
           (B : gmap string blender) (sc : scene) : scene :=
  with_nodes (<[self := with_targets (fun _ => map_seq 0 done) sv]> (solvers sc)) B sc.

(** The index before the deletion at [k] of what is at [j] after it. *)
Definition index_before (k j : nat) : nat := if decide (j < k) then j else S j.

(** The scene after [delete_pose] removed the pose at [index] from the
    solver [self] with Driven Bindings [nodes]. *)
Definition without_pose (self : string) (index : nat) (nodes : list string)
           (sc : scene) : scene :=
  {| transforms := transforms sc;
     solvers := alter (with_targets
                         (fun tg => map_seq 0 (rebuilt <$> delete index (values_of tg))))
                      self (solvers sc);
     blenders := foldl (fun bs node => alter (drop_pose index) node bs)
                       (blenders sc) nodes;
     selection := selection sc |}.

End Invariants.

(* ================================================================== *)
(** * Outcomes of the writing calls *)
(* ================================================================== *)

Module Outcomes.
Import Scene Host RBFNode Invariants.

(** The target that [add_pose] leaves at a fresh index: what it writes,
    and the defaults of an untouched element elsewhere. *)
Definition new_target (name : string) (ms cms : list matrix) (enable : bool) : target :=
  {| targetName := name;
     targetValues := map_seq 0 ms;
     targetControllers := map_seq 0 cms;
     targetEnable := enable;
     targetFunctionType := targetFunctionType default_target;
     targetScaleFactor := targetScaleFactor default_target;
     targetDistanceMethod := targetDistanceMethod default_target |}.

(** A pose blender node after it recorded, at index [j], the current
    local matrix of its driven transform. *)
Definition snapshot (T : gmap string matrix) (j : nat) (b : blender) : blender :=
  match d ← drivenTransform b; T !! d with
  | Some cur => UEPoseBlenderNode.with_poses (insert j cur) b
  | None => b
  end.

(** The scene after [add_pose] stored a pose from the given matrices on
    the solver [self] with poses [ts] and Driven Bindings [nodes]. *)
Definition with_pose (self : string) (sv : solver) (ts : list target) (nodes : list string)
           (t : target) (sc : scene) : scene :=
  with_nodes (<[self := with_targets (fun _ => map_seq 0 (ts ++ [t])) sv]> (solvers sc))
             (foldl (fun bs node => alter (snapshot (transforms sc) (length ts)) node bs)
                    (blenders sc) nodes)
             sc.

(** The scene after [update_pose] stored the target [t'] at index [k] of
    the solver [self] with poses [ts] and Driven Bindings [nodes]. *)
Definition with_updated_pose (self : string) (sv : solver) (ts : list target)
           (nodes : list string) (k : nat) (t' : target) (sc : scene) : scene :=
  with_nodes (<[self := with_targets (fun _ => map_seq 0 (<[k := t']> ts)) sv]> (solvers sc))
             (foldl (fun bs node => alter (snapshot (transforms sc) k) node bs)
                    (blenders sc) nodes)
             sc.

(** The scene with other transform matrices. *)
Definition with_transforms (T : gmap string matrix) (sc : scene) : scene :=
  {| transforms := T; solvers := solvers sc; blenders := blenders sc;
     selection := selection sc |}.

(** The transforms after each named one was set to its matrix, in order. *)
Definition moved (pairs : list (string * matrix)) (T : gmap string matrix)
  : gmap string matrix :=
  foldl (fun T p => <[fst p := snd p]> T) T pairs.

(** The scene once the pose at [i] of the solver [self], with poses [ts],
    has its enabled flag at [enabled]. *)
Definition with_enabled (self : string) (sv : solver) (ts : list target) (i : nat)
           (enabled : bool) (sc : scene) : scene :=
  set_solver self
    (with_targets (fun _ => map_seq 0 (alter (set_targetEnable enabled) i ts)) sv) sc.



End Outcomes.

(* ================================================================== *)
(** * v2/model/api.py : pose names by index *)
(* ================================================================== *)

Module PoseNames.
Import Scene Host RBFNode.

(** [pose_name(pose_index)], for an index that is not negative.  The name
    of an element that was never named reads as the empty string, which
    the callers treat like [None]. *)
Definition pose_name (sv : solver) (pose_index : nat) : option string :=
  let poses_indices := multiIndices (targets sv) in
  if bool_decide (poses_indices <> []) && bool_decide (pose_index ∈ poses_indices) then
    Some (targetName (target_at sv pose_index))
  else None.

Section Messages.
(** The texts of the two RuntimeErrors of [rename_pose]:
    'Pose Index "{}" not found' and 'Pose "{}" already exists'. *)
Variable Pose_Index_not_found : nat -> message.
Variable Pose_already_exists : string -> message.

(** [rename_pose(pose_index, pose_name)] *)
Definition rename_pose (self : string) (pose_index : nat) (pose_name : string) : M string :=
  sv <~ query (the_solver self) ;;
  let poses_indices := multiIndices (targets sv) in
  (if bool_decide (poses_indices <> []) then
     if negb (bool_decide (pose_index ∈ poses_indices)) then
       raise (RuntimeError (Pose_Index_not_found pose_index))
     else
       exists_ <~ query (fun sc => has_pose sc sv pose_name) ;;
       if exists_ then raise (RuntimeError (Pose_already_exists pose_name))
       else update_solver self
              (with_targets (write_target pose_index (set_targetName pose_name)))
   else ret tt) ;;;
  ret pose_name.
End Messages.

End PoseNames.

(* ================================================================== *)
(** * RBFNode._get_mirrored_transforms *)
(* ================================================================== *)

Module MirrorTransforms.
Import Re MirrorMappingM MirrorName Scene Host.

Definition transform_expression (m : MirrorMapping) := md_transform_expression (data m).
Definition source_transform_syntax (m : MirrorMapping) : string :=
  transform_syntax (side_data (data m) (source_side m)).
Definition target_transform_syntax (m : MirrorMapping) : string :=
  transform_syntax (side_data (data m) (opposite (source_side m))).

(** The body of [for group in match.groups()]: unlike for the solver
    name, the mapping is not touched. *)
Definition mirror_transform_group (mm : MirrorMapping) (group : option string)
           (name : string) : result string :=
  let group' :=
    match group with
    | Some g =>
        if String.eqb g (source_transform_syntax mm) then Some (target_transform_syntax mm)
        else if String.eqb g (target_transform_syntax mm) then
          Some (source_transform_syntax mm)
        else Some g
    | None => None
    end in
  match group' with
  | Some g => Ok (name +:+ g)
  | None => Raise (TypeError str_and_NoneType)
  end.

Fixpoint mirror_transform_groups (mm : MirrorMapping) (groups : list (option string))
         (name : string) : result string :=
  match groups with
  | [] => Ok name
  | g :: rest =>
      name' <- mirror_transform_group mm g name ;; mirror_transform_groups mm rest name'
  end.

Section Messages.
(** The texts of the two InvalidMirrorMapping errors: "Unable to mirror
    transform '{transform}'. The naming conventions do not match ..." and
    "Unable to mirror transform '{transform}'. Target transform does not
    exist: '{target}'". *)
Variable Unable_to_mirror_transform : string -> message.
Variable Target_transform_does_not_exist : string -> string -> message.

(** The body of [for transform in transforms]; [cmds.ls(name)] is empty
    exactly when nothing in the scene has the name. *)
Definition mirrored_transform (mm : MirrorMapping) (ignore_invalid_nodes : bool)
           (sc : scene) (transform : string) : result string :=
  match re_match (transform_expression mm) (md_transform_groups (data mm)) transform with
  | None => Raise (InvalidMirrorMapping (Unable_to_mirror_transform transform))
  | Some groups =>
      target_transform_name <- mirror_transform_groups mm groups "" ;;
      if negb (objExists target_transform_name sc) && negb ignore_invalid_nodes then
        Raise (InvalidMirrorMapping
                 (Target_transform_does_not_exist transform target_transform_name))
      else Ok target_transform_name
  end.

(** [_get_mirrored_transforms(transforms, mirror_mapping,
    ignore_invalid_nodes)] *)
Definition _get_mirrored_transforms (transforms : list string) (mm : MirrorMapping)
           (ignore_invalid_nodes : bool) (sc : scene) : result (list string) :=
  RBFNode.result_mapM (mirrored_transform mm ignore_invalid_nodes sc) transforms.
End Messages.

(** A transform name of the MetaHuman convention, by its parts. *)
Definition sided_name (p : string * side * string) : string :=
  let '(prefix, sd, suffix) := p in prefix +:+ side_token sd +:+ suffix.

Definition other_side (p : string * side * string) : string * side * string :=
  let '(prefix, sd, suffix) := p in (prefix, opposite sd, suffix).

End MirrorTransforms.
(* ================================================================== *)
(** * Properties of name mirroring *)
(* ================================================================== *)

Module MirrorNameFacts.
Import Re MirrorMappingM MirrorName.

Lemma append_assoc (a b c : string) : (a +:+ b) +:+ c = a +:+ (b +:+ c).
Proof. induction a as [|x a IH]; [reflexivity | exact (f_equal (String x) IH)]. Qed.

Lemma append_empty_r (a : string) : a +:+ "" = a.
Proof. induction a as [|x a IH]; [reflexivity | exact (f_equal (String x) IH)]. Qed.

Lemma length_append (a b : string) :
  String.length (a +:+ b) = (String.length a + String.length b)%nat.
Proof.
  induction a as [|x a IH]; [reflexivity | exact (f_equal S IH)].
Qed.

Lemma substring_all (a b : string) :
  substring 0 (String.length a) (a +:+ b) = a.
Proof.
  induction a as [|x a IH]; [now destruct b | exact (f_equal (String x) IH)].
Qed.

(** The text a group consumed, read back from the two subject suffixes. *)
Lemma consumed_prefix (a b : string) :
  substring 0 (String.length (a +:+ b) - String.length b) (a +:+ b) = a.
Proof.
  rewrite length_append.
  replace (String.length a + String.length b - String.length b)%nat
    with (String.length a) by lia.
  apply substring_all.
Qed.

(** Greedy [p+] on a maximal run of [p]: when the continuation accepts
    what follows the run, no character is given back. *)
Lemma plus_class_run {X} (p : ascii -> bool) (k : @cont X) w rest caps x :
  starts_with_class p w = true ->
  all_class p w = true ->
  starts_with_class p rest = false ->
  k rest caps = Some x ->
  plus_class p k (w +:+ rest) caps = Some x.
Proof.
  intros Hne Hall Hrest Hk.
  induction w as [|c w IH]; cbn [append plus_class] in *; [discriminate|].
  cbn [all_class] in Hall. apply andb_prop in Hall as [Hc Hw]. rewrite Hc.
  destruct w as [|c' w'].
  - cbn [append]. destruct rest as [|r rest']; cbn [plus_class] in *.
    + exact Hk.
    + cbn [starts_with_class] in Hrest. rewrite Hrest. exact Hk.
  - rewrite IH; [reflexivity| |exact Hw].
    cbn [all_class] in Hw. apply andb_prop in Hw as [Hc' _]. exact Hc'.
Qed.

(** A word is neither of the side tokens. *)
Lemma word_not_token (w : string) (a : ascii) (t : string) :
  is_word w = true -> alnum a = false -> String.eqb w (String a t) = false.
Proof.
  unfold is_word. destruct w as [|c w]; simpl; [discriminate|].
  intros H Ha. apply andb_prop in H as [Hc _].
  destruct (Ascii.eqb c a) eqn:E; [|reflexivity].
  apply Ascii.eqb_eq in E. subst. congruence.
Qed.

(** The MetaHuman expression on [prefix ++ _s_ ++ suffix], [s] being [l] or
    [r]: all three groups take part. *)
Lemma metahuman_match (prefix suffix : string) (s : ascii) :
  is_word prefix = true -> is_word suffix = true ->
  one_of ["l"; "r"]%char s = true ->
  let tok := String "_" (String s (String "_" EmptyString)) in
  re_match metahuman_expression 3 (prefix +:+ tok +:+ suffix)
  = Some [Some prefix; Some tok; Some suffix].
Proof.
  intros Hp Hs Hside tok.
  unfold is_word in Hp, Hs.
  apply andb_prop in Hp as [Hp1 Hp2]. apply andb_prop in Hs as [Hs1 Hs2].
  unfold re_match, metahuman_expression.
  cbn [run]. 
  erewrite plus_class_run; [reflexivity|exact Hp1|exact Hp2|reflexivity|].
  rewrite consumed_prefix.
  cbn [append tok rep run lit]. cbn [Ascii.eqb Bool.eqb].
  rewrite Hside.
  replace (String.length (String "_" (String s (String "_" suffix))) - String.length suffix)%nat
    with 3%nat by (simpl; lia).
  cbn [substring].
  rewrite <- (append_empty_r suffix) at 1.
  erewrite plus_class_run; [reflexivity|exact Hs1|exact Hs2|reflexivity|].
  replace (String.length suffix - String.length "")%nat with (String.length suffix)
    by (simpl; lia).
  rewrite <- (append_empty_r suffix) at 2. rewrite substring_all.
  replace (substring 0 0 suffix) with "" by (now destruct suffix).
  reflexivity.
Qed.

Lemma swap_token_swap_sides (mm : MirrorMapping) (g : string) :
  swap_token (swap_sides mm) g = swap_token mm g.
Proof.
  unfold swap_token, source_solver_syntax, target_solver_syntax, swap_sides.
  destruct mm as [d sd]; destruct sd; cbn;
    destruct (String.eqb g (solver_syntax (md_left d))) eqn:El;
    destruct (String.eqb g (solver_syntax (md_right d))) eqn:Er;
    try reflexivity;
    apply String.eqb_eq in El; apply String.eqb_eq in Er; congruence.
Qed.

(** One group that took part: its token is swapped and appended; the
    mapping is left as it was or has its sides swapped. *)
Lemma mirror_group_some (g name : string) (mm : MirrorMapping) :
  exists mm', mirror_group (Some g) (name, mm) = Ok (name +:+ swap_token mm g, mm')
              /\ (mm' = mm \/ mm' = swap_sides mm).
Proof.
  unfold mirror_group, swap_token.
  destruct (String.eqb g (source_solver_syntax mm)).
  - exists mm. split; [reflexivity | now left].
  - destruct (String.eqb g (target_solver_syntax mm)).
    + exists (swap_sides mm). split; [reflexivity | now right].
    + exists mm. split; [reflexivity | now left].
Qed.

Lemma mirror_groups_name (groups : list (option string)) :
  forall (name : string) (mm : MirrorMapping),
    name_of (mirror_groups groups (name, mm)) =
    match participating groups with
    | Some gs => Ok (name +:+ join (map (swap_token mm) gs))
    | None => Raise (TypeError str_and_NoneType)
    end.
Proof.
  induction groups as [|g groups IH]; intros name mm.
  - cbn. now rewrite append_empty_r.
  - destruct g as [g|]; [|reflexivity].
    destruct (mirror_group_some g name mm) as (mm' & Hstep & Hmm).
    cbn [mirror_groups]. rewrite Hstep. cbn [bind]. rewrite IH.
    cbn [participating]. destruct (participating groups) as [gs|]; [|reflexivity].
    cbn [map join]. rewrite append_assoc.
    destruct Hmm as [-> | ->]; [reflexivity|].
    now rewrite (map_ext _ _ (swap_token_swap_sides mm)).
Qed.

Lemma metahuman_source_syntax (src : side) :
  source_solver_syntax (metahuman_from src) = side_token src.
Proof. now destruct src. Qed.

Lemma metahuman_target_syntax (src : side) :
  target_solver_syntax (metahuman_from src) = side_token (opposite src).
Proof. now destruct src. Qed.

Lemma mirror_group_word (w name : string) (src : side) :
  is_word w = true ->
  mirror_group (Some w) (name, metahuman_from src)
  = Ok (name +:+ w, metahuman_from src).
Proof.
  intros Hw. unfold mirror_group.
  rewrite metahuman_source_syntax, metahuman_target_syntax.
  assert (H : forall sd, String.eqb w (side_token sd) = false)
    by (intros [|]; now apply word_not_token).
  now rewrite !H.
Qed.

Lemma mirror_group_token (t src : side) (name : string) :
  mirror_group (Some (side_token t)) (name, metahuman_from src)
  = Ok (name +:+ side_token (opposite t), metahuman_from t).
Proof. destruct t, src; reflexivity. Qed.

(** Mirroring [prefix ++ token ++ suffix] with the MetaHuman mapping in
    either state: the token is exchanged, and the mapping ends with the
    token's side as its source side. *)
Lemma metahuman_mirror (prefix suffix : string) (tok_side src : side) :
  is_word prefix = true -> is_word suffix = true ->
  _get_mirrored_solver_name
    (prefix +:+ side_token tok_side +:+ suffix) (metahuman_from src)
  = Ok (prefix +:+ side_token (opposite tok_side) +:+ suffix,
        metahuman_from tok_side).
Proof.
  intros Hp Hs.
  unfold _get_mirrored_solver_name.
  change (solver_expression (metahuman_from src)) with metahuman_expression.
  change (md_solver_groups (data (metahuman_from src))) with 3%nat.
  assert (Hm : re_match metahuman_expression 3
                 (prefix +:+ side_token tok_side +:+ suffix)
               = Some [Some prefix; Some (side_token tok_side); Some suffix]).
  { destruct tok_side; apply metahuman_match; auto. }
  rewrite Hm. cbn [mirror_groups].
  rewrite (mirror_group_word prefix "" src Hp). cbn [bind].
  rewrite mirror_group_token. cbn [bind].
  rewrite (mirror_group_word suffix _ tok_side Hs). cbn [bind].
  now rewrite append_assoc.
Qed.

(** C2 (mirror-name involution).  With the MetaHuman mapping, a solver name
    [prefix_l_suffix] is mirrored to [prefix_r_suffix] (the mapping keeps its
    side), the same mapping object mirrors [prefix_r_suffix] back to
    [prefix_l_suffix] (swapping its active side on the way), and mirroring
    twice with the one mapping object returns the name it started from, for
    either starting name.  [arm_l_UERBFSolver] is the instance
    [prefix = arm], [suffix = UERBFSolver]. *)
Theorem mirrored_solver_name_involution (prefix suffix : string) :
  is_word prefix = true -> is_word suffix = true ->
  let l_name := prefix +:+ "_l_" +:+ suffix in
  let r_name := prefix +:+ "_r_" +:+ suffix in
  _get_mirrored_solver_name l_name metahuman = Ok (r_name, metahuman)
  /\ _get_mirrored_solver_name r_name metahuman = Ok (l_name, swap_sides metahuman)
  /\ (r <- _get_mirrored_solver_name l_name metahuman ;;
      _get_mirrored_solver_name (fst r) (snd r)) = Ok (l_name, swap_sides metahuman)
  /\ (r <- _get_mirrored_solver_name r_name metahuman ;;
      _get_mirrored_solver_name (fst r) (snd r)) = Ok (r_name, metahuman).
Proof.
  intros Hp Hs l_name r_name.
  pose proof (metahuman_mirror prefix suffix LEFT LEFT Hp Hs) as HLL.
  pose proof (metahuman_mirror prefix suffix RIGHT LEFT Hp Hs) as HRL.
  pose proof (metahuman_mirror prefix suffix LEFT RIGHT Hp Hs) as HLR.
  cbn [side_token opposite] in HLL, HRL, HLR.
  change (metahuman_from LEFT) with metahuman in *.
  change (metahuman_from RIGHT) with (swap_sides metahuman) in *.
  subst l_name r_name.
  repeat split.
  - exact HLL.
  - exact HRL.
  - rewrite HLL. cbn [bind fst snd]. exact HRL.
  - rewrite HRL. cbn [bind fst snd]. exact HLR.
Qed.

(** The claim's own names. *)
Lemma mirrored_solver_name_involution_witness :
  _get_mirrored_solver_name "arm_l_UERBFSolver" metahuman
    = Ok ("arm_r_UERBFSolver", metahuman)
  /\ _get_mirrored_solver_name "arm_r_UERBFSolver" metahuman
    = Ok ("arm_l_UERBFSolver", swap_sides metahuman)
  /\ (r <- _get_mirrored_solver_name "arm_l_UERBFSolver" metahuman ;;
      _get_mirrored_solver_name (fst r) (snd r))
    = Ok ("arm_l_UERBFSolver", swap_sides metahuman)
  /\ (r <- _get_mirrored_solver_name "arm_r_UERBFSolver" metahuman ;;
      _get_mirrored_solver_name (fst r) (snd r))
    = Ok ("arm_r_UERBFSolver", metahuman).
Proof.
  exact (mirrored_solver_name_involution "arm" "UERBFSolver" eq_refl eq_refl).
Defined.

(** C10 (the mirrored name is the concatenation of the groups).  Whenever
    the solver name matches the mapping's expression, the derived name is
    the concatenation of all captured groups, each side token exchanged for
    the other, provided every group took part in the match; if some group
    did not (it reads None), the derivation raises the TypeError of
    [str += None], and not InvalidMirrorMapping. *)
Theorem mirrored_solver_name_of_groups
        (solver : string) (mm : MirrorMapping) (groups : list (option string)) :
  re_match (solver_expression mm) (md_solver_groups (data mm)) solver = Some groups ->
  name_of (_get_mirrored_solver_name solver mm) =
  match participating groups with
  | Some gs => Ok (join (map (swap_token mm) gs))
  | None => Raise (TypeError str_and_NoneType)
  end.
Proof.
  intros Hm. unfold _get_mirrored_solver_name. rewrite Hm.
  apply (mirror_groups_name groups "" mm).
Qed.

(** A name that begins with the side token: the optional [prefix] group
    takes no part, and the derivation ends in the TypeError. *)
Lemma mirrored_solver_name_of_groups_witness :
  re_match (solver_expression metahuman) (md_solver_groups (data metahuman))
           "_l_UERBFSolver"
  = Some [None; Some "_l_"; Some "UERBFSolver"]
  /\ name_of (_get_mirrored_solver_name "_l_UERBFSolver" metahuman)
     = Raise (TypeError str_and_NoneType).
Proof.
  split; [reflexivity|].
  exact (mirrored_solver_name_of_groups "_l_UERBFSolver" metahuman
           [None; Some "_l_"; Some "UERBFSolver"] eq_refl).
Defined.

End MirrorNameFacts.


(* ================================================================== *)
(** * Properties of the rotation mirroring *)
(* ================================================================== *)

Module MirrorMathFacts.
Import MirrorMath.
Local Open Scope R_scope.

Ltac unfold_entries :=
  cbv [mmul inverse build entry cofactor minor sign others det4x4 kIdentity
       a00 a01 a02 a03 a10 a11 a12 a13 a20 a21 a22 a23 a30 a31 a32 a33] in *.

Lemma mmul_1_l (m : MMatrix) : mmul kIdentity m = m.
Proof. destruct m. unfold_entries. f_equal; ring. Qed.

Lemma mmul_1_r (m : MMatrix) : mmul m kIdentity = m.
Proof. destruct m. unfold_entries. f_equal; ring. Qed.

Lemma inverse_l (m : MMatrix) : det4x4 m <> 0 -> mmul (inverse m) m = kIdentity.
Proof.
  intros H. destruct m. unfold_entries.
  f_equal; field; intro Hc; apply H; (etransitivity; [|exact Hc]); ring.
Qed.

Lemma inverse_r (m : MMatrix) : det4x4 m <> 0 -> mmul m (inverse m) = kIdentity.
Proof.
  intros H. destruct m. unfold_entries.
  f_equal; field; intro Hc; apply H; (etransitivity; [|exact Hc]); ring.
Qed.

Lemma inverse_identity : inverse kIdentity = kIdentity.
Proof. unfold_entries. f_equal; field. Qed.

Lemma inverse_half_turn_z : inverse half_turn_z = half_turn_z.
Proof. unfold half_turn_z. unfold_entries. f_equal; field. Qed.

Lemma radians_0 : radians 0 = 0.
Proof. unfold radians. ring. Qed.

Lemma degrees_0 : degrees 0 = 0.
Proof. unfold degrees. field. apply PI_neq0. Qed.

Lemma radians_180 : radians 180 = PI.
Proof. unfold radians. field. Qed.

Lemma degrees_inj (x y : R) : degrees x = degrees y -> x = y.
Proof.
  unfold degrees. intros H.
  apply (Rmult_eq_reg_r (180 / PI)); [exact H|].
  pose proof PI_RGT_0. apply Rgt_not_eq. apply Rdiv_lt_0_compat; lra.
Qed.

Lemma vmap_degrees_inj (u v : vec3) : vmap degrees u = vmap degrees v -> u = v.
Proof.
  destruct u as [[ux uy] uz], v as [[vx vy] vz]. cbn. intros H.
  injection H as Hx Hy Hz.
  apply degrees_inj in Hx, Hy, Hz. congruence.
Qed.

Lemma euler_zero : euler_as_matrix (0, 0, 0) = kIdentity.
Proof.
  unfold euler_as_matrix, rotX, rotY, rotZ. rewrite sin_0, cos_0.
  unfold_entries. f_equal; ring.
Qed.

Lemma euler_half_turn_x : euler_as_matrix (PI, 0, 0) = half_turn_x.
Proof.
  unfold euler_as_matrix, rotX, rotY, rotZ, half_turn_x.
  rewrite sin_0, cos_0, sin_PI, cos_PI. unfold_entries. f_equal; ring.
Qed.

Lemma euler_half_turn_y : euler_as_matrix (0, PI, 0) = half_turn_y.
Proof.
  unfold euler_as_matrix, rotX, rotY, rotZ, half_turn_y.
  rewrite sin_0, cos_0, sin_PI, cos_PI. unfold_entries. f_equal; ring.
Qed.

Lemma quat_identity : quat_as_matrix (Quat 0 0 0 1) = kIdentity.
Proof. unfold quat_as_matrix, kIdentity. cbn. f_equal; ring. Qed.

Lemma quat_half_turn_x : quat_as_matrix (Quat 1 0 0 0) = half_turn_x.
Proof. unfold quat_as_matrix, half_turn_x. cbn. f_equal; ring. Qed.

Lemma quat_half_turn_y : quat_as_matrix (Quat 0 1 0 0) = half_turn_y.
Proof. unfold quat_as_matrix, half_turn_y. cbn. f_equal; ring. Qed.

(** Negating X and W of a quaternion reflects its matrix in the plane
    whose normal is the X axis. *)
Lemma negate_x_w_reflects (q : MQuaternion) :
  quat_as_matrix (negate_x_w q) = mirror_x (quat_as_matrix q).
Proof.
  destruct q as [x y z w]. unfold quat_as_matrix, negate_x_w, mirror_x. cbn.
  f_equal; ring.
Qed.

Lemma mirror_x_identity : mirror_x kIdentity = kIdentity.
Proof. unfold mirror_x, kIdentity. cbn. f_equal; ring. Qed.

Lemma mirror_x_half_turn_x : mirror_x half_turn_x = half_turn_x.
Proof. unfold mirror_x, half_turn_x. cbn. f_equal; ring. Qed.

Lemma mirror_x_half_turn_y : mirror_x half_turn_y = half_turn_y.
Proof. unfold mirror_x, half_turn_y. cbn. f_equal; ring. Qed.

Lemma half_turn_x_z : mmul half_turn_x half_turn_z = half_turn_y.
Proof. unfold half_turn_x, half_turn_y, half_turn_z. unfold_entries. f_equal; ring. Qed.

Lemma half_turn_z_y : mmul half_turn_z half_turn_y = half_turn_x.
Proof. unfold half_turn_x, half_turn_y, half_turn_z. unfold_entries. f_equal; ring. Qed.

Lemma half_turn_x_not_y : half_turn_x <> half_turn_y.
Proof. unfold half_turn_x, half_turn_y. intros H. injection H. intros. lra. Qed.

(** The host of [MirrorMath] keeps the contract. *)
Lemma host0_contract : host_contract rotation_quat0 rotation_euler0.
Proof.
  split.
  - intros q _. unfold rotation_quat0.
    apply (epsilon_spec (inhabits (Quat 0 0 0 1))
             (fun q' => quat_as_matrix q' = quat_as_matrix q)).
    now exists q.
  - intros e. unfold rotation_euler0.
    refine (proj1 (epsilon_spec (inhabits (0, 0, 0))
             (fun e' => euler_as_matrix e' = euler_as_matrix e
                        /\ (euler_as_matrix e = kIdentity -> e' = (0, 0, 0))) _)).
    destruct (classic (euler_as_matrix e = kIdentity)) as [Hid|Hid].
    + exists (0, 0, 0). split; [now rewrite euler_zero | reflexivity].
    + exists e. split; [reflexivity | tauto].
  - unfold rotation_euler0.
    refine (proj2 (epsilon_spec (inhabits (0, 0, 0))
             (fun e' => euler_as_matrix e' = kIdentity
                        /\ (kIdentity = kIdentity -> e' = (0, 0, 0))) _) eq_refl).
    exists (0, 0, 0). split; [apply euler_zero | reflexivity].
Qed.

Lemma det_scaled_parent : det4x4 scaled_parent <> 0.
Proof. unfold scaled_parent. unfold_entries. lra. Qed.

Lemma det_half_turn_z : det4x4 half_turn_z <> 0.
Proof. unfold half_turn_z. unfold_entries. lra. Qed.

Section Host.
Variable rotation_quat : MMatrix -> MQuaternion.
Variable rotation_euler : MMatrix -> vec3.
Hypothesis contract : host_contract rotation_quat rotation_euler.

(** On a rotation, reading the quaternion, negating X and W and going back
    to a matrix is the reflection [mirror_x]. *)
Lemma negated_rotation (q : MQuaternion) :
  unit_quaternion q ->
  quat_as_matrix (negate_x_w (rotation_quat (quat_as_matrix q)))
  = mirror_x (quat_as_matrix q).
Proof.
  intros Hq. rewrite negate_x_w_reflects.
  now rewrite (rotation_quat_sound _ _ contract q Hq).
Qed.

(** The code and the specification's steps on a half turn about X under a
    parent turned half about Z: the code answers the rotation [half_turn_x],
    the specification's steps [half_turn_y]. *)
Lemma code_on_half_turn :
  euler_as_matrix
    (rotation_euler
       (mmul (mmul kIdentity
                (quat_as_matrix
                   (negate_x_w
                      (rotation_quat
                         (mmul (inverse half_turn_z)
                               (mmul (euler_as_matrix (vmap radians (180, 0, 0)))
                                     half_turn_z))))))
             (inverse kIdentity)))
  = half_turn_x.
Proof.
  cbn [vmap]. rewrite radians_180, radians_0, euler_half_turn_x.
  rewrite half_turn_x_z, inverse_half_turn_z, half_turn_z_y.
  rewrite <- quat_half_turn_x at 1.
  rewrite negated_rotation by (unfold unit_quaternion; cbn; ring).
  rewrite quat_half_turn_x, mirror_x_half_turn_x.
  rewrite inverse_identity, mmul_1_l, mmul_1_r.
  rewrite <- euler_half_turn_x.
  apply (rotation_euler_sound _ _ contract).
Qed.

Lemma spec_on_half_turn :
  euler_as_matrix
    (rotation_euler
       (mmul (quat_as_matrix
                (negate_x_w
                   (rotation_quat
                      (mmul (euler_as_matrix (vmap radians (180, 0, 0)))
                            half_turn_z))))
             (inverse kIdentity)))
  = half_turn_y.
Proof.
  cbn [vmap]. rewrite radians_180, radians_0, euler_half_turn_x.
  rewrite half_turn_x_z.
  rewrite <- quat_half_turn_y at 1.
  rewrite negated_rotation by (unfold unit_quaternion; cbn; ring).
  rewrite quat_half_turn_y, mirror_x_half_turn_y.
  rewrite inverse_identity, mmul_1_r.
  rewrite <- euler_half_turn_y.
  apply (rotation_euler_sound _ _ contract).
Qed.

Lemma code_and_spec_disagree :
  mirror_rotation rotation_quat rotation_euler half_turn_z kIdentity (180, 0, 0)
  <> mirror_rotation_spec rotation_quat rotation_euler half_turn_z kIdentity (180, 0, 0).
Proof.
  unfold mirror_rotation, mirror_rotation_spec. intros H.
  apply vmap_degrees_inj in H.
  apply (f_equal euler_as_matrix) in H.
  rewrite code_on_half_turn, spec_on_half_turn in H.
  exact (half_turn_x_not_y H).
Qed.

End Host.

(** C8 (mirror rotation identity).  For invertible source and target parent
    matrices, and a host whose matrix decomposition keeps its contract, the
    rotation mirroring of the local Euler rotation (0, 0, 0) is (0, 0, 0). *)
Theorem mirror_rotation_of_zero
        (rotation_quat : MMatrix -> MQuaternion) (rotation_euler : MMatrix -> vec3)
        (source_parent_matrix target_parent_matrix : MMatrix) :
  host_contract rotation_quat rotation_euler ->
  det4x4 source_parent_matrix <> 0 ->
  det4x4 target_parent_matrix <> 0 ->
  mirror_rotation rotation_quat rotation_euler
                  source_parent_matrix target_parent_matrix (0, 0, 0)
  = (0, 0, 0).
Proof.
  intros contract Hs Ht. unfold mirror_rotation. cbn [vmap].
  rewrite radians_0, euler_zero, mmul_1_l, (inverse_l _ Hs).
  rewrite <- quat_identity at 1.
  rewrite (negated_rotation _ _ contract)
    by (unfold unit_quaternion; cbn; ring).
  rewrite quat_identity, mirror_x_identity, mmul_1_r, (inverse_r _ Ht).
  rewrite (rotation_euler_identity _ _ contract). cbn [vmap].
  now rewrite degrees_0.
Qed.

Lemma mirror_rotation_of_zero_witness :
  host_contract rotation_quat0 rotation_euler0
  /\ det4x4 half_turn_z <> 0
  /\ det4x4 scaled_parent <> 0
  /\ mirror_rotation rotation_quat0 rotation_euler0 half_turn_z scaled_parent (0, 0, 0)
     = (0, 0, 0).
Proof.
  split; [exact host0_contract|].
  split; [exact det_half_turn_z|].
  split; [exact det_scaled_parent|].
  exact (mirror_rotation_of_zero rotation_quat0 rotation_euler0
           half_turn_z scaled_parent
           host0_contract det_half_turn_z det_scaled_parent).
Defined.

(** C3, as the specification words it, fails: a local rotation of 180
    degrees about X under a source parent turned half about Z (and no target
    parent).  Some host keeps the contract, and on every such host the code
    and the specification's steps give different rotations. *)
Lemma mirror_rotation_spec_counterexample :
  host_contract rotation_quat0 rotation_euler0
  /\ forall rotation_quat rotation_euler,
       host_contract rotation_quat rotation_euler ->
       mirror_rotation rotation_quat rotation_euler half_turn_z kIdentity (180, 0, 0)
       <> mirror_rotation_spec rotation_quat rotation_euler half_turn_z kIdentity (180, 0, 0).
Proof.
  split; [exact host0_contract|].
  intros rq re Hc. exact (code_and_spec_disagree rq re Hc).
Qed.

(** C3, amended.  For every source and target parent matrix and local Euler
    rotation in degrees, the mirrored rotation is computed thus: the Euler
    angles are converted to a rotation matrix, which is composed into world
    space by the source parent matrix and taken back by the source parent's
    inverse (the rotation conjugated by the source parent); that matrix is
    converted to a quaternion, whose X and W components are negated; the
    matrix is reconstituted, conjugated by the target parent matrix, and
    converted back to Euler degrees. *)
Theorem mirror_rotation_steps
        (rotation_quat : MMatrix -> MQuaternion) (rotation_euler : MMatrix -> vec3)
        (source_parent_matrix target_parent_matrix : MMatrix) (rotate : vec3) :
  mirror_rotation rotation_quat rotation_euler
                  source_parent_matrix target_parent_matrix rotate
  = mirror_rotation_amended rotation_quat rotation_euler
                            source_parent_matrix target_parent_matrix rotate.
Proof. reflexivity. Qed.

End MirrorMathFacts.

(* ================================================================== *)
(** * Multi attributes that are dense *)
(* ================================================================== *)

Module SparseFacts.
Import Scene Host.
Local Open Scope list_scope.

Section Dense.
Context {A : Type}.
Implicit Types (xs : list A) (m : gmap nat A).

Lemma Sorted_seq (j n : nat) : Sorted le (seq j n).
Proof.
  revert j. induction n as [|n IH]; intros j; cbn; constructor; [apply IH|].
  destruct n; cbn; constructor. lia.
Qed.

Lemma multiIndices_dense xs : multiIndices (map_seq 0 xs : gmap nat A) = seq 0 (length xs).
Proof.
  unfold multiIndices.
  apply (Sorted_unique le).
  - apply (Sorted_merge_sort le).
  - apply Sorted_seq.
  - rewrite merge_sort_Permutation.
    rewrite dom_seq_L.
    apply NoDup_Permutation.
    + apply NoDup_elements.
    + apply NoDup_seq.
    + intros i. rewrite elem_of_elements, elem_of_set_seq, elem_of_seq. lia.
Qed.

Lemma lookup_dense xs i : (map_seq 0 xs : gmap nat A) !! i = xs !! i.
Proof. apply lookup_map_seq_0. Qed.

Lemma omap_lookup_seq (f : nat -> option A) xs (j : nat) :
  (forall i, f (j + i) = xs !! i) ->
  omap f (seq j (length xs)) = xs.
Proof.
  revert j. induction xs as [|x xs IH]; intros j Hf; [reflexivity|].
  cbn [length seq]. csimpl.
  pose proof (Hf 0) as H0. rewrite Nat.add_0_r in H0. cbn in H0. rewrite H0.
  f_equal. apply IH. intros i.
  replace (S j + i) with (j + S i) by lia. apply (Hf (S i)).
Qed.

Lemma values_of_dense xs : values_of (map_seq 0 xs : gmap nat A) = xs.
Proof.
  unfold values_of. rewrite multiIndices_dense.
  apply omap_lookup_seq. intros i. apply lookup_dense.
Qed.

Lemma dense_snoc xs x :
  <[length xs := x]> (map_seq 0 xs : gmap nat A) = map_seq 0 (xs ++ [x]).
Proof. now rewrite map_seq_snoc. Qed.

Lemma size_dense xs : size (map_seq 0 xs : gmap nat A) = length xs.
Proof.
  induction xs as [|x xs IH] using rev_ind; [apply map_size_empty|].
  rewrite <- dense_snoc, map_size_insert_None, IH, length_app; [cbn; lia|].
  apply lookup_map_seq_None. lia.
Qed.

Lemma remove_range_dense xs :
  remove_range (length xs) (map_seq 0 xs : gmap nat A) = ∅.
Proof.
  unfold remove_range.
  induction xs as [|x xs IH] using rev_ind; [reflexivity|].
  rewrite length_app. cbn [length]. rewrite Nat.add_1_r, seq_S, rev_app_distr.
  cbn [rev app foldl]. rewrite <- dense_snoc, delete_insert_eq.
  rewrite delete_id by (apply lookup_map_seq_None; lia).
  exact IH.
Qed.

Lemma set_all_empty xs : set_all xs (∅ : gmap nat A) = map_seq 0 xs.
Proof. unfold set_all. apply (right_id _ _). Qed.


End Dense.
End SparseFacts.

(* ================================================================== *)
(** * Properties of the pose network model *)
(* ================================================================== *)

Module SceneFacts.
Import Scene Host RBFNode SparseFacts Examples.
Local Open Scope list_scope.
Local Open Scope nat_scope.

(** ** Evaluating calls *)

Lemma bindM_ok {A B} (c : M A) (k : A -> M B) sc a sc' :
  c sc = (Ok a, sc') -> bindM c k sc = k a sc'.
Proof. unfold bindM. now intros ->. Qed.

Lemma bindM_raise {A B} (c : M A) (k : A -> M B) sc e sc' :
  c sc = (Raise e, sc') -> bindM c k sc = (Raise e, sc').
Proof. unfold bindM. now intros ->. Qed.

Lemma bindM_query {A B} (f : scene -> result A) (k : A -> M B) sc :
  bindM (query f) k sc =
  match f sc with Ok a => k a sc | Raise e => (Raise e, sc) end.
Proof. reflexivity. Qed.

Lemma the_solver_ok self sc sv : solvers sc !! self = Some sv -> the_solver self sc = Ok sv.
Proof. unfold the_solver. now intros ->. Qed.

Lemma update_solver_ok self f sc sv :
  solvers sc !! self = Some sv ->
  update_solver self f sc = (Ok tt, set_solver self (f sv) sc).
Proof. unfold update_solver. now intros ->. Qed.

Lemma update_blender_ok node f sc b :
  blenders sc !! node = Some b ->
  update_blender node f sc = (Ok tt, set_blender node (f b) sc).
Proof. unfold update_blender. now intros ->. Qed.

(** C4 (driver lock).  On a solver with more than one pose, [add_driver]
    raises 'Unable to add driver after poses have been added' and
    [UERBFAPI.add_drivers] raises 'Too many poses have been created, unable
    to add a new driver.'; either call leaves the scene as it was, so the
    driver list and the pose count of the solver are unchanged. *)
Theorem add_driver_locked (self : string) (transform_nodes : option (list string))
        (sc : scene) (sv : solver) :
  solvers sc !! self = Some sv ->
  1 < num_poses sv ->
  add_driver self transform_nodes sc
    = (Raise (RuntimeError Unable_to_add_driver_after_poses), sc)
  /\ UERBFAPI.add_drivers transform_nodes self sc
    = (Raise (InvalidPoseIndex Too_many_poses_unable_to_add_driver), sc)
  /\ (forall sc', sc' = snd (add_driver self transform_nodes sc)
                  \/ sc' = snd (UERBFAPI.add_drivers transform_nodes self sc) ->
       exists sv', solvers sc' !! self = Some sv'
                   /\ drivers sv' = drivers sv /\ num_poses sv' = num_poses sv).
Proof.
  intros Hsv Hn.
  assert (Hlt : (1 <? num_poses sv) = true) by (apply Nat.ltb_lt; exact Hn).
  assert (H1 : add_driver self transform_nodes sc
               = (Raise (RuntimeError Unable_to_add_driver_after_poses), sc)).
  { unfold add_driver. destruct transform_nodes as [nodes|].
    - rewrite (bindM_ok _ _ sc nodes sc) by reflexivity.
      rewrite bindM_query, (the_solver_ok _ _ _ Hsv), Hlt. reflexivity.
    - rewrite bindM_query. rewrite bindM_query, (the_solver_ok _ _ _ Hsv), Hlt.
      reflexivity. }
  assert (H2 : UERBFAPI.add_drivers transform_nodes self sc
               = (Raise (InvalidPoseIndex Too_many_poses_unable_to_add_driver), sc)).
  { unfold UERBFAPI.add_drivers.
    rewrite bindM_query, (the_solver_ok _ _ _ Hsv), Hlt. reflexivity. }
  split; [exact H1|]. split; [exact H2|].
  intros sc' [-> | ->]; [rewrite H1 | rewrite H2]; exists sv; auto.
Qed.

Lemma add_driver_locked_witness :
  solvers scenario_A !! "arm_l_UERBFSolver" = Some solver_A
  /\ 1 < num_poses solver_A
  /\ add_driver "arm_l_UERBFSolver" (Some ["J_l_elbow"]) scenario_A
     = (Raise (RuntimeError Unable_to_add_driver_after_poses), scenario_A).
Proof.
  assert (H : solvers scenario_A !! "arm_l_UERBFSolver" = Some solver_A)
    by (vm_compute; reflexivity).
  assert (Hn : 1 < num_poses solver_A) by (vm_compute; lia).
  split; [exact H|]. split; [exact Hn|].
  exact (proj1 (add_driver_locked "arm_l_UERBFSolver" (Some ["J_l_elbow"])
                                  scenario_A solver_A H Hn)).
Defined.

(** C5 (pose arity).  On a solver with at least one driver, for a pose name
    that is not present, [add_pose] with a list of driver matrices whose
    length differs from the number of drivers raises 'Invalid number of
    matrices. Must match number of drivers.' and leaves the scene as it was:
    the pose count is unchanged and no matrix is stored. *)
Theorem add_pose_arity (self pose_name : string)
        (drivers_arg : option (list string)) (matrices : list matrix)
        (controller_matrices : option (list matrix))
        (driven_matrices : option (list (option string * matrix)))
        (target_enable : bool) (sc : scene) (sv : solver) :
  solvers sc !! self = Some sv ->
  1 <= num_drivers sv ->
  has_pose sc sv pose_name = Ok false ->
  length matrices <> num_drivers sv ->
  add_pose self pose_name drivers_arg (Some matrices) controller_matrices
           driven_matrices target_enable sc
    = (Raise (InvalidPose Invalid_number_of_matrices), sc)
  /\ (exists sv', solvers (snd (add_pose self pose_name drivers_arg (Some matrices)
                                         controller_matrices driven_matrices
                                         target_enable sc)) !! self = Some sv'
                  /\ num_poses sv' = num_poses sv /\ targets sv' = targets sv).
Proof.
  intros Hsv Hd Hp Hlen.
  assert (H : add_pose self pose_name drivers_arg (Some matrices) controller_matrices
                       driven_matrices target_enable sc
              = (Raise (InvalidPose Invalid_number_of_matrices), sc)).
  { unfold add_pose.
    replace (truthy drivers_arg && bool_decide (Some matrices = None)) with false
      by (now rewrite bool_decide_eq_false_2, andb_false_r).
    rewrite (bindM_ok _ _ sc (Some matrices) sc) by reflexivity.
    rewrite bindM_query, (the_solver_ok _ _ _ Hsv).
    destruct (num_drivers sv =? 0) eqn:E0; [apply Nat.eqb_eq in E0; lia|].
    rewrite bindM_query, Hp.
    destruct (length matrices =? num_drivers sv) eqn:E; [apply Nat.eqb_eq in E; lia|].
    reflexivity. }
  split; [exact H|]. rewrite H. exists sv. auto.
Qed.

Lemma add_pose_arity_witness :
  solvers scenario_A !! "arm_l_UERBFSolver" = Some solver_A
  /\ 1 <= num_drivers solver_A
  /\ has_pose scenario_A solver_A "lowered" = Ok false
  /\ length [identity_matrix; rotate_z_45] <> num_drivers solver_A
  /\ add_pose "arm_l_UERBFSolver" "lowered" None (Some [identity_matrix; rotate_z_45])
              None None true scenario_A
     = (Raise (InvalidPose Invalid_number_of_matrices), scenario_A).
Proof.
  assert (H : solvers scenario_A !! "arm_l_UERBFSolver" = Some solver_A)
    by (vm_compute; reflexivity).
  assert (Hd : 1 <= num_drivers solver_A) by (vm_compute; lia).
  assert (Hp : has_pose scenario_A solver_A "lowered" = Ok false)
    by (vm_compute; reflexivity).
  assert (Hl : length [identity_matrix; rotate_z_45] <> num_drivers solver_A)
    by (vm_compute; lia).
  repeat (split; [assumption|]).
  exact (proj1 (add_pose_arity "arm_l_UERBFSolver" "lowered" None
                               [identity_matrix; rotate_z_45] None None true
                               scenario_A solver_A H Hd Hp Hl)).
Defined.

(** ** Muting *)

Lemma mute_index_raises (sv : solver) (pose_name : string) (i : Z) (e : exn) :
  mute_index sv pose_name i = Raise e ->
  pose_name = "" /\ (i < 0)%Z /\ e = InvalidPoseIndex Unable_to_query_the_mute_status.
Proof.
  unfold mute_index.
  destruct (i <? 0)%Z eqn:Ei, (String.eqb pose_name "") eqn:En; cbn; try discriminate.
  intros [= <-]. apply String.eqb_eq in En. apply Z.ltb_lt in Ei. auto.
Qed.

Lemma getAttr_targetEnable_not_InvalidPoseIndex (sv : solver) (i : Z) (m : message) :
  getAttr_targetEnable sv i <> Raise (InvalidPoseIndex m).
Proof. unfold getAttr_targetEnable. destruct (i <? 0)%Z; discriminate. Qed.

Lemma is_pose_muted_raises (sv : solver) (pose_name : string) (i : Z) (m : message) :
  is_pose_muted sv pose_name i = Raise (InvalidPoseIndex m) ->
  pose_name = "" /\ (i < 0)%Z.
Proof.
  unfold is_pose_muted.
  destruct (mute_index sv pose_name i) as [index|e] eqn:E; cbn.
  - destruct (getAttr_targetEnable sv index) as [v|e] eqn:E'; cbn; [discriminate|].
    intros [= ->]. now apply getAttr_targetEnable_not_InvalidPoseIndex in E'.
  - intros _. apply mute_index_raises in E. tauto.
Qed.

(** C9, as stated, fails for [mute_pose]: with [mute=None] (toggle) the
    nested [is_pose_muted(pose_index=-1)] has no name and a negative index,
    and raises InvalidPoseIndex. *)
Lemma mute_pose_toggle_counterexample :
  solvers scenario_A !! "arm_l_UERBFSolver" = Some solver_A
  /\ pose_index solver_A "ghost" = (-1)%Z
  /\ mute_pose "arm_l_UERBFSolver" "ghost" (-1) None scenario_A
     = (Raise (InvalidPoseIndex Unable_to_query_the_mute_status), scenario_A).
Proof.
  assert (H : solvers scenario_A !! "arm_l_UERBFSolver" = Some solver_A)
    by (vm_compute; reflexivity).
  assert (Hi : pose_index solver_A "ghost" = (-1)%Z) by (vm_compute; reflexivity).
  split; [exact H|]. split; [exact Hi|].
  unfold mute_pose.
  rewrite bindM_query, (the_solver_ok _ _ _ H).
  rewrite bindM_query. unfold mute_index. cbn [Z.ltb Z.compare String.eqb andb negb].
  rewrite Hi. reflexivity.
Qed.

(** C9, amended.  For a pose name that is not empty and does not exist on
    the solver (and no index given), the name resolves to index -1 and
    [is_pose_muted] reads, [mute_pose] with [mute] True or False writes, the
    attribute targets[-1].targetEnable, neither raising InvalidPoseIndex;
    with [mute=None] [mute_pose] raises InvalidPoseIndex through the nested
    [is_pose_muted(pose_index=-1)].  [is_pose_muted] raises InvalidPoseIndex
    only when the name is empty and the index negative. *)
Theorem mute_unknown_pose (self pose_name : string) (i : Z) (sc : scene) (sv : solver) :
  solvers sc !! self = Some sv ->
  pose_name <> "" ->
  (i < 0)%Z ->
  pose_index sv pose_name = (-1)%Z ->
  mute_index sv pose_name i = Ok (-1)%Z
  /\ is_pose_muted sv pose_name i
     = (enabled <- getAttr_targetEnable sv (-1) ;; Ok (negb enabled))
  /\ (forall m, is_pose_muted sv pose_name i <> Raise (InvalidPoseIndex m))
  /\ (forall b : bool,
        mute_pose self pose_name i (Some b) sc
        = (setAttr_targetEnable self (-1) (negb b) ;;; ret (negb b)) sc
        /\ forall m, fst (mute_pose self pose_name i (Some b) sc)
                     <> Raise (InvalidPoseIndex m))
  /\ mute_pose self pose_name i None sc
     = (Raise (InvalidPoseIndex Unable_to_query_the_mute_status), sc)
  /\ (forall name' i' m, is_pose_muted sv name' i' = Raise (InvalidPoseIndex m) ->
                         name' = "" /\ (i' < 0)%Z).
Proof.
  intros Hsv Hname Hi Hidx.
  assert (Hmi : mute_index sv pose_name i = Ok (-1)%Z).
  { unfold mute_index.
    replace (i <? 0)%Z with true by (symmetry; now apply Z.ltb_lt).
    replace (String.eqb pose_name "") with false
      by (symmetry; now apply String.eqb_neq).
    cbn. now rewrite Hidx. }
  assert (Hm : is_pose_muted sv pose_name i
               = (enabled <- getAttr_targetEnable sv (-1) ;; Ok (negb enabled))).
  { unfold is_pose_muted. now rewrite Hmi. }
  split; [exact Hmi|]. split; [exact Hm|]. split.
  { intros m Hr. apply is_pose_muted_raises in Hr. tauto. }
  split.
  { intros b.
    assert (Hb : mute_pose self pose_name i (Some b) sc
                 = (setAttr_targetEnable self (-1) (negb b) ;;; ret (negb b)) sc).
    { unfold mute_pose.
      rewrite bindM_query, (the_solver_ok _ _ _ Hsv).
      rewrite bindM_query, Hmi. reflexivity. }
    split; [exact Hb|]. intros m. rewrite Hb. discriminate. }
  split.
  { unfold mute_pose.
    rewrite bindM_query, (the_solver_ok _ _ _ Hsv).
    rewrite bindM_query, Hmi. reflexivity. }
  intros name' i' m. apply is_pose_muted_raises.
Qed.

Lemma mute_unknown_pose_witness :
  solvers scenario_A !! "arm_l_UERBFSolver" = Some solver_A
  /\ "ghost" <> ""
  /\ (-1 < 0)%Z
  /\ pose_index solver_A "ghost" = (-1)%Z
  /\ is_pose_muted solver_A "ghost" (-1)
     = (enabled <- getAttr_targetEnable solver_A (-1) ;; Ok (negb enabled)).
Proof.
  assert (H : solvers scenario_A !! "arm_l_UERBFSolver" = Some solver_A)
    by (vm_compute; reflexivity).
  assert (Hn : "ghost" <> "") by discriminate.
  assert (Hi : (-1 < 0)%Z) by lia.
  assert (Hx : pose_index solver_A "ghost" = (-1)%Z) by (vm_compute; reflexivity).
  repeat (split; [assumption|]).
  exact (proj1 (proj2 (mute_unknown_pose "arm_l_UERBFSolver" "ghost" (-1)
                                          scenario_A solver_A H Hn Hi Hx))).
Defined.

(** ** Loading data onto a solver that is there *)

Lemma for_each_skip {A} (xs : list A) (body : A -> M unit) sc :
  (forall x, x ∈ xs -> body x sc = (Ok tt, sc)) ->
  for_each xs body sc = (Ok tt, sc).
Proof.
  induction xs as [|x xs IH]; intros H; [reflexivity|].
  cbn [for_each]. rewrite (bindM_ok _ _ sc tt sc) by (apply H; left).
  apply IH. intros y Hy. apply H. now right.
Qed.

Lemma result_mapM_Ok {A B} (f : A -> result B) xs ys :
  result_mapM f xs = Ok ys -> Forall2 (fun x y => f x = Ok y) xs ys.
Proof.
  revert ys. induction xs as [|x xs IH]; intros ys; cbn.
  - intros [= <-]. constructor.
  - destruct (f x) as [y|] eqn:E; cbn; [|discriminate].
    destruct (result_mapM f xs) as [ys'|]; cbn; [|discriminate].
    intros [= <-]. constructor; auto.
Qed.

Lemma find_by_transform_Some sc node b t :
  blenders sc !! node = Some b -> drivenTransform b = Some t ->
  is_Some (UEPoseBlenderNode.find_by_transform t sc).
Proof.
  intros Hb Ht. unfold UEPoseBlenderNode.find_by_transform.
  destruct (list_find _ _) as [[i [n b']]|] eqn:E; [eauto|].
  apply list_find_None in E. rewrite Forall_forall in E.
  exfalso. apply (E (node, b)); [|exact Ht].
  now apply elem_of_map_to_list.
Qed.

Lemma objExists_transform n sc : is_Some (transforms sc !! n) -> objExists n sc = true.
Proof. intros H. unfold objExists. now rewrite bool_decide_eq_true_2. Qed.

Lemma objExists_solver n sc : is_Some (solvers sc !! n) -> objExists n sc = true.
Proof.
  intros H. unfold objExists. rewrite (bool_decide_eq_true_2 (is_Some (solvers sc !! n))) by done.
  now rewrite orb_true_r.
Qed.

(** C1 breaks on the scene the data was taken from: when the solver is
    still there, with at least one driver and one named pose,
    [create_from_data] reuses the node, finds its drivers, controllers and
    driven transforms in place, and then calls [add_pose] for the first pose
    of the data, which exists: InvalidPose 'Already a pose called'. *)
Theorem create_from_data_on_existing_solver
        (native_config : solver_config) (Interpolative : Z)
        (self : string) (sc : scene) (sv : solver) (d : solver_data)
        (pose_name : string) (pd : pose_data) (rest : list (string * pose_data)) :
  solvers sc !! self = Some sv ->
  1 <= num_drivers sv ->
  data self sc = Ok d ->
  d_poses d = (pose_name, pd) :: rest ->
  Forall (fun t => exists n, t = Some n /\ is_Some (transforms sc !! n))
         (d_driven_transforms d) ->
  create_from_data native_config Interpolative d sc
  = (Raise (InvalidPose (Already_a_pose_called pose_name)), sc).
Proof.
  intros Hsv Hdrv Hdata Hposes Hdriven.
  unfold data in Hdata. rewrite (the_solver_ok _ _ _ Hsv) in Hdata. cbn in Hdata.
  destruct (driven_nodes sc sv) as [driven|] eqn:Edriven; cbn in Hdata; [|discriminate].
  destruct (poses sc sv) as [ps|] eqn:Eps; cbn in Hdata; [|discriminate].
  injection Hdata as <-. cbn in Hposes, Hdriven. subst ps.
  unfold create_from_data. cbn [d_solver_name d_drivers d_controllers d_driven_transforms d_poses].
  rewrite bindM_query.
  rewrite objExists_solver by (rewrite Hsv; eauto). cbn [negb].
  rewrite (bindM_ok _ _ sc tt sc).
  2:{ rewrite bindM_query, bool_decide_eq_true_2 by (rewrite Hsv; eauto). reflexivity. }
  rewrite (bindM_ok _ _ sc tt sc).
  2:{ apply for_each_skip. intros x Hx.
      rewrite bindM_query, (the_solver_ok _ _ _ Hsv).
      unfold has_driver. now rewrite bool_decide_eq_true_2. }
  rewrite (bindM_ok _ _ sc tt sc).
  2:{ apply for_each_skip. intros x Hx.
      rewrite bindM_query, (the_solver_ok _ _ _ Hsv).
      unfold has_controller. now rewrite bool_decide_eq_true_2. }
  rewrite (bindM_ok _ _ sc tt sc).
  2:{ destruct driven as [|t0 driven0] eqn:Ed; [reflexivity|]. rewrite <- Ed in *.
      apply for_each_skip. intros t Ht.
      rewrite Forall_forall in Hdriven.
      destruct (Hdriven t Ht) as (n & -> & Hn).
      unfold add_one_driven.
      rewrite bindM_query, objExists_transform by exact Hn. cbn [negb].
      rewrite bindM_query.
      apply result_mapM_Ok in Edriven.
      apply list_elem_of_lookup in Ht as [i Hi].
      destruct (Forall2_lookup_r _ _ _ _ _ Edriven Hi) as (node & _ & Hnode).
      unfold UEPoseBlenderNode.driven_transform, the_blender in Hnode.
      destruct (blenders sc !! node) as [b|] eqn:Eb; cbn in Hnode; [|discriminate].
      injection Hnode as Hnode.
      destruct (find_by_transform_Some sc node b n Eb Hnode) as [x ->].
      reflexivity. }
  assert (Hadd : add_pose self pose_name (Some (drivers sv)) (Some (pd_drivers pd))
                          (Some (pd_controllers pd)) (Some (pd_driven pd))
                          (pd_target_enable pd) sc
                 = (Raise (InvalidPose (Already_a_pose_called pose_name)), sc)).
  { unfold add_pose.
    rewrite (bool_decide_eq_false_2 (Some (pd_drivers pd) = None)) by discriminate.
    rewrite andb_false_r.
    rewrite (bindM_ok _ _ sc (Some (pd_drivers pd)) sc) by reflexivity.
    rewrite bindM_query, (the_solver_ok _ _ _ Hsv).
    destruct (num_drivers sv =? 0) eqn:E0; [apply Nat.eqb_eq in E0; lia|].
    rewrite bindM_query. unfold has_pose. rewrite Eps. cbn [bind].
    rewrite bool_decide_eq_true_2 by (cbn; left).
    reflexivity. }
  apply bindM_raise. cbn [for_each]. apply bindM_raise. exact Hadd.
Qed.

Lemma create_from_data_on_existing_solver_witness :
  exists d pd rest,
    solvers scenario_A !! "arm_l_UERBFSolver" = Some solver_A
    /\ 1 <= num_drivers solver_A
    /\ data "arm_l_UERBFSolver" scenario_A = Ok d
    /\ d_poses d = ("default", pd) :: rest
    /\ create_from_data some_config 1 d scenario_A
       = (Raise (InvalidPose (Already_a_pose_called "default")), scenario_A).
Proof.
  assert (H : solvers scenario_A !! "arm_l_UERBFSolver" = Some solver_A)
    by (vm_compute; reflexivity).
  assert (Hd : 1 <= num_drivers solver_A) by (vm_compute; lia).
  destruct (data "arm_l_UERBFSolver" scenario_A) as [d|] eqn:Ed;
    [|exfalso; revert Ed; vm_compute; discriminate].
  assert (Hp : exists pd rest, d_poses d = ("default", pd) :: rest).
  { revert Ed. vm_compute. intros [= <-]. eauto. }
  destruct Hp as (pd & rest & Hp).
  assert (Hdr : Forall (fun t => exists n, t = Some n
                                 /\ is_Some (transforms scenario_A !! n))
                       (d_driven_transforms d)).
  { revert Ed. vm_compute. intros [= <-]. repeat constructor.
    exists "J_l_elbow". split; [reflexivity|]. vm_compute. eauto. }
  exists d, pd, rest.
  repeat (split; [assumption || reflexivity|]).
  exact (create_from_data_on_existing_solver some_config 1 "arm_l_UERBFSolver"
           scenario_A solver_A d "default" pd rest H Hd Ed Hp Hdr).
Defined.

End SceneFacts.

(* ================================================================== *)
(** * Reading and rebuilding the poses of a well-formed solver *)
(* ================================================================== *)

Module PoseFacts.
Import Scene Host RBFNode SparseFacts Examples Invariants SceneFacts.
Local Open Scope list_scope.
Local Open Scope nat_scope.

Section Dictionaries.
Context {K V : Type} `{EqDecision K}.
Implicit Types (d : list (K * V)).

Lemma dict_set_fresh k v d :
  k ∉ dict_keys d -> dict_set k v d = d ++ [(k, v)].
Proof.
  induction d as [|[k' v'] d IH]; cbn; intros Hk; [reflexivity|].
  rewrite not_elem_of_cons in Hk. destruct Hk as [Hne Hk].
  destruct (decide (k = k')); [contradiction|]. now rewrite IH.
Qed.

Lemma dict_get_app_fresh k v d :
  k ∉ dict_keys d -> dict_get k (d ++ [(k, v)]) = Some v.
Proof.
  induction d as [|[k' v'] d IH]; cbn; intros Hk.
  - now rewrite decide_True.
  - rewrite not_elem_of_cons in Hk. destruct Hk as [Hne Hk].
    destruct (decide (k = k')); [contradiction|]. now apply IH.
Qed.

Lemma dict_get_app_other k k' v d :
  k <> k' -> dict_get k (d ++ [(k', v)]) = dict_get k d.
Proof.
  intros Hne. induction d as [|[k2 v2] d IH]; cbn.
  - now rewrite decide_False.
  - destruct (decide (k = k2)); [reflexivity | exact IH].
Qed.

Lemma dict_keys_app d1 d2 : dict_keys (d1 ++ d2) = dict_keys d1 ++ dict_keys d2.
Proof. unfold dict_keys. apply fmap_app. Qed.

(** Popping the key at position [i] of a dictionary whose keys are
    distinct removes the entry at [i]. *)
Lemma dict_pop_delete k v d i :
  NoDup (dict_keys d) -> d !! i = Some (k, v) -> dict_pop k d = delete i d.
Proof.
  revert i. induction d as [|[k' v'] d IH]; intros i Hnd Hi; [discriminate|].
  change (dict_keys ((k', v') :: d)) with (k' :: dict_keys d) in Hnd.
  apply NoDup_cons in Hnd as [Hk' Hnd].
  destruct i as [|i].
  - injection Hi as -> ->. cbn. now rewrite decide_True.
  - change (d !! i = Some (k, v)) in Hi.
    change (delete (S i) ((k', v') :: d)) with ((k', v') :: delete i d).
    cbn [dict_pop].
    destruct (decide (k = k')) as [->|Hne].
    + exfalso. apply Hk'. apply list_elem_of_lookup. exists i.
      unfold dict_keys. now rewrite list_lookup_fmap, Hi.
    + f_equal. now apply IH.
Qed.

Lemma dict_get_set_eq k v d : dict_get k (dict_set k v d) = Some v.
Proof.
  induction d as [|[k' v'] d IH]; cbn.
  - now rewrite decide_True.
  - destruct (decide (k = k')) as [->|Hne]; cbn.
    + now rewrite decide_True.
    + now rewrite decide_False.
Qed.

Lemma dict_get_set_ne k k' v d : k <> k' -> dict_get k (dict_set k' v d) = dict_get k d.
Proof.
  intros Hne. induction d as [|[k2 v2] d IH]; cbn.
  - now rewrite decide_False.
  - destruct (decide (k' = k2)) as [->|Hne2]; cbn.
    + now rewrite !decide_False.
    + destruct (decide (k = k2)); [reflexivity | exact IH].
Qed.

End Dictionaries.

Lemma delete_imap {A B} (l : list A) : forall (f : nat -> A -> B) k,
  delete k (imap f l) = imap (fun j => f (index_before k j)) (delete k l).
Proof.
  induction l as [|x l IH]; intros f k; [now destruct k|].
  destruct k as [|k].
  - cbn. apply imap_ext. intros i y _. reflexivity.
  - change (delete (S k) (imap f (x :: l))) with (f 0 x :: delete k (imap (f ∘ S) l)).
    change (delete (S k) (x :: l)) with (x :: delete k l).
    rewrite IH. cbn [imap]. f_equal.
    apply imap_ext. intros i y _. cbn. unfold index_before.
    destruct (decide (i < k)), (decide (S i < S k)); try reflexivity; lia.
Qed.

Lemma lookup_delete_before {A} (l : list A) k j :
  delete k l !! j = l !! index_before k j.
Proof.
  unfold index_before. destruct (decide (j < k)).
  - now apply list_lookup_delete_lt.
  - apply list_lookup_delete_ge. lia.
Qed.

Lemma fmap_rebuilt_names (l : list target) : targetName <$> (rebuilt <$> l) = targetName <$> l.
Proof. rewrite <- list_fmap_compose. reflexivity. Qed.

Section Reading.
Variables (sc : scene) (sv : solver) (ts : list target) (nodes : list string).
Hypothesis rd : readable sc sv ts nodes.

Lemma target_at_dense i t : ts !! i = Some t -> target_at sv i = t.
Proof.
  intros Hi. unfold target_at. rewrite (rd_targets _ _ _ _ rd), lookup_dense, Hi.
  reflexivity.
Qed.

Lemma num_poses_dense : num_poses sv = length ts.
Proof. unfold num_poses. rewrite (rd_targets _ _ _ _ rd). apply size_dense. Qed.

Lemma name_unique i j t t' :
  ts !! i = Some t -> ts !! j = Some t' -> targetName t = targetName t' -> i = j.
Proof.
  intros Hi Hj Hn.
  apply (NoDup_lookup _ i j (targetName t) (rd_names _ _ _ _ rd));
    rewrite list_lookup_fmap; [now rewrite Hi | now rewrite Hj, Hn].
Qed.

Lemma find_pose_index_found name i t j m :
  ts !! i = Some t -> targetName t = name ->
  j <= i -> i < j + m -> j + m <= length ts ->
  find_pose_index sv name (seq j m) = Z.of_nat i.
Proof.
  intros Hi Hn. revert j. induction m as [|m IH]; intros j Hji Him Hlen; [lia|].
  cbn [seq find_pose_index].
  destruct (lookup_lt_is_Some_2 ts j) as [tj Hj]; [lia|].
  rewrite (target_at_dense j tj Hj).
  destruct (String.eqb name (targetName tj)) eqn:E.
  - apply String.eqb_eq in E. f_equal. symmetry.
    apply (name_unique i j t tj Hi Hj). congruence.
  - apply String.eqb_neq in E.
    assert (j <> i) by (intros ->; rewrite Hi in Hj; injection Hj as <-; congruence).
    apply IH; lia.
Qed.

Lemma find_pose_index_missing name j m :
  name ∉ targetName <$> ts -> j + m <= length ts ->
  find_pose_index sv name (seq j m) = (-1)%Z.
Proof.
  intros Hn. revert j. induction m as [|m IH]; intros j Hlen; [reflexivity|].
  cbn [seq find_pose_index].
  destruct (lookup_lt_is_Some_2 ts j) as [tj Hj]; [lia|].
  rewrite (target_at_dense j tj Hj).
  destruct (String.eqb name (targetName tj)) eqn:E.
  - apply String.eqb_eq in E. exfalso. apply Hn.
    apply list_elem_of_lookup. exists j. rewrite list_lookup_fmap, Hj. cbn. congruence.
  - apply IH. lia.
Qed.

Lemma pose_index_dense i t :
  ts !! i = Some t -> pose_index sv (targetName t) = Z.of_nat i.
Proof.
  intros Hi. unfold pose_index.
  rewrite (rd_targets _ _ _ _ rd), multiIndices_dense.
  apply lookup_lt_Some in Hi as Hlt.
  apply (find_pose_index_found _ i t); auto; lia.
Qed.

Lemma pose_index_missing name :
  name ∉ targetName <$> ts -> pose_index sv name = (-1)%Z.
Proof.
  intros Hn. unfold pose_index.
  rewrite (rd_targets _ _ _ _ rd), multiIndices_dense.
  apply find_pose_index_missing; auto.
Qed.

Lemma collect_driven_ok index ns acc :
  Forall (fun node => is_Some (blenders sc !! node)) ns ->
  collect_driven sc index ns acc
  = Ok (foldl (fun acc node =>
                 match blenders sc !! node with
                 | Some b => dict_set (drivenTransform b)
                               (default identity_matrix (blender_poses b !! index)) acc
                 | None => acc
                 end) acc ns).
Proof.
  revert acc. induction ns as [|node ns IH]; intros acc Hn; [reflexivity|].
  apply Forall_cons in Hn as [[b Hb] Hn].
  cbn [collect_driven foldl].
  unfold UEPoseBlenderNode.get_pose, UEPoseBlenderNode.driven_transform, the_blender.
  rewrite Hb. cbn [bind]. now apply IH.
Qed.

(** [pose()] on a readable solver. *)
Lemma pose_dense i t :
  ts !! i = Some t ->
  pose sc sv (targetName t) = Ok (pose_data_of sc nodes i t).
Proof.
  intros Hi. unfold pose.
  rewrite (pose_index_dense i t Hi).
  replace (Z.of_nat i =? -1)%Z with false by (symmetry; apply Z.eqb_neq; lia).
  rewrite Nat2Z.id, (target_at_dense i t Hi).
  pose proof (rd_target _ _ _ _ rd) as Ht. rewrite Forall_forall in Ht.
  destruct (Ht t) as (_ & (vs & Hvs & Hlv) & (cs & Hcs & Hlc));
    [apply list_elem_of_lookup; eauto|].
  rewrite Hvs, Hcs, !multiIndices_dense, !length_seq, Hlv, Hlc, !Nat.eqb_refl.
  cbn [negb].
  rewrite bool_decide_eq_false_2.
  2:{ pose proof (rd_drivers _ _ _ _ rd). rewrite <- Hlv.
      destruct vs; [cbn in Hlv; lia | cbn; discriminate]. }
  rewrite (rd_nodes _ _ _ _ rd). cbn [bind].
  rewrite (collect_driven_ok i nodes []) by (apply (rd_present _ _ _ _ rd)).
  cbn [bind]. unfold pose_data_of, driven_of. now rewrite Hvs, Hcs.
Qed.

Lemma pose_entries_keys from xs :
  dict_keys (pose_entries sc nodes from xs) = targetName <$> xs.
Proof.
  unfold dict_keys, pose_entries. revert from.
  induction xs as [|x xs IH]; intros from; [reflexivity|].
  cbn. f_equal. rewrite <- (IH (S from)). f_equal.
  apply imap_ext. intros i y _. cbn. do 2 f_equal. lia.
Qed.

Lemma pose_entries_snoc xs x :
  pose_entries sc nodes 0 (xs ++ [x])
  = pose_entries sc nodes 0 xs ++ [(targetName x, pose_data_of sc nodes (length xs) x)].
Proof.
  unfold pose_entries. rewrite imap_app. cbn. now rewrite Nat.add_0_r.
Qed.

Lemma poses_loop_dense m :
  m <= length ts ->
  poses_loop sc sv (seq (length ts - m) m) (pose_entries sc nodes 0 (take (length ts - m) ts))
  = Ok (pose_entries sc nodes 0 ts).
Proof.
  induction m as [|m IH]; intros Hm.
  - cbn. now rewrite Nat.sub_0_r, firstn_all.
  - cbn [seq poses_loop].
    set (j := length ts - S m).
    destruct (lookup_lt_is_Some_2 ts j) as [tj Hj]; [unfold j; lia|].
    rewrite (target_at_dense j tj Hj).
    pose proof (rd_target _ _ _ _ rd) as Ht. rewrite Forall_forall in Ht.
    destruct (Ht tj) as (Hne & _); [apply list_elem_of_lookup; eauto|].
    apply String.eqb_neq in Hne. rewrite Hne.
    rewrite (pose_dense j tj Hj). cbn [bind].
    rewrite dict_set_fresh.
    2:{ rewrite pose_entries_keys. intros Hin.
        apply list_elem_of_lookup in Hin as [i Hi].
        rewrite list_lookup_fmap in Hi.
        destruct (take j ts !! i) as [ti|] eqn:Hti; [|discriminate].
        injection Hi as Hi.
        apply lookup_take_Some in Hti as [Hti Hlt].
        pose proof (name_unique i j ti tj Hti Hj Hi). lia. }
    replace (S j) with (length ts - m) by (unfold j; lia).
    rewrite <- IH by lia. f_equal.
    replace (length ts - m) with (S j) by (unfold j; lia).
    rewrite (take_S_r _ _ _ Hj), pose_entries_snoc.
    rewrite length_take_le by (unfold j; lia). reflexivity.
Qed.

(** [poses()] on a readable solver. *)
Lemma poses_dense : poses sc sv = Ok (pose_entries sc nodes 0 ts).
Proof.
  unfold poses. rewrite (rd_targets _ _ _ _ rd), multiIndices_dense.
  pose proof (poses_loop_dense (length ts) (le_n _)) as H.
  now rewrite Nat.sub_diag in H.
Qed.

(** [has_pose()] on a readable solver. *)
Lemma has_pose_dense name :
  has_pose sc sv name = Ok (bool_decide (name ∈ targetName <$> ts)).
Proof. unfold has_pose. rewrite poses_dense. cbn [bind]. now rewrite pose_entries_keys. Qed.

End Reading.

(** ** Writing *)

Lemma bindM_ret {A B} (a : A) (k : A -> M B) sc : bindM (ret a) k sc = k a sc.
Proof. reflexivity. Qed.

Lemma for_each_id {A} (xs : list A) (body : A -> M unit) sc :
  Forall (fun x => body x sc = (Ok tt, sc)) xs -> for_each xs body sc = (Ok tt, sc).
Proof.
  induction 1 as [|x xs Hx _ IH]; [reflexivity|].
  cbn [for_each]. now rewrite (bindM_ok _ _ _ _ _ Hx).
Qed.

Lemma set_solver_twice self a b s :
  set_solver self a (set_solver self b s) = set_solver self a s.
Proof. unfold set_solver. cbn. f_equal. apply insert_insert_eq. Qed.

Lemma update_solver_set self f b s :
  update_solver self f (set_solver self b s) = (Ok tt, set_solver self (f b) s).
Proof.
  rewrite (update_solver_ok self f _ b) by apply lookup_insert_eq.
  now rewrite set_solver_twice.
Qed.

Lemma set_blender_id node b s : blenders s !! node = Some b -> set_blender node b s = s.
Proof. intros H. destruct s. unfold set_blender. cbn in *. f_equal. now apply insert_id. Qed.

Lemma write_target_fresh j f (tg : gmap nat target) :
  tg !! j = None -> write_target j f tg = <[j := f default_target]> tg.
Proof. unfold write_target. now intros ->. Qed.

Lemma write_target_again j f x (tg : gmap nat target) :
  write_target j f (<[j := x]> tg) = <[j := f x]> tg.
Proof. unfold write_target. now rewrite lookup_insert_eq, insert_insert_eq. Qed.

(** A pose blender node that already records the given matrix at the
    index is left as it is by the pose blender part of [add_pose]. *)
Lemma add_pose_on_blender_id j (driven : list (option string * matrix)) node s b d
      (m : matrix) :
  blenders s !! node = Some b -> drivenTransform b = Some d ->
  dict_get (Some d) driven = Some m -> m <> [] ->
  blender_poses b !! j = Some m ->
  add_pose_on_blender j (Some driven) node s = (Ok tt, s).
Proof.
  intros Hb Hd Hg Hm Hj. unfold add_pose_on_blender.
  rewrite bindM_query. unfold UEPoseBlenderNode.driven_transform, the_blender.
  rewrite Hb. cbn [bind]. rewrite Hd.
  destruct driven as [|e driven]; [discriminate|].
  cbn [truthy].
  change (default [] (Some (e :: driven))) with (e :: driven). rewrite Hg.
  destruct m as [|q m]; [contradiction|].
  unfold UEPoseBlenderNode.set_pose. rewrite bindM_ret.
  rewrite (update_blender_ok _ _ _ _ Hb). f_equal.
  apply set_blender_id. rewrite Hb. f_equal.
  clear Hb Hd. destruct b as [dt bp oc]. unfold UEPoseBlenderNode.with_poses.
  cbn [drivenTransform blender_poses outMatrix_connected] in *. f_equal.
  symmetry. now apply insert_id.
Qed.

(** [add_pose] with what [pose()] returned for a target [t] of the right
    arity appends [rebuilt t] to the poses [xs] of a readable solver; the
    pose blender nodes, which already record the pose at the new index,
    stay as they are. *)
Lemma add_pose_rebuild s self sv xs nodes t (driven : list (option string * matrix)) :
  solvers s !! self = Some sv ->
  readable s sv xs nodes ->
  dense_target sv t ->
  targetName t ∉ targetName <$> xs ->
  Forall (fun node => exists b d (m : matrix),
            blenders s !! node = Some b /\ drivenTransform b = Some d
            /\ dict_get (Some d) driven = Some m /\ m <> []
            /\ blender_poses b !! length xs = Some m) nodes ->
  add_pose self (targetName t) None (Some (values_of (targetValues t)))
           (Some (values_of (targetControllers t))) (Some driven) (targetEnable t) s
  = (Ok tt, set_solver self (with_targets (fun _ => map_seq 0 (xs ++ [rebuilt t])) sv) s).
Proof.
  intros Hs rd (Hname & (vs & Hvs & Hlv) & (cs & Hcs & Hlc)) Hfresh Hb.
  unfold add_pose. cbn [truthy andb].
  rewrite bindM_ret, bindM_query, (the_solver_ok _ _ _ Hs).
  destruct (num_drivers sv =? 0) eqn:E;
    [apply Nat.eqb_eq in E; now destruct (rd_drivers _ _ _ _ rd)|].
  rewrite bindM_query, (has_pose_dense _ _ _ _ rd), bool_decide_eq_false_2 by assumption.
  rewrite Hvs, Hcs, !values_of_dense, Hlv, Nat.eqb_refl. cbn [negb].
  change (default [] (Some cs)) with cs. rewrite Hlc, Nat.eqb_refl.
  cbn [negb]. rewrite andb_false_r.
  rewrite (num_poses_dense _ _ _ _ rd).
  assert (Hnone : targets sv !! length xs = None).
  { rewrite (rd_targets _ _ _ _ rd), lookup_dense. now apply lookup_ge_None. }
  assert (Hloop : forall s' : scene, blenders s' = blenders s ->
            for_each nodes (add_pose_on_blender (length xs) (Some driven)) s' = (Ok tt, s')).
  { intros s' Hs'. apply for_each_id. eapply Forall_impl; [exact Hb|].
    intros node (b & d & m & H1 & H2 & H3 & H4 & H5).
    apply (add_pose_on_blender_id _ _ _ _ b d m); auto. now rewrite Hs'. }
  assert (Hfinal : forall T : target,
            targetName T = targetName t -> targetValues T = map_seq 0 vs ->
            targetControllers T = map_seq 0 cs -> targetEnable T = targetEnable t ->
            targetFunctionType T = targetFunctionType default_target ->
            targetScaleFactor T = targetScaleFactor default_target ->
            targetDistanceMethod T = targetDistanceMethod default_target ->
            <[length xs := T]> (targets sv) = map_seq 0 (xs ++ [rebuilt t])).
  { intros T H1 H2 H3 H4 H5 H6 H7.
    rewrite (rd_targets _ _ _ _ rd), dense_snoc. do 3 f_equal.
    destruct T, t. unfold rebuilt. cbn in *. congruence. }
  destruct cs as [|c cs].
  - cbn [truthy length] in *. rewrite <- Hlc. cbn [Nat.eqb negb andb].
    rewrite (bindM_ok _ _ _ _ _ (update_solver_ok _ _ _ _ Hs)).
    rewrite bindM_ret, bindM_query, (rd_nodes _ _ _ _ rd).
    rewrite (bindM_ok _ _ _ _ _ (Hloop (set_solver self _ s) eq_refl)).
    rewrite (bindM_ok _ _ _ _ _ (update_solver_set _ _ _ _)).
    rewrite update_solver_set. do 2 f_equal.
    unfold with_targets. cbn [inputs inputsRest inputsControllers targets poseBlenders config].
    f_equal. rewrite (write_target_fresh _ _ (targets sv) Hnone), !write_target_again.
    apply Hfinal; try reflexivity. apply set_all_empty.
  - cbn [truthy andb negb]. rewrite andb_false_r.
    rewrite (bindM_ok _ _ _ _ _ (update_solver_ok _ _ _ _ Hs)).
    rewrite (bindM_ok _ _ _ _ _ (update_solver_set _ _ _ _)).
    rewrite bindM_query, (rd_nodes _ _ _ _ rd).
    rewrite (bindM_ok _ _ _ _ _ (Hloop (set_solver self _ s) eq_refl)).
    rewrite (bindM_ok _ _ _ _ _ (update_solver_set _ _ _ _)).
    rewrite update_solver_set. do 2 f_equal.
    unfold with_targets. cbn [inputs inputsRest inputsControllers targets poseBlenders config].
    f_equal. rewrite (write_target_fresh _ _ (targets sv) Hnone), !write_target_again.
    apply Hfinal; try reflexivity; apply set_all_empty.
Qed.

(** ** Pose blender nodes *)

Lemma set_pose_loop node (ys : list matrix) : forall (xs : list matrix) s b,
  blenders s !! node = Some b ->
  blender_poses b = map_seq 0 xs ->
  for_each (imap (fun i m => (length xs + i, m)) ys)
           (fun '(pose_index, m) => UEPoseBlenderNode.set_pose node pose_index (Some m)) s
  = (Ok tt, set_blender node
              (UEPoseBlenderNode.with_poses (fun _ => map_seq 0 (xs ++ ys)) b) s).
Proof.
  induction ys as [|y ys IH]; intros xs s b Hb Hp.
  - cbn. f_equal. symmetry. apply set_blender_id. rewrite Hb. f_equal.
    rewrite app_nil_r, <- Hp. now destruct b.
  - cbn [imap for_each]. rewrite Nat.add_0_r.
    assert (Hset : UEPoseBlenderNode.set_pose node (length xs) (Some y) s
                   = (Ok tt, set_blender node
                               (UEPoseBlenderNode.with_poses (insert (length xs) y) b) s)).
    { unfold UEPoseBlenderNode.set_pose. rewrite bindM_ret.
      now apply update_blender_ok. }
    rewrite (bindM_ok _ _ _ _ _ Hset).
    rewrite (imap_ext _ (fun i m => (length (xs ++ [y]) + i, m))).
    2:{ intros i m _. cbn. rewrite length_app. cbn. f_equal. lia. }
    rewrite (IH (xs ++ [y]) _ (UEPoseBlenderNode.with_poses (insert (length xs) y) b)).
    + f_equal. unfold set_blender. cbn. f_equal.
      rewrite insert_insert_eq. f_equal. unfold UEPoseBlenderNode.with_poses. cbn.
      now rewrite <- app_assoc.
    + cbn. apply lookup_insert_eq.
    + cbn. rewrite Hp. apply dense_snoc.
Qed.

(** [UEPoseBlenderNode.delete_pose] on a node whose recorded matrices are
    dense drops the one at the index and keeps the others in order. *)
Lemma blender_delete_pose_ok node k s b (ps : list matrix) :
  blenders s !! node = Some b ->
  blender_poses b = map_seq 0 ps ->
  k < length ps ->
  UEPoseBlenderNode.delete_pose node k s
  = (Ok tt, with_nodes (solvers s) (alter (drop_pose k) node (blenders s)) s).
Proof.
  intros Hb Hp Hk. unfold UEPoseBlenderNode.delete_pose.
  rewrite bindM_query. unfold UEPoseBlenderNode.get_poses, the_blender.
  rewrite Hb. cbn [bind]. rewrite Hp, values_of_dense.
  rewrite (bindM_ok _ _ _ _ _ (update_blender_ok _ _ _ _ Hb)).
  rewrite bindM_query. unfold UEPoseBlenderNode.list_pop.
  rewrite decide_True by exact Hk.
  unfold enumerate.
  rewrite (set_pose_loop node (delete k ps) [] _
             (UEPoseBlenderNode.with_poses (remove_range (length ps)) b)).
  - unfold set_blender, with_nodes. cbn. f_equal. f_equal.
    rewrite insert_insert_eq.
    rewrite <- (insert_id _ _ _ Hb) at 2. rewrite alter_insert_eq. f_equal.
    unfold drop_pose, UEPoseBlenderNode.with_poses. cbn.
    now rewrite Hp, values_of_dense.
  - cbn. apply lookup_insert_eq.
  - cbn. rewrite Hp. apply remove_range_dense.
Qed.

Lemma blender_delete_loop k (ns : list string) : forall s,
  NoDup ns ->
  Forall (fun node => exists b (ps : list matrix),
            blenders s !! node = Some b /\ blender_poses b = map_seq 0 ps
            /\ k < length ps) ns ->
  for_each ns (fun node => UEPoseBlenderNode.delete_pose node k) s
  = (Ok tt, with_nodes (solvers s)
              (foldl (fun bs node => alter (drop_pose k) node bs) (blenders s) ns) s).
Proof.
  induction ns as [|node ns IH]; intros s Hnd Hb.
  - cbn. now destruct s.
  - apply NoDup_cons in Hnd as [Hnotin Hnd].
    apply Forall_cons in Hb as [(b & ps & Hb & Hp & Hk) Hrest].
    cbn [for_each foldl].
    rewrite (bindM_ok _ _ _ _ _ (blender_delete_pose_ok _ _ _ _ _ Hb Hp Hk)).
    rewrite IH; [reflexivity | exact Hnd |].
    rewrite Forall_forall in Hrest. apply Forall_forall. intros n Hn.
    destruct (Hrest n Hn) as (b' & ps' & Hb' & Hp' & Hk').
    exists b', ps'. split; [|auto]. cbn.
    rewrite lookup_alter_ne; [exact Hb'|]. intros ->. contradiction.
Qed.

Lemma lookup_foldl_alter {A} (f : A -> A) (ns : list string) : forall (bs : gmap string A) x,
  NoDup ns ->
  foldl (fun bs node => alter f node bs) bs ns !! x
  = if decide (x ∈ ns) then f <$> bs !! x else bs !! x.
Proof.
  induction ns as [|n ns IH]; intros bs x Hnd; [reflexivity|].
  apply NoDup_cons in Hnd as [Hnotin Hnd].
  cbn [foldl]. rewrite IH by exact Hnd.
  destruct (decide (x = n)) as [->|Hne].
  - rewrite decide_False by exact Hnotin.
    rewrite decide_True by (apply elem_of_cons; now left).
    apply lookup_alter_eq.
  - rewrite lookup_alter_ne by congruence.
    destruct (decide (x ∈ ns)) as [Hin|Hout].
    + rewrite decide_True; [reflexivity | apply elem_of_cons; now right].
    + rewrite decide_False; [reflexivity|].
      rewrite elem_of_cons. intros [?|?]; contradiction.
Qed.

(** What [pose()] reports for a Driven Binding is what its node records. *)
Lemma driven_of_get sc index (nodes : list string) node b d :
  NoDup (driven_transform_of sc <$> nodes) ->
  node ∈ nodes -> blenders sc !! node = Some b -> drivenTransform b = Some d ->
  dict_get (Some d) (driven_of sc index nodes)
  = Some (default identity_matrix (blender_poses b !! index)).
Proof.
  intros Hnd Hin Hb Hd. unfold driven_of.
  induction nodes as [|n ns IH] using rev_ind; [now apply elem_of_nil in Hin|].
  rewrite foldl_snoc. rewrite fmap_app in Hnd.
  apply NoDup_app in Hnd as (Hns & Hdisj & _).
  destruct (decide (node = n)) as [->|Hne].
  - rewrite Hb, <- Hd. apply dict_get_set_eq.
  - apply elem_of_app in Hin as [Hin|Hin];
      [|apply list_elem_of_singleton in Hin; contradiction].
    destruct (blenders sc !! n) as [b'|] eqn:Hb'; [|now apply IH].
    rewrite dict_get_set_ne; [now apply IH|].
    intros Heq. apply (Hdisj (Some d)).
    + apply list_elem_of_fmap. exists node. split; [|exact Hin].
      unfold driven_transform_of. now rewrite Hb.
    + cbn. apply elem_of_cons. left.
      unfold driven_transform_of. now rewrite Hb'.
Qed.

Section Rebuild.
Variables (self : string) (sv : solver) (nodes : list string).
Variables (sc0 base : scene) (B : gmap string blender) (k : nat) (all : list target).
Hypothesis H_dense : Forall (dense_target sv) all.
Hypothesis H_names : NoDup (targetName <$> all).
Hypothesis H_drivers : num_drivers sv <> 0.
Hypothesis H_nodes : pose_blender_nodes sv = Ok nodes.
Hypothesis H_blend : forall j t, all !! j = Some t ->
  Forall (fun node => exists b d (m : matrix),
            B !! node = Some b /\ drivenTransform b = Some d
            /\ dict_get (Some d) (driven_of sc0 (index_before k j) nodes) = Some m
            /\ m <> [] /\ blender_poses b !! j = Some m) nodes.

(** The loop of [delete_pose] that adds the remaining poses again. *)
Lemma readd_loop (todo : list target) : forall done,
  all = done ++ todo ->
  for_each (imap (fun i t => (targetName t,
                              pose_data_of sc0 nodes (index_before k (length done + i)) t))
                 todo)
    (fun '(name, pose_data) =>
       add_pose self name None
                (Some (pd_drivers pose_data))
                (Some (pd_controllers pose_data))
                (Some (pd_driven pose_data))
                (pd_target_enable pose_data))
    (rebuilding self sv (rebuilt <$> done) B base)
  = (Ok tt, rebuilding self sv (rebuilt <$> all) B base).
Proof.
  induction todo as [|t todo IH]; intros done Hall.
  - rewrite app_nil_r in Hall. now subst.
  - cbn [imap for_each]. rewrite Nat.add_0_r.
    assert (Ht : all !! length done = Some t) by (subst all; apply list_lookup_middle; auto).
    pose proof H_dense as Hd. rewrite Hall in Hd. apply Forall_app in Hd as [Hd1 Hd2].
    apply Forall_cons in Hd2 as [Hdt _].
    pose proof H_names as Hn. rewrite Hall, fmap_app in Hn.
    apply NoDup_app in Hn as (Hn1 & Hn2 & _).
    set (svd := with_targets (fun _ => map_seq 0 (rebuilt <$> done)) sv).
    rewrite (bindM_ok _ _ _ tt
               (set_solver self
                  (with_targets (fun _ => map_seq 0 ((rebuilt <$> done) ++ [rebuilt t])) svd)
                  (rebuilding self sv (rebuilt <$> done) B base))).
    + replace (set_solver self _ _)
        with (rebuilding self sv (rebuilt <$> (done ++ [t])) B base).
      2:{ unfold rebuilding, set_solver, with_nodes. cbn.
          rewrite insert_insert_eq, fmap_app. reflexivity. }
      rewrite <- (IH (done ++ [t])) by (now rewrite <- app_assoc).
      f_equal. apply imap_ext. intros i y _. cbn.
      rewrite length_app. cbn. do 3 f_equal. lia.
    + apply (add_pose_rebuild _ self svd (rebuilt <$> done) nodes t).
      * apply lookup_insert_eq.
      * split.
        -- reflexivity.
        -- apply Forall_fmap. eapply Forall_impl; [exact Hd1|]. intros x Hx. exact Hx.
        -- rewrite fmap_rebuilt_names. exact Hn1.
        -- exact H_drivers.
        -- exact H_nodes.
        -- eapply Forall_impl; [exact (H_blend _ _ Ht)|].
           intros node (b & d & m & Hb & _). cbn. rewrite Hb. eauto.
      * exact Hdt.
      * rewrite fmap_rebuilt_names. intros Hin. apply (Hn2 _ Hin).
        cbn. apply elem_of_cons. now left.
      * rewrite length_fmap. exact (H_blend _ _ Ht).
Qed.

End Rebuild.

(** ** [delete_pose] on a well-formed solver *)

Section Delete.
Variables (self : string) (sc : scene) (sv : solver) (ts : list target).
Variable nodes : list string.
Hypothesis Hs : solvers sc !! self = Some sv.
Hypothesis wf : well_formed sc sv ts nodes.

Lemma well_formed_readable : readable sc sv ts nodes.
Proof.
  destruct wf. split; auto.
  eapply Forall_impl; [eassumption|].
  intros node (b & d & ps & Hb & _). cbn. rewrite Hb. eauto.
Qed.

Lemma nodes_NoDup : NoDup nodes.
Proof. exact (NoDup_fmap_1 _ _ (wf_driven _ _ _ _ wf)). Qed.

Lemma without_pose_solver k :
  solvers (without_pose self k nodes sc) !! self
  = Some (with_targets (fun _ => map_seq 0 (rebuilt <$> delete k ts)) sv).
Proof.
  cbn. rewrite lookup_alter_eq, Hs. cbn. f_equal.
  unfold with_targets. now rewrite (wf_targets _ _ _ _ wf), values_of_dense.
Qed.

Lemma without_pose_rebuilding k :
  without_pose self k nodes sc
  = rebuilding self sv (rebuilt <$> delete k ts)
               (foldl (fun bs node => alter (drop_pose k) node bs) (blenders sc) nodes) sc.
Proof.
  unfold without_pose, rebuilding, with_nodes. f_equal.
  rewrite <- (insert_id _ _ _ Hs) at 1. rewrite alter_insert_eq. f_equal.
  unfold with_targets. now rewrite (wf_targets _ _ _ _ wf), values_of_dense.
Qed.

Lemma without_pose_blender k node :
  node ∈ nodes ->
  exists b d (ps : list matrix),
    blenders sc !! node = Some b /\ drivenTransform b = Some d
    /\ blender_poses b = map_seq 0 ps /\ length ps = length ts
    /\ Forall (fun m : matrix => m <> []) ps
    /\ blenders (without_pose self k nodes sc) !! node = Some (drop_pose k b)
    /\ blender_poses (drop_pose k b) = map_seq 0 (delete k ps).
Proof.
  intros Hin. pose proof (wf_blenders _ _ _ _ wf) as Hb.
  rewrite Forall_forall in Hb. destruct (Hb node Hin) as (b & d & ps & H1 & H2 & H3 & H4 & H5).
  exists b, d, ps. repeat split; auto.
  - cbn. rewrite (lookup_foldl_alter _ _ _ _ nodes_NoDup), decide_True by exact Hin.
    now rewrite H1.
  - cbn. now rewrite H3, values_of_dense.
Qed.

Lemma without_pose_driven k node :
  driven_transform_of (without_pose self k nodes sc) node = driven_transform_of sc node.
Proof.
  unfold driven_transform_of. cbn.
  rewrite (lookup_foldl_alter _ _ _ _ nodes_NoDup).
  destruct (decide (node ∈ nodes)); [|reflexivity].
  now destruct (blenders sc !! node).
Qed.

(** The invariants hold again after the deletion. *)
Lemma without_pose_well_formed k :
  k < length ts ->
  well_formed (without_pose self k nodes sc)
              (with_targets (fun _ => map_seq 0 (rebuilt <$> delete k ts)) sv)
              (rebuilt <$> delete k ts) nodes.
Proof.
  intros Hk. split.
  - reflexivity.
  - apply Forall_fmap, Forall_delete.
    eapply Forall_impl; [exact (wf_target _ _ _ _ wf)|]. intros x Hx. exact Hx.
  - rewrite fmap_rebuilt_names, list_fmap_delete.
    eapply sublist_NoDup; [exact (wf_names _ _ _ _ wf) | apply sublist_delete].
  - exact (wf_drivers _ _ _ _ wf).
  - exact (wf_nodes _ _ _ _ wf).
  - apply Forall_forall. intros node Hin.
    destruct (without_pose_blender k node Hin) as (b & d & ps & H1 & H2 & H3 & H4 & H5 & H6 & H7).
    exists (drop_pose k b), d, (delete k ps). repeat split; auto.
    + rewrite length_fmap, !length_delete; [lia| |]; apply lookup_lt_is_Some; lia.
    + now apply Forall_delete.
  - rewrite (list_fmap_ext _ (driven_transform_of sc)); [exact (wf_driven _ _ _ _ wf)|].
    intros i x _. apply without_pose_driven.
Qed.

Lemma delete_pose_missing name :
  name ∉ targetName <$> ts ->
  delete_pose self name sc = (Raise (InvalidPose (Pose_does_not_exist name)), sc).
Proof.
  intros Hn. unfold delete_pose.
  rewrite bindM_query, (the_solver_ok _ _ _ Hs).
  rewrite bindM_query, (has_pose_dense _ _ _ _ well_formed_readable).
  now rewrite bool_decide_eq_false_2.
Qed.

Lemma delete_pose_present k t :
  ts !! k = Some t ->
  delete_pose self (targetName t) sc = (Ok tt, without_pose self k nodes sc).
Proof.
  intros Hk. pose proof well_formed_readable as rd.
  pose proof (lookup_lt_Some _ _ _ Hk) as Hlt.
  unfold delete_pose.
  rewrite bindM_query, (the_solver_ok _ _ _ Hs).
  rewrite bindM_query, (has_pose_dense _ _ _ _ rd).
  rewrite bool_decide_eq_true_2.
  2:{ apply list_elem_of_fmap. exists t. split; [reflexivity|].
      apply list_elem_of_lookup. eauto. }
  cbn [negb]. rewrite bindM_query, (poses_dense _ _ _ _ rd).
  rewrite (pose_index_dense _ _ _ _ rd k t Hk), Nat2Z.id.
  unfold pose_entries at 1. rewrite length_imap.
  rewrite (bindM_ok _ _ _ _ _ (update_solver_ok _ _ _ _ Hs)).
  rewrite (dict_pop_delete _ (pose_data_of sc nodes k t) _ k).
  2:{ rewrite pose_entries_keys. exact (wf_names _ _ _ _ wf). }
  2:{ unfold pose_entries. now rewrite list_lookup_imap, Hk. }
  rewrite bindM_query, (wf_nodes _ _ _ _ wf).
  set (s1 := set_solver self (with_targets (remove_range (length ts)) sv) sc).
  set (B := foldl (fun bs node => alter (drop_pose k) node bs) (blenders sc) nodes).
  assert (Hloop : for_each nodes (fun node => UEPoseBlenderNode.delete_pose node k) s1
                  = (Ok tt, with_nodes (solvers s1) B s1)).
  { apply blender_delete_loop; [exact nodes_NoDup|].
    eapply Forall_impl; [exact (wf_blenders _ _ _ _ wf)|].
    intros node (b & d & ps & H1 & H2 & H3 & H4 & H5).
    exists b, ps. repeat split; auto. lia. }
  rewrite (bindM_ok _ _ _ _ _ Hloop).
  replace (with_nodes (solvers s1) B s1) with (rebuilding self sv (rebuilt <$> []) B sc).
  2:{ unfold rebuilding, with_nodes, s1, set_solver. cbn. do 2 f_equal.
      unfold with_targets. now rewrite (wf_targets _ _ _ _ wf), remove_range_dense. }
  unfold pose_entries. rewrite delete_imap, without_pose_rebuilding.
  assert (Hbl : forall j t', delete k ts !! j = Some t' ->
            Forall (fun node => exists b d (m : matrix),
                      B !! node = Some b /\ drivenTransform b = Some d
                      /\ dict_get (Some d) (driven_of sc (index_before k j) nodes) = Some m
                      /\ m <> [] /\ blender_poses b !! j = Some m) nodes).
  { intros j t' Hj. apply Forall_forall. intros node Hin.
    destruct (without_pose_blender k node Hin) as (b & d & ps & H1 & H2 & H3 & H4 & H5 & H6 & H7).
    rewrite lookup_delete_before in Hj. apply lookup_lt_Some in Hj.
    destruct (lookup_lt_is_Some_2 ps (index_before k j)) as [m Hm]; [lia|].
    exists (drop_pose k b), d, m. repeat split.
    + exact H6.
    + exact H2.
    + rewrite (driven_of_get sc _ nodes node b d (wf_driven _ _ _ _ wf) Hin H1 H2).
      now rewrite H3, lookup_dense, Hm.
    + rewrite Forall_forall in H5. apply H5. apply list_elem_of_lookup. eauto.
    + now rewrite H7, lookup_dense, lookup_delete_before. }
  assert (Hnames : NoDup (targetName <$> delete k ts)).
  { rewrite list_fmap_delete.
    eapply sublist_NoDup; [exact (wf_names _ _ _ _ wf) | apply sublist_delete]. }
  exact (readd_loop self sv nodes sc sc B k (delete k ts)
           (Forall_delete _ _ _ (wf_target _ _ _ _ wf)) Hnames
           (wf_drivers _ _ _ _ wf) (wf_nodes _ _ _ _ wf) Hbl (delete k ts) [] eq_refl).
Qed.

End Delete.

Lemma not_elem_of_delete {A} (l : list A) k x :
  NoDup l -> l !! k = Some x -> x ∉ delete k l.
Proof.
  intros Hnd Hk Hin. apply list_elem_of_lookup in Hin as [j Hj].
  rewrite lookup_delete_before in Hj.
  pose proof (NoDup_lookup _ _ _ _ Hnd Hj Hk) as E.
  unfold index_before in E. destruct (decide (j < k)); lia.
Qed.

(** C6 (delete_pose contract).  On a solver that keeps the invariants of
    the data model (poses [ts] at the indices 0, 1, ..., with distinct
    non-empty names and one matrix per driver and per controller; Driven
    Bindings [nodes] that record one matrix per pose): when no pose is
    called [name], [delete_pose] raises InvalidPose 'Pose ... does not
    exist.' and leaves the scene as it was.  When the pose at index [k] is
    called [name], [delete_pose] succeeds; afterwards the solver has one
    pose less, has no pose called [name], holds every remaining pose at
    its compacted index under its name with the driver and controller
    matrices it had, every Driven Binding records the matrices it did
    without the one at [k], in the same order, the invariants hold again,
    and the transforms and the other solvers are untouched. *)
Theorem delete_pose_contract (self name : string) (sc : scene) (sv : solver)
        (ts : list target) (nodes : list string) :
  solvers sc !! self = Some sv ->
  well_formed sc sv ts nodes ->
  (name ∉ targetName <$> ts ->
     has_pose sc sv name = Ok false
     /\ delete_pose self name sc = (Raise (InvalidPose (Pose_does_not_exist name)), sc))
  /\ (forall k t, ts !! k = Some t -> targetName t = name ->
        exists sc' sv',
          has_pose sc sv name = Ok true
          /\ delete_pose self name sc = (Ok tt, sc')
          /\ solvers sc' !! self = Some sv'
          /\ num_poses sv' = num_poses sv - 1
          /\ has_pose sc' sv' name = Ok false
          /\ (forall j t', delete k ts !! j = Some t' ->
                pose_index sv' (targetName t') = Z.of_nat j
                /\ exists pd pd',
                     pose sc sv (targetName t') = Ok pd
                     /\ pose sc' sv' (targetName t') = Ok pd'
                     /\ pd_drivers pd' = pd_drivers pd
                     /\ pd_controllers pd' = pd_controllers pd)
          /\ Forall (fun node => exists ps,
                       UEPoseBlenderNode.get_poses node sc = Ok ps
                       /\ UEPoseBlenderNode.get_poses node sc' = Ok (delete k ps)) nodes
          /\ well_formed sc' sv' (rebuilt <$> delete k ts) nodes
          /\ transforms sc' = transforms sc
          /\ (forall other, other <> self -> solvers sc' !! other = solvers sc !! other)).
Proof.
  intros Hs wf. pose proof (well_formed_readable _ _ _ _ wf) as rd. split.
  - intros Hn. split.
    + rewrite (has_pose_dense _ _ _ _ rd). now rewrite bool_decide_eq_false_2.
    + now apply (delete_pose_missing self sc sv ts nodes).
  - intros k t Hk <-.
    pose proof (lookup_lt_Some _ _ _ Hk) as Hlt.
    pose proof (without_pose_well_formed self sc sv ts nodes wf k Hlt) as wf'.
    pose proof (well_formed_readable _ _ _ _ wf') as rd'.
    exists (without_pose self k nodes sc),
           (with_targets (fun _ => map_seq 0 (rebuilt <$> delete k ts)) sv).
    split; [|split; [|split; [|split; [|split; [|split; [|split; [|split; [|split]]]]]]]].
    + rewrite (has_pose_dense _ _ _ _ rd). rewrite bool_decide_eq_true_2; [reflexivity|].
      apply list_elem_of_fmap. exists t. split; [reflexivity|].
      apply list_elem_of_lookup. eauto.
    + now apply (delete_pose_present self sc sv ts nodes).
    + now apply (without_pose_solver self sc sv ts nodes).
    + rewrite (num_poses_dense _ _ _ _ rd'), (num_poses_dense _ _ _ _ rd).
      rewrite length_fmap. apply length_delete. eauto.
    + rewrite (has_pose_dense _ _ _ _ rd'), fmap_rebuilt_names, list_fmap_delete.
      rewrite bool_decide_eq_false_2; [reflexivity|].
      apply not_elem_of_delete; [exact (wf_names _ _ _ _ wf)|].
      now rewrite list_lookup_fmap, Hk.
    + intros j t' Hj.
      assert (Hj' : (rebuilt <$> delete k ts) !! j = Some (rebuilt t'))
        by (now rewrite list_lookup_fmap, Hj).
      split; [exact (pose_index_dense _ _ _ _ rd' j (rebuilt t') Hj')|].
      exists (pose_data_of sc nodes (index_before k j) t'),
             (pose_data_of (without_pose self k nodes sc) nodes j (rebuilt t')).
      split; [|split; [|split; reflexivity]].
      * apply (pose_dense _ _ _ _ rd). now rewrite <- lookup_delete_before.
      * exact (pose_dense _ _ _ _ rd' j (rebuilt t') Hj').
    + apply Forall_forall. intros node Hin.
      destruct (without_pose_blender self sc sv ts nodes wf k node Hin)
        as (b & d & ps & H1 & H2 & H3 & H4 & H5 & H6 & H7).
      exists ps. unfold UEPoseBlenderNode.get_poses, the_blender.
      rewrite H1, H6. cbn [bind]. now rewrite H7, H3, !values_of_dense.
    + exact wf'.
    + reflexivity.
    + intros other Hne. cbn. now rewrite lookup_alter_ne by congruence.
Qed.

Lemma scenario_A_well_formed : well_formed scenario_A solver_A poses_A nodes_A.
Proof.
  split.
  - vm_compute. reflexivity.
  - apply Forall_lookup. intros i t Hi.
    destruct i as [|[|i]]; [| |vm_compute in Hi; discriminate];
      vm_compute in Hi; injection Hi as <-;
      (split; [discriminate|]); split.
    + exists [identity_matrix]. split; vm_compute; reflexivity.
    + exists []. split; vm_compute; reflexivity.
    + exists [rotate_z_45]. split; vm_compute; reflexivity.
    + exists []. split; vm_compute; reflexivity.
  - vm_compute. repeat constructor; rewrite ?elem_of_cons, ?elem_of_nil; intuition discriminate.
  - vm_compute. discriminate.
  - vm_compute. reflexivity.
  - repeat constructor.
    exists {| drivenTransform := Some "J_l_elbow";
              blender_poses := map_seq 0 [rotate_z_45; rotate_z_45];
              outMatrix_connected := false |},
           "J_l_elbow", [rotate_z_45; rotate_z_45].
    split; [vm_compute; reflexivity|]. split; [reflexivity|]. split; [reflexivity|].
    split; [vm_compute; reflexivity|]. repeat constructor; discriminate.
  - vm_compute. repeat constructor. rewrite elem_of_nil. tauto.
Qed.

Lemma delete_pose_contract_witness :
  solvers scenario_A !! "arm_l_UERBFSolver" = Some solver_A
  /\ well_formed scenario_A solver_A poses_A nodes_A
  /\ (targetName <$> poses_A) !! 1 = Some "raised"
  /\ exists sc' sv' m,
       delete_pose "arm_l_UERBFSolver" "raised" scenario_A = (Ok tt, sc')
       /\ solvers sc' !! "arm_l_UERBFSolver" = Some sv'
       /\ num_poses sv' = 1
       /\ has_pose sc' sv' "raised" = Ok false
       /\ UEPoseBlenderNode.get_poses "J_l_elbow_UEPoseBlenderNode" sc' = Ok [m].
Proof.
  assert (H : solvers scenario_A !! "arm_l_UERBFSolver" = Some solver_A)
    by (vm_compute; reflexivity).
  assert (Hn : (targetName <$> poses_A) !! 1 = Some "raised") by (vm_compute; reflexivity).
  split; [exact H|]. split; [exact scenario_A_well_formed|]. split; [exact Hn|].
  destruct (poses_A !! 1) as [t|] eqn:Ht;
    [|exfalso; revert Ht; vm_compute; discriminate].
  assert (Hname : targetName t = "raised").
  { rewrite list_lookup_fmap, Ht in Hn. now injection Hn. }
  destruct (proj2 (delete_pose_contract "arm_l_UERBFSolver" "raised" scenario_A solver_A
                     poses_A nodes_A H scenario_A_well_formed) 1 t Ht Hname)
    as (sc' & sv' & _ & Hdel & Hsv & Hnum & Hhas & _ & Hbl & _).
  apply Forall_cons in Hbl as [(ps & Hps & Hps') _].
  assert (Eps : ps = [rotate_z_45; rotate_z_45]).
  { revert Hps. vm_compute. congruence. }
  subst ps.
  exists sc', sv', rotate_z_45. repeat split; auto.
Defined.

End PoseFacts.

(* ================================================================== *)
(** * Further properties of the pose queries *)
(* ================================================================== *)

Module QueryFacts.
Import Scene Host RBFNode SparseFacts Examples Invariants SceneFacts PoseFacts.
Local Open Scope list_scope.
Local Open Scope nat_scope.

Lemma scenario_A_readable : readable scenario_A solver_A poses_A nodes_A.
Proof. exact (well_formed_readable _ _ _ _ scenario_A_well_formed). Qed.

Lemma scenario_A_names : targetName <$> poses_A = ["default"; "raised"].
Proof. vm_compute. reflexivity. Qed.

Lemma ghost_not_in_A : "ghost" ∉ targetName <$> poses_A.
Proof.
  rewrite scenario_A_names. intros H.
  repeat (apply elem_of_cons in H as [H|H]; [discriminate|]).
  now apply elem_of_nil in H.
Qed.

Lemma pose_entries_lookup sc nodes (ts : list target) i t :
  NoDup (targetName <$> ts) -> ts !! i = Some t ->
  dict_get (targetName t) (pose_entries sc nodes 0 ts) = Some (pose_data_of sc nodes i t).
Proof.
  intros Hnd Hi. revert i t Hnd Hi.
  induction ts as [|x ts IH] using rev_ind; intros i t Hnd Hi; [discriminate|].
  rewrite pose_entries_snoc.
  rewrite fmap_app in Hnd. apply NoDup_app in Hnd as (Hnd & Hdisj & _).
  destruct (decide (i < length ts)) as [Hlt|Hge].
  - rewrite lookup_app_l in Hi by exact Hlt.
    rewrite dict_get_app_other; [now apply IH|].
    intros Heq. apply (Hdisj (targetName t)).
    + apply list_elem_of_fmap. exists t. split; [reflexivity|].
      apply list_elem_of_lookup. eauto.
    + rewrite Heq. cbn. apply elem_of_cons. now left.
  - pose proof (lookup_lt_Some _ _ _ Hi) as Hlen. rewrite length_app in Hlen. cbn in Hlen.
    assert (i = length ts) by lia. subst i.
    rewrite list_lookup_middle in Hi by reflexivity. injection Hi as <-.
    apply dict_get_app_fresh. rewrite pose_entries_keys.
    intros Hin. apply (Hdisj _ Hin). cbn. apply elem_of_cons. now left.
Qed.

(** X1.  On a solver whose poses [ts] sit at the indices 0, 1, ... under
    distinct non-empty names, [pose_index] is the index of the pose with
    the name, and -1 for a name that no pose has. *)
Theorem pose_index_spec (sc : scene) (sv : solver) (ts : list target)
        (nodes : list string) :
  readable sc sv ts nodes ->
  (forall i t, ts !! i = Some t -> pose_index sv (targetName t) = Z.of_nat i)
  /\ (forall name, name ∉ targetName <$> ts -> pose_index sv name = (-1)%Z).
Proof.
  intros rd. split.
  - intros i t. apply (pose_index_dense _ _ _ _ rd).
  - intros name. apply (pose_index_missing _ _ _ _ rd).
Qed.

Lemma pose_index_spec_witness :
  readable scenario_A solver_A poses_A nodes_A
  /\ pose_index solver_A "raised" = 1%Z
  /\ pose_index solver_A "ghost" = (-1)%Z.
Proof.
  split; [exact scenario_A_readable|].
  destruct (pose_index_spec scenario_A solver_A poses_A nodes_A scenario_A_readable)
    as [Hfound Hmissing].
  split.
  - destruct (poses_A !! 1) as [t|] eqn:Ht; [|exfalso; revert Ht; vm_compute; discriminate].
    assert (Hn : targetName t = "raised") by (revert Ht; vm_compute; intros [= <-]; reflexivity).
    rewrite <- Hn. exact (Hfound 1 t Ht).
  - apply Hmissing. exact ghost_not_in_A.
Defined.

(** X2.  On such a solver [poses()] returns one entry per pose, keyed by
    the pose names in index order, each entry holding the driver and
    controller matrices and the enabled flag stored at its index;
    [has_pose] holds exactly of these names. *)
Theorem poses_spec (sc : scene) (sv : solver) (ts : list target)
        (nodes : list string) :
  readable sc sv ts nodes ->
  exists ps, poses sc sv = Ok ps
    /\ dict_keys ps = targetName <$> ts
    /\ (forall i t, ts !! i = Some t ->
          exists pd, ps !! i = Some (targetName t, pd)
            /\ dict_get (targetName t) ps = Some pd
            /\ pd_drivers pd = values_of (targetValues t)
            /\ pd_controllers pd = values_of (targetControllers t)
            /\ pd_target_enable pd = targetEnable t)
    /\ (forall name, has_pose sc sv name = Ok (bool_decide (name ∈ targetName <$> ts))).
Proof.
  intros rd. exists (pose_entries sc nodes 0 ts).
  split; [exact (poses_dense _ _ _ _ rd)|].
  split; [apply pose_entries_keys|]. split.
  - intros i t Hi. exists (pose_data_of sc nodes i t).
    split; [unfold pose_entries; now rewrite list_lookup_imap, Hi|].
    split; [exact (pose_entries_lookup _ _ _ _ _ (rd_names _ _ _ _ rd) Hi)|].
    repeat split.
  - intros name. apply (has_pose_dense _ _ _ _ rd).
Qed.

Lemma poses_spec_witness :
  readable scenario_A solver_A poses_A nodes_A
  /\ exists ps, poses scenario_A solver_A = Ok ps
       /\ dict_keys ps = ["default"; "raised"]
       /\ has_pose scenario_A solver_A "raised" = Ok true.
Proof.
  split; [exact scenario_A_readable|].
  destruct (poses_spec scenario_A solver_A poses_A nodes_A scenario_A_readable)
    as (ps & Hps & Hkeys & _ & Hhas).
  exists ps. split; [exact Hps|]. split.
  - rewrite Hkeys. exact scenario_A_names.
  - rewrite Hhas, scenario_A_names. reflexivity.
Defined.

(** X3.  [pose(name)] raises InvalidPose 'Pose ... not found' for a name
    that no pose has; for the pose at index [i] it returns the driver and
    controller matrices stored there and, for every Driven Binding, the
    matrix its pose blender node records at [i]. *)
Theorem pose_spec (sc : scene) (sv : solver) (ts : list target)
        (nodes : list string) :
  readable sc sv ts nodes ->
  (forall name, name ∉ targetName <$> ts ->
     pose sc sv name = Raise (InvalidPose (Pose_not_found name)))
  /\ (forall i t, ts !! i = Some t ->
        exists pd, pose sc sv (targetName t) = Ok pd
          /\ pd_drivers pd = values_of (targetValues t)
          /\ pd_controllers pd = values_of (targetControllers t)
          /\ (NoDup (driven_transform_of sc <$> nodes) ->
              forall node b d, node ∈ nodes -> blenders sc !! node = Some b ->
                drivenTransform b = Some d ->
                dict_get (Some d) (pd_driven pd)
                = Some (default identity_matrix (blender_poses b !! i)))).
Proof.
  intros rd. split.
  - intros name Hn. unfold pose.
    now rewrite (pose_index_missing _ _ _ _ rd name Hn).
  - intros i t Hi. exists (pose_data_of sc nodes i t).
    split; [exact (pose_dense _ _ _ _ rd i t Hi)|]. repeat split.
    intros Hnd node b d Hin Hb Hd. cbn.
    exact (driven_of_get sc i nodes node b d Hnd Hin Hb Hd).
Qed.

Lemma pose_spec_witness :
  readable scenario_A solver_A poses_A nodes_A
  /\ pose scenario_A solver_A "ghost" = Raise (InvalidPose (Pose_not_found "ghost")).
Proof.
  split; [exact scenario_A_readable|].
  apply (proj1 (pose_spec scenario_A solver_A poses_A nodes_A scenario_A_readable)).
  exact ghost_not_in_A.
Defined.

End QueryFacts.

(* ================================================================== *)
(** * Properties of the pose blender wrapper *)
(* ================================================================== *)

Module BlenderFacts.
Import Scene Host RBFNode SparseFacts Examples Invariants SceneFacts PoseFacts.
Local Open Scope list_scope.
Local Open Scope nat_scope.

Lemma get_poses_dense node sc b (ps : list matrix) :
  blenders sc !! node = Some b -> blender_poses b = map_seq 0 ps ->
  UEPoseBlenderNode.get_poses node sc = Ok ps.
Proof.
  intros Hb Hp. unfold UEPoseBlenderNode.get_poses, the_blender.
  rewrite Hb. cbn [bind]. now rewrite Hp, values_of_dense.
Qed.

(** X4.  [UEPoseBlenderNode.delete_pose(index)] on a node that records the
    matrices [ps] at the indices 0, 1, ...: with an index below their
    number the node records the same matrices without the one at the
    index, in the same order, and no other node changes; with a larger
    index the call raises IndexError (pop index out of range) after the
    attribute has been emptied, so the node is left with no recorded
    pose. *)
Theorem blender_delete_pose_spec (node : string) (k : nat) (sc : scene)
        (b : blender) (ps : list matrix) :
  blenders sc !! node = Some b ->
  blender_poses b = map_seq 0 ps ->
  (k < length ps ->
     exists sc', UEPoseBlenderNode.delete_pose node k sc = (Ok tt, sc')
       /\ UEPoseBlenderNode.get_poses node sc' = Ok (delete k ps)
       /\ UEPoseBlenderNode.driven_transform node sc' = Ok (drivenTransform b)
       /\ transforms sc' = transforms sc
       /\ (forall other, other <> node -> blenders sc' !! other = blenders sc !! other))
  /\ (length ps <= k ->
        exists sc', UEPoseBlenderNode.delete_pose node k sc
                    = (Raise (IndexError pop_index_out_of_range), sc')
          /\ UEPoseBlenderNode.get_poses node sc' = Ok []).
Proof.
  intros Hb Hp. split.
  - intros Hk. eexists. split; [exact (blender_delete_pose_ok _ _ _ _ _ Hb Hp Hk)|].
    assert (Hb' : alter (drop_pose k) node (blenders sc) !! node = Some (drop_pose k b))
      by (now rewrite lookup_alter_eq, Hb).
    split; [|split; [|split]].
    + apply (get_poses_dense _ _ (drop_pose k b)); [exact Hb'|].
      cbn. now rewrite Hp, values_of_dense.
    + unfold UEPoseBlenderNode.driven_transform, the_blender. cbn [blenders with_nodes].
      now rewrite Hb'.
    + reflexivity.
    + intros other Hne. cbn. now rewrite lookup_alter_ne by congruence.
  - intros Hk. unfold UEPoseBlenderNode.delete_pose.
    rewrite bindM_query, (get_poses_dense _ _ _ _ Hb Hp).
    rewrite (bindM_ok _ _ _ _ _ (update_blender_ok _ _ _ _ Hb)).
    rewrite bindM_query. unfold UEPoseBlenderNode.list_pop.
    rewrite decide_False by lia.
    eexists. split; [reflexivity|].
    unfold UEPoseBlenderNode.get_poses, the_blender. cbn [blenders set_blender].
    rewrite lookup_insert_eq. cbn. now rewrite Hp, remove_range_dense.
Qed.

Lemma blender_delete_pose_spec_witness :
  exists b sc',
    blenders scenario_A !! "J_l_elbow_UEPoseBlenderNode" = Some b
    /\ blender_poses b = map_seq 0 [rotate_z_45; rotate_z_45]
    /\ UEPoseBlenderNode.delete_pose "J_l_elbow_UEPoseBlenderNode" 2 scenario_A
       = (Raise (IndexError pop_index_out_of_range), sc')
    /\ UEPoseBlenderNode.get_poses "J_l_elbow_UEPoseBlenderNode" sc' = Ok [].
Proof.
  destruct (blenders scenario_A !! "J_l_elbow_UEPoseBlenderNode") as [b|] eqn:Hb;
    [|exfalso; revert Hb; vm_compute; discriminate].
  assert (Hp : blender_poses b = map_seq 0 [rotate_z_45; rotate_z_45])
    by (revert Hb; vm_compute; intros [= <-]; reflexivity).
  destruct (proj2 (blender_delete_pose_spec "J_l_elbow_UEPoseBlenderNode" 2 scenario_A b
                     [rotate_z_45; rotate_z_45] Hb Hp)) as (sc' & H1 & H2);
    [cbn; lia|].
  exists b, sc'. auto.
Defined.

(** X5.  [set_pose(index, matrix)] followed by [get_pose(index)] reads the
    matrix back; every other index of the node and every other node read
    as before, and no transform moves.  Without a matrix the node records
    the current local matrix of its driven transform. *)
Theorem set_pose_get_pose (node : string) (i : nat) (sc : scene) (b : blender) :
  blenders sc !! node = Some b ->
  (forall m : matrix,
     exists sc', UEPoseBlenderNode.set_pose node i (Some m) sc = (Ok tt, sc')
       /\ UEPoseBlenderNode.get_pose node i sc' = Ok m
       /\ (forall j, j <> i -> UEPoseBlenderNode.get_pose node j sc'
                               = UEPoseBlenderNode.get_pose node j sc)
       /\ (forall other j, other <> node ->
             UEPoseBlenderNode.get_pose other j sc' = UEPoseBlenderNode.get_pose other j sc)
       /\ transforms sc' = transforms sc)
  /\ (forall d (cur : matrix), drivenTransform b = Some d -> transforms sc !! d = Some cur ->
        exists sc', UEPoseBlenderNode.set_pose node i None sc = (Ok tt, sc')
          /\ UEPoseBlenderNode.get_pose node i sc' = Ok cur).
Proof.
  intros Hb.
  assert (Hset : forall m : matrix,
            UEPoseBlenderNode.set_pose node i (Some m) sc
            = (Ok tt, set_blender node (UEPoseBlenderNode.with_poses (insert i m) b) sc)).
  { intros m. unfold UEPoseBlenderNode.set_pose. rewrite bindM_ret.
    now apply update_blender_ok. }
  assert (Hget : forall m : matrix,
            UEPoseBlenderNode.get_pose node i
              (set_blender node (UEPoseBlenderNode.with_poses (insert i m) b) sc) = Ok m).
  { intros m. unfold UEPoseBlenderNode.get_pose, the_blender. cbn [blenders set_blender].
    rewrite lookup_insert_eq. cbn. now rewrite lookup_insert_eq. }
  split.
  - intros m. eexists. split; [apply Hset|]. split; [apply Hget|]. split; [|split].
    + intros j Hj. unfold UEPoseBlenderNode.get_pose, the_blender. cbn [blenders set_blender].
      rewrite lookup_insert_eq, Hb. cbn. now rewrite lookup_insert_ne by congruence.
    + intros other j Hne. unfold UEPoseBlenderNode.get_pose, the_blender.
      cbn [blenders set_blender]. now rewrite lookup_insert_ne by congruence.
    + reflexivity.
  - intros d cur Hd Hcur. eexists. split; [|apply (Hget cur)].
    unfold UEPoseBlenderNode.set_pose.
    rewrite (bindM_ok _ _ sc cur sc).
    + now apply update_blender_ok.
    + rewrite bindM_query. unfold UEPoseBlenderNode.driven_transform, the_blender.
      rewrite Hb. cbn [bind]. rewrite Hd. unfold query, xform_query. now rewrite Hcur.
Qed.

Lemma set_pose_get_pose_witness :
  exists b sc',
    blenders scenario_A !! "J_l_elbow_UEPoseBlenderNode" = Some b
    /\ UEPoseBlenderNode.set_pose "J_l_elbow_UEPoseBlenderNode" 5 (Some identity_matrix)
         scenario_A = (Ok tt, sc')
    /\ UEPoseBlenderNode.get_pose "J_l_elbow_UEPoseBlenderNode" 5 sc' = Ok identity_matrix.
Proof.
  destruct (blenders scenario_A !! "J_l_elbow_UEPoseBlenderNode") as [b|] eqn:Hb;
    [|exfalso; revert Hb; vm_compute; discriminate].
  destruct (proj1 (set_pose_get_pose "J_l_elbow_UEPoseBlenderNode" 5 scenario_A b Hb)
              identity_matrix) as (sc' & H1 & H2 & _).
  exists b, sc'. auto.
Defined.





End BlenderFacts.

(* ================================================================== *)
(** * Properties of the writing calls of RBFNode *)
(* ================================================================== *)

Module WriteFacts.
Import Scene Host RBFNode SparseFacts Examples Invariants Outcomes SceneFacts PoseFacts.
Local Open Scope list_scope.
Local Open Scope nat_scope.

Lemma snapshot_loop j (ns : list string) : forall s,
  NoDup ns ->
  Forall (fun node => exists b d (cur : matrix),
            blenders s !! node = Some b /\ drivenTransform b = Some d
            /\ transforms s !! d = Some cur) ns ->
  for_each ns (add_pose_on_blender j None) s
  = (Ok tt, with_nodes (solvers s)
              (foldl (fun bs node => alter (snapshot (transforms s) j) node bs)
                     (blenders s) ns) s).
Proof.
  induction ns as [|node ns IH]; intros s Hnd Hb.
  - cbn. now destruct s.
  - apply NoDup_cons in Hnd as [Hnotin Hnd].
    apply Forall_cons in Hb as [(b & d & cur & Hb & Hd & Hcur) Hrest].
    cbn [for_each foldl].
    assert (Hstep : add_pose_on_blender j None node s
                    = (Ok tt, with_nodes (solvers s)
                                (alter (snapshot (transforms s) j) node (blenders s)) s)).
    { unfold add_pose_on_blender. rewrite bindM_query.
      unfold UEPoseBlenderNode.driven_transform, the_blender. rewrite Hb. cbn [bind truthy].
      unfold UEPoseBlenderNode.add_pose_from_current. rewrite bindM_query.
      unfold UEPoseBlenderNode.driven_transform, the_blender. rewrite Hb. cbn [bind].
      rewrite Hd, bindM_query. unfold xform_query. rewrite Hcur.
      unfold UEPoseBlenderNode.set_pose. rewrite bindM_ret.
      rewrite (update_blender_ok _ _ _ _ Hb). f_equal.
      unfold set_blender, with_nodes. f_equal.
      rewrite <- (insert_id _ _ _ Hb) at 2. rewrite alter_insert_eq. f_equal.
      unfold snapshot. rewrite Hd. cbn. now rewrite Hcur. }
    rewrite (bindM_ok _ _ _ _ _ Hstep).
    rewrite IH; [reflexivity | exact Hnd |].
    rewrite Forall_forall in Hrest. apply Forall_forall. intros n Hn.
    destruct (Hrest n Hn) as (b' & d' & cur' & Hb' & Hd' & Hcur').
    exists b', d', cur'. split; [|auto]. cbn.
    rewrite lookup_alter_ne; [exact Hb'|]. intros ->. contradiction.
Qed.

Lemma target_writes j name (ms cms : list matrix) enable (tg : gmap nat target) :
  tg !! j = None ->
  write_target j (set_targetEnable enable)
    (write_target j (set_targetName name)
       (write_target j (set_targetControllers cms)
          (write_target j (set_targetValues ms) tg)))
  = <[j := new_target name ms cms enable]> tg.
Proof.
  intros Hj. rewrite (write_target_fresh _ _ tg Hj), !write_target_again. f_equal.
  unfold new_target, set_targetEnable, set_targetName, set_targetControllers,
    set_targetValues. cbn. now rewrite !set_all_empty.
Qed.

Lemma target_writes_no_controllers j name (ms : list matrix) enable (tg : gmap nat target) :
  tg !! j = None ->
  write_target j (set_targetEnable enable)
    (write_target j (set_targetName name)
       (write_target j (set_targetValues ms) tg))
  = <[j := new_target name ms [] enable]> tg.
Proof.
  intros Hj. rewrite (write_target_fresh _ _ tg Hj), !write_target_again. f_equal.
  unfold new_target, set_targetEnable, set_targetName, set_targetValues. cbn.
  now rewrite !set_all_empty.
Qed.

Lemma update_solver_with_nodes self f S B s sv :
  S !! self = Some sv ->
  update_solver self f (with_nodes S B s) = (Ok tt, with_nodes (<[self := f sv]> S) B s).
Proof. intros H. unfold update_solver. cbn [solvers with_nodes]. now rewrite H. Qed.

(** [add_pose] with matrices of the right arity and a fresh name, on a
    well-formed solver whose driven transforms exist. *)
Lemma add_pose_ok (self name : string) (drivers_arg : option (list string))
      (ms : list matrix) (cm : option (list matrix)) (enable : bool)
      (sc : scene) (sv : solver) (ts : list target) (nodes : list string) :
  solvers sc !! self = Some sv ->
  well_formed sc sv ts nodes ->
  name ∉ targetName <$> ts ->
  length ms = num_drivers sv ->
  length (default [] cm) = num_controllers sv ->
  Forall (fun node => exists b d (cur : matrix),
            blenders sc !! node = Some b /\ drivenTransform b = Some d
            /\ transforms sc !! d = Some cur) nodes ->
  add_pose self name drivers_arg (Some ms) cm None enable sc
  = (Ok tt, with_pose self sv ts nodes (new_target name ms (default [] cm) enable) sc).
Proof.
  intros Hs wf Hfresh Hlv Hlc Hcur.
  pose proof (well_formed_readable _ _ _ _ wf) as rd.
  unfold add_pose.
  rewrite (bool_decide_eq_false_2 (Some ms = None)) by discriminate.
  rewrite andb_false_r, bindM_ret, bindM_query, (the_solver_ok _ _ _ Hs).
  destruct (num_drivers sv =? 0) eqn:E;
    [apply Nat.eqb_eq in E; now destruct (rd_drivers _ _ _ _ rd)|].
  rewrite bindM_query, (has_pose_dense _ _ _ _ rd), bool_decide_eq_false_2 by assumption.
  rewrite Hlv, Nat.eqb_refl. cbn [negb]. rewrite Hlc, Nat.eqb_refl.
  cbn [negb]. rewrite andb_false_r.
  rewrite (num_poses_dense _ _ _ _ rd).
  assert (Hnone : targets sv !! length ts = None).
  { rewrite (rd_targets _ _ _ _ rd), lookup_dense. now apply lookup_ge_None. }
  assert (Hloop : forall sv1,
            for_each nodes (add_pose_on_blender (length ts) None) (set_solver self sv1 sc)
            = (Ok tt, with_nodes (<[self := sv1]> (solvers sc))
                        (foldl (fun bs node => alter (snapshot (transforms sc) (length ts)) node bs)
                               (blenders sc) nodes) sc)).
  { intros sv1.
    exact (snapshot_loop (length ts) nodes (set_solver self sv1 sc)
             (nodes_NoDup _ _ _ _ wf) Hcur). }
  assert (Hend : forall tg,
            tg = <[length ts := new_target name ms (default [] cm) enable]> (targets sv) ->
            with_nodes (<[self := with_targets (fun _ => tg) sv]> (solvers sc))
              (foldl (fun bs node => alter (snapshot (transforms sc) (length ts)) node bs)
                     (blenders sc) nodes) sc
            = with_pose self sv ts nodes (new_target name ms (default [] cm) enable) sc).
  { intros tg ->. unfold with_pose. do 3 f_equal.
    now rewrite (rd_targets _ _ _ _ rd), dense_snoc. }
  destruct (truthy cm) eqn:Et.
  - cbn [negb andb]. rewrite andb_false_r.
    rewrite (bindM_ok _ _ _ _ _ (update_solver_ok _ _ _ _ Hs)).
    rewrite (bindM_ok _ _ _ _ _ (update_solver_set _ _ _ _)).
    rewrite bindM_query, (rd_nodes _ _ _ _ rd).
    rewrite (bindM_ok _ _ _ _ _ (Hloop _)).
    rewrite (bindM_ok _ _ _ _ _ (update_solver_with_nodes _ _ _ _ _ _ (lookup_insert_eq _ _ _))).
    rewrite (update_solver_with_nodes _ _ _ _ _ _ (lookup_insert_eq _ _ _)).
    rewrite !insert_insert_eq. f_equal. apply Hend.
    cbn [targets with_targets]. now apply target_writes.
  - assert (Hcm : default [] cm = []) by (now destruct cm as [[|]|]).
    rewrite Hcm in Hlc. cbn in Hlc. rewrite <- Hlc. cbn [Nat.eqb negb andb].
    rewrite (bindM_ok _ _ _ _ _ (update_solver_ok _ _ _ _ Hs)).
    rewrite bindM_ret, bindM_query, (rd_nodes _ _ _ _ rd).
    rewrite (bindM_ok _ _ _ _ _ (Hloop _)).
    rewrite (bindM_ok _ _ _ _ _ (update_solver_with_nodes _ _ _ _ _ _ (lookup_insert_eq _ _ _))).
    rewrite (update_solver_with_nodes _ _ _ _ _ _ (lookup_insert_eq _ _ _)).
    rewrite !insert_insert_eq. f_equal. apply Hend.
    cbn [targets with_targets]. rewrite Hcm. now apply target_writes_no_controllers.
Qed.

Lemma with_pose_blender self sv ts nodes t sc node b d (cur : matrix) :
  NoDup nodes -> node ∈ nodes ->
  blenders sc !! node = Some b -> drivenTransform b = Some d ->
  transforms sc !! d = Some cur ->
  blenders (with_pose self sv ts nodes t sc) !! node
  = Some (UEPoseBlenderNode.with_poses (insert (length ts) cur) b).
Proof.
  intros Hnd Hin Hb Hd Hcur. cbn.
  rewrite (lookup_foldl_alter _ _ _ _ Hnd), decide_True by exact Hin.
  rewrite Hb. cbn. f_equal. unfold snapshot. rewrite Hd. cbn. now rewrite Hcur.
Qed.

Lemma with_pose_driven self sv ts nodes t sc node :
  NoDup nodes ->
  driven_transform_of (with_pose self sv ts nodes t sc) node = driven_transform_of sc node.
Proof.
  intros Hnd. unfold driven_transform_of. cbn.
  rewrite (lookup_foldl_alter _ _ _ _ Hnd).
  destruct (decide (node ∈ nodes)); [|reflexivity].
  destruct (blenders sc !! node) as [b|]; [|reflexivity]. cbn.
  unfold snapshot. now destruct (_ ≫= _).
Qed.

(** X8.  [add_pose] with a fresh non-empty name, one matrix per driver
    and one per controller, on a solver that keeps the invariants and
    whose driven transforms exist, succeeds and keeps the invariants: the
    new pose sits at the next index (the old pose count) with the given
    matrices and enabled flag, the other poses keep their indices, every
    Driven Binding records the current local matrix of its transform as
    one more pose, and no transform moves. *)
Theorem add_pose_appends (self name : string) (drivers_arg : option (list string))
        (ms : list matrix) (cm : option (list matrix)) (enable : bool)
        (sc : scene) (sv : solver) (ts : list target) (nodes : list string) :
  solvers sc !! self = Some sv ->
  well_formed sc sv ts nodes ->
  name <> "" ->
  name ∉ targetName <$> ts ->
  length ms = num_drivers sv ->
  length (default [] cm) = num_controllers sv ->
  Forall (fun node => exists b d (cur : matrix),
            blenders sc !! node = Some b /\ drivenTransform b = Some d
            /\ transforms sc !! d = Some cur /\ cur <> []) nodes ->
  exists sc' sv',
    add_pose self name drivers_arg (Some ms) cm None enable sc = (Ok tt, sc')
    /\ solvers sc' !! self = Some sv'
    /\ well_formed sc' sv' (ts ++ [new_target name ms (default [] cm) enable]) nodes
    /\ num_poses sv' = num_poses sv + 1
    /\ has_pose sc' sv' name = Ok true
    /\ pose_index sv' name = Z.of_nat (num_poses sv)
    /\ (forall i t, ts !! i = Some t -> pose_index sv' (targetName t) = Z.of_nat i)
    /\ (exists pd, pose sc' sv' name = Ok pd
          /\ pd_drivers pd = ms /\ pd_controllers pd = default [] cm
          /\ pd_target_enable pd = enable)
    /\ Forall (fun node => exists (ps : list matrix) d (cur : matrix),
                 UEPoseBlenderNode.get_poses node sc = Ok ps
                 /\ UEPoseBlenderNode.driven_transform node sc = Ok (Some d)
                 /\ transforms sc !! d = Some cur
                 /\ UEPoseBlenderNode.get_poses node sc' = Ok (ps ++ [cur])) nodes
    /\ transforms sc' = transforms sc.
Proof.
  intros Hs wf Hname Hfresh Hlv Hlc Hcur.
  pose proof (well_formed_readable _ _ _ _ wf) as rd.
  pose proof (nodes_NoDup _ _ _ _ wf) as Hnd.
  set (t := new_target name ms (default [] cm) enable).
  set (sc' := with_pose self sv ts nodes t sc).
  set (sv' := with_targets (fun _ => map_seq 0 (ts ++ [t])) sv).
  assert (Hnodes : forall node, node ∈ nodes ->
            exists b d (cur : matrix) (ps : list matrix),
              blenders sc !! node = Some b /\ drivenTransform b = Some d
              /\ transforms sc !! d = Some cur /\ cur <> []
              /\ blender_poses b = map_seq 0 ps /\ length ps = length ts
              /\ Forall (fun m : matrix => m <> []) ps
              /\ blenders sc' !! node
                 = Some (UEPoseBlenderNode.with_poses (insert (length ts) cur) b)).
  { intros node Hin. rewrite Forall_forall in Hcur.
    destruct (Hcur node Hin) as (b & d & cur & Hb & Hd & Hc & Hne).
    pose proof (wf_blenders _ _ _ _ wf) as Hbb. rewrite Forall_forall in Hbb.
    destruct (Hbb node Hin) as (b' & d' & ps & Hb' & _ & Hp & Hl & Hf).
    rewrite Hb in Hb'. injection Hb' as <-.
    exists b, d, cur, ps. repeat split; auto.
    now apply (with_pose_blender self sv ts nodes t sc node b d cur). }
  assert (wf' : well_formed sc' sv' (ts ++ [t]) nodes).
  { split.
    - reflexivity.
    - apply Forall_app. split.
      + eapply Forall_impl; [exact (wf_target _ _ _ _ wf)|]. intros x Hx. exact Hx.
      + repeat constructor; [exact Hname| |].
        * exists ms. split; [reflexivity | exact Hlv].
        * exists (default [] cm). split; [reflexivity | exact Hlc].
    - rewrite fmap_app. apply NoDup_app. split; [exact (wf_names _ _ _ _ wf)|]. split.
      + intros x Hx Hin. cbn in Hin. apply list_elem_of_singleton in Hin. now subst.
      + cbn. apply NoDup_singleton.
    - exact (wf_drivers _ _ _ _ wf).
    - exact (wf_nodes _ _ _ _ wf).
    - apply Forall_forall. intros node Hin.
      destruct (Hnodes node Hin) as (b & d & cur & ps & Hb & Hd & Hc & Hne & Hp & Hl & Hf & Hb').
      eexists _, d, (ps ++ [cur]). split; [exact Hb'|]. split; [exact Hd|]. split; [|split].
      + cbn. rewrite Hp, <- Hl. apply dense_snoc.
      + rewrite !length_app. cbn. lia.
      + apply Forall_app. split; [exact Hf|]. now repeat constructor.
    - rewrite (list_fmap_ext _ (driven_transform_of sc)); [exact (wf_driven _ _ _ _ wf)|].
      intros i x _. now apply with_pose_driven. }
  pose proof (well_formed_readable _ _ _ _ wf') as rd'.
  assert (Ht : (ts ++ [t]) !! length ts = Some t) by (now apply list_lookup_middle).
  exists sc', sv'.
  split; [|split; [|split; [|split; [|split; [|split; [|split; [|split; [|split]]]]]]]].
  - apply add_pose_ok; auto.
    eapply Forall_impl; [exact Hcur|]. intros node (b & d & cur & H1 & H2 & H3 & _).
    exists b, d, cur. auto.
  - cbn. apply lookup_insert_eq.
  - exact wf'.
  - rewrite (num_poses_dense _ _ _ _ rd'), (num_poses_dense _ _ _ _ rd), length_app.
    reflexivity.
  - rewrite (has_pose_dense _ _ _ _ rd'). rewrite bool_decide_eq_true_2; [reflexivity|].
    rewrite fmap_app. apply elem_of_app. right. cbn. apply list_elem_of_singleton. reflexivity.
  - rewrite (num_poses_dense _ _ _ _ rd).
    exact (pose_index_dense _ _ _ _ rd' (length ts) t Ht).
  - intros i x Hi. apply (pose_index_dense _ _ _ _ rd' i x).
    now apply lookup_app_l_Some.
  - exists (pose_data_of sc' nodes (length ts) t).
    split; [exact (pose_dense _ _ _ _ rd' (length ts) t Ht)|].
    cbn. now rewrite !values_of_dense.
  - apply Forall_forall. intros node Hin.
    destruct (Hnodes node Hin) as (b & d & cur & ps & Hb & Hd & Hc & Hne & Hp & Hl & Hf & Hb').
    exists ps, d, cur. split; [|split; [|split]].
    + exact (BlenderFacts.get_poses_dense _ _ _ _ Hb Hp).
    + unfold UEPoseBlenderNode.driven_transform, the_blender. rewrite Hb. cbn. now rewrite Hd.
    + exact Hc.
    + apply (BlenderFacts.get_poses_dense _ _ _ _ Hb'). cbn.
      rewrite Hp, <- Hl. apply dense_snoc.
  - reflexivity.
Qed.

Lemma add_pose_appends_witness :
  exists sc' sv',
    add_pose "arm_l_UERBFSolver" "lowered" None (Some [identity_matrix]) None None true
             scenario_A = (Ok tt, sc')
    /\ solvers sc' !! "arm_l_UERBFSolver" = Some sv'
    /\ num_poses sv' = 3
    /\ pose_index sv' "lowered" = 2%Z
    /\ UEPoseBlenderNode.get_poses "J_l_elbow_UEPoseBlenderNode" sc'
       = Ok [rotate_z_45; rotate_z_45; rotate_z_45].
Proof.
  assert (H : solvers scenario_A !! "arm_l_UERBFSolver" = Some solver_A)
    by (vm_compute; reflexivity).
  assert (Hname : "lowered" <> "") by discriminate.
  assert (Hfresh : "lowered" ∉ targetName <$> poses_A).
  { rewrite QueryFacts.scenario_A_names. intros Hin.
    repeat (apply elem_of_cons in Hin as [Hin|Hin]; [discriminate|]).
    now apply elem_of_nil in Hin. }
  assert (Hlv : length [identity_matrix] = num_drivers solver_A) by (vm_compute; reflexivity).
  assert (Hlc : length (default [] (None : option (list matrix))) = num_controllers solver_A)
    by (vm_compute; reflexivity).
  assert (Hcur : Forall (fun node => exists b d (cur : matrix),
                   blenders scenario_A !! node = Some b /\ drivenTransform b = Some d
                   /\ transforms scenario_A !! d = Some cur /\ cur <> []) nodes_A).
  { repeat constructor.
    exists {| drivenTransform := Some "J_l_elbow";
              blender_poses := map_seq 0 [rotate_z_45; rotate_z_45];
              outMatrix_connected := false |}, "J_l_elbow", rotate_z_45.
    split; [vm_compute; reflexivity|]. split; [reflexivity|].
    split; [vm_compute; reflexivity | discriminate]. }
  destruct (add_pose_appends "arm_l_UERBFSolver" "lowered" None [identity_matrix] None true
              scenario_A solver_A poses_A nodes_A H scenario_A_well_formed
              Hname Hfresh Hlv Hlc Hcur)
    as (sc' & sv' & H1 & H2 & _ & H4 & _ & H6 & _ & _ & H9 & _).
  exists sc', sv'. split; [exact H1|]. split; [exact H2|].
  assert (Hn : num_poses solver_A = 2) by (vm_compute; reflexivity).
  rewrite Hn in H4, H6. split; [exact H4|]. split; [exact H6|].
  apply Forall_cons in H9 as [(ps & d & cur & G1 & G2 & G3 & G4) _].
  assert (Eps : ps = [rotate_z_45; rotate_z_45]) by (revert G1; vm_compute; congruence).
  assert (Ed : d = "J_l_elbow") by (revert G2; vm_compute; congruence).
  subst ps d.
  assert (Ec : cur = rotate_z_45) by (revert G3; vm_compute; congruence).
  subst cur. exact G4.
Defined.

(** X9.  What [add_pose] refuses, each time leaving the scene as it was:
    a solver without driver ('You must add a driver first.'); a name that a
    pose already has ('Already a pose called'); on a fresh name, no
    matrices and no drivers to read them from (TypeError: len() of None,
    not an InvalidPose); controller matrices whose number differs from the
    number of controllers, or none at all while the solver has
    controllers ('Invalid number of controller matrices'). *)
Theorem add_pose_rejects (self name : string) (drivers_arg : option (list string))
        (ms : list matrix) (cm : option (list matrix))
        (dm : option (list (option string * matrix))) (enable : bool)
        (sc : scene) (sv : solver) (ts : list target) (nodes : list string) :
  solvers sc !! self = Some sv ->
  (num_drivers sv = 0 ->
     add_pose self name drivers_arg (Some ms) cm dm enable sc
     = (Raise (InvalidPose You_must_add_a_driver_first), sc))
  /\ (readable sc sv ts nodes ->
      (name ∈ targetName <$> ts ->
         add_pose self name drivers_arg (Some ms) cm dm enable sc
         = (Raise (InvalidPose (Already_a_pose_called name)), sc))
      /\ (name ∉ targetName <$> ts -> truthy drivers_arg = false ->
            add_pose self name drivers_arg None cm dm enable sc
            = (Raise (TypeError NoneType_has_no_len), sc))
      /\ (name ∉ targetName <$> ts -> length ms = num_drivers sv ->
            length (default [] cm) <> num_controllers sv ->
            add_pose self name drivers_arg (Some ms) cm dm enable sc
            = (Raise (InvalidPose Invalid_number_of_controller_matrices), sc))).
Proof.
  intros Hs.
  split.
  - intros H0. unfold add_pose.
    rewrite (bool_decide_eq_false_2 (Some ms = None)) by discriminate.
    rewrite andb_false_r, bindM_ret, bindM_query, (the_solver_ok _ _ _ Hs).
    now rewrite H0.
  - intros rd.
    assert (Hd : (num_drivers sv =? 0) = false)
      by (apply Nat.eqb_neq; exact (rd_drivers _ _ _ _ rd)).
    split; [|split].
    + intros Hin. unfold add_pose.
      rewrite (bool_decide_eq_false_2 (Some ms = None)) by discriminate.
      rewrite andb_false_r, bindM_ret, bindM_query, (the_solver_ok _ _ _ Hs), Hd.
      rewrite bindM_query, (has_pose_dense _ _ _ _ rd).
      now rewrite bool_decide_eq_true_2.
    + intros Hfresh Hdr. unfold add_pose. rewrite Hdr. cbn [andb].
      rewrite bindM_ret, bindM_query, (the_solver_ok _ _ _ Hs), Hd.
      rewrite bindM_query, (has_pose_dense _ _ _ _ rd).
      now rewrite bool_decide_eq_false_2.
    + intros Hfresh Hlv Hlc. unfold add_pose.
      rewrite (bool_decide_eq_false_2 (Some ms = None)) by discriminate.
      rewrite andb_false_r, bindM_ret, bindM_query, (the_solver_ok _ _ _ Hs), Hd.
      rewrite bindM_query, (has_pose_dense _ _ _ _ rd).
      rewrite bool_decide_eq_false_2 by exact Hfresh.
      rewrite Hlv, Nat.eqb_refl. cbn [negb].
      apply Nat.eqb_neq in Hlc as Hlc'.
      destruct (truthy cm) eqn:Et.
      * rewrite Hlc'. reflexivity.
      * cbn [andb negb].
        assert (Hcm : default [] cm = []) by (now destruct cm as [[|]|]).
        rewrite Hcm in Hlc. cbn in Hlc.
        destruct (num_controllers sv =? 0) eqn:E; [apply Nat.eqb_eq in E; lia|].
        reflexivity.
Qed.

Lemma add_pose_rejects_witness :
  readable scenario_A solver_A poses_A nodes_A
  /\ "default" ∈ targetName <$> poses_A
  /\ add_pose "arm_l_UERBFSolver" "default" None (Some [identity_matrix]) None None true
              scenario_A
     = (Raise (InvalidPose (Already_a_pose_called "default")), scenario_A).
Proof.
  assert (H : solvers scenario_A !! "arm_l_UERBFSolver" = Some solver_A)
    by (vm_compute; reflexivity).
  assert (Hin : "default" ∈ targetName <$> poses_A).
  { rewrite QueryFacts.scenario_A_names. apply elem_of_cons. now left. }
  split; [exact QueryFacts.scenario_A_readable|]. split; [exact Hin|].
  exact (proj1 (proj2 (add_pose_rejects "arm_l_UERBFSolver" "default" None [identity_matrix]
                         None None true scenario_A solver_A poses_A nodes_A H)
                  QueryFacts.scenario_A_readable) Hin).
Defined.

(** X10.  The two input locks differ: [add_controller] is refused as soon
    as the solver has one pose ('Unable to add controller after poses have
    been added'), leaving the scene as it was, while [add_driver] still
    passes its lock with exactly one pose. *)
Theorem add_controller_locked (self : string) (transform_nodes : list string)
        (sc : scene) (sv : solver) :
  solvers sc !! self = Some sv ->
  0 < num_poses sv ->
  add_controller self transform_nodes sc
  = (Raise (RuntimeError Unable_to_add_controller_after_poses), sc)
  /\ (num_poses sv = 1 -> add_driver self (Some []) sc = (Ok tt, sc)).
Proof.
  intros Hs Hn. split.
  - unfold add_controller. rewrite bindM_query, (the_solver_ok _ _ _ Hs).
    now replace (0 <? num_poses sv) with true by (symmetry; now apply Nat.ltb_lt).
  - intros H1. unfold add_driver.
    rewrite bindM_ret, bindM_query, (the_solver_ok _ _ _ Hs).
    now rewrite H1.
Qed.

Lemma add_controller_locked_witness :
  solvers scenario_A !! "arm_l_UERBFSolver" = Some solver_A
  /\ 0 < num_poses solver_A
  /\ add_controller "arm_l_UERBFSolver" ["J_l_elbow"] scenario_A
     = (Raise (RuntimeError Unable_to_add_controller_after_poses), scenario_A).
Proof.
  assert (H : solvers scenario_A !! "arm_l_UERBFSolver" = Some solver_A)
    by (vm_compute; reflexivity).
  assert (Hn : 0 < num_poses solver_A) by (vm_compute; lia).
  split; [exact H|]. split; [exact Hn|].
  exact (proj1 (add_controller_locked "arm_l_UERBFSolver" ["J_l_elbow"] scenario_A solver_A
                  H Hn)).
Defined.

Lemma bindM_unit_r (c : M unit) sc : (c ;;; ret tt) sc = c sc.
Proof. unfold bindM. now destruct (c sc) as [[[]|e] s]. Qed.

Lemma find_pose_index_targets sv sv' name indices :
  targets sv' = targets sv ->
  find_pose_index sv' name indices = find_pose_index sv name indices.
Proof.
  intros Ht. induction indices as [|i rest IH]; [reflexivity|].
  cbn. unfold target_at. now rewrite Ht, IH.
Qed.

Lemma pose_index_targets sv sv' name :
  targets sv' = targets sv -> pose_index sv' name = pose_index sv name.
Proof.
  intros Ht. unfold pose_index. rewrite Ht. now apply find_pose_index_targets.
Qed.

(** X11.  [add_driver] with one node, on a solver with at most one pose
    whose drivers [ds] sit at the indices 0, 1, ...: a name that nothing in
    the scene has, a node that is no transform, and a transform that
    already is a driver are refused with RuntimeError, the scene staying as
    it was.  Another transform becomes the last driver, with its current
    local matrix as rest matrix; the stored poses are not touched, so a
    pose stored before has one matrix too few and [pose()] on it raises
    InvalidPose 'Invalid Driver Indices'. *)
Theorem add_driver_one (self t : string) (sc : scene) (sv : solver) (ds : list string) :
  solvers sc !! self = Some sv ->
  num_poses sv <= 1 ->
  inputs sv = map_seq 0 ds ->
  (objExists t sc = false ->
     add_driver self (Some [t]) sc = (Raise (RuntimeError (Node_not_found t)), sc))
  /\ (objExists t sc = true -> is_transform t sc = false ->
        add_driver self (Some [t]) sc
        = (Raise (RuntimeError (Invalid_transform_node t)), sc))
  /\ (is_transform t sc = true -> t ∈ ds ->
        add_driver self (Some [t]) sc
        = (Raise (RuntimeError (Already_has_driver t)), sc))
  /\ (forall m : matrix, transforms sc !! t = Some m -> t ∉ ds ->
        exists sc' sv',
          add_driver self (Some [t]) sc = (Ok tt, sc')
          /\ solvers sc' !! self = Some sv'
          /\ drivers sv' = ds ++ [t]
          /\ num_drivers sv' = num_drivers sv + 1
          /\ inputsRest sv' !! length ds = Some m
          /\ targets sv' = targets sv
          /\ transforms sc' = transforms sc
          /\ blenders sc' = blenders sc
          /\ (forall ts nodes i t0, readable sc sv ts nodes -> ts !! i = Some t0 ->
                pose sc' sv' (targetName t0) = Raise (InvalidPose Invalid_Driver_Indices))).
Proof.
  intros Hs Hn Hin.
  assert (Hlock : (1 <? num_poses sv) = false) by (apply Nat.ltb_ge; lia).
  assert (Hstart : add_driver self (Some [t]) sc = add_one_driver self t sc).
  { unfold add_driver. rewrite bindM_ret, bindM_query, (the_solver_ok _ _ _ Hs), Hlock.
    apply bindM_unit_r. }
  assert (Hdrv : drivers sv = ds) by (unfold drivers; now rewrite Hin, values_of_dense).
  assert (Hnum : num_drivers sv = length ds)
    by (unfold num_drivers; rewrite Hin; apply size_dense).
  rewrite Hstart. unfold add_one_driver. split; [|split; [|split]].
  - intros He. rewrite bindM_query. now rewrite He.
  - intros He Ht. rewrite bindM_query, He. cbn [negb].
    rewrite bindM_query, Ht. reflexivity.
  - intros Ht Hd.
    assert (He : objExists t sc = true).
    { unfold objExists. unfold is_transform in Ht. now rewrite Ht. }
    rewrite bindM_query, He. cbn [negb]. rewrite bindM_query, Ht. cbn [negb].
    rewrite bindM_query, (the_solver_ok _ _ _ Hs).
    unfold has_driver. rewrite Hdrv. now rewrite bool_decide_eq_true_2.
  - intros m Hm Hd.
    assert (Ht : is_transform t sc = true)
      by (unfold is_transform; apply bool_decide_eq_true_2; rewrite Hm; eauto).
    assert (He : objExists t sc = true).
    { unfold objExists. unfold is_transform in Ht. now rewrite Ht. }
    set (sv' := with_inputs (fun i => i) (insert (length ds) m)
                  (with_inputs (insert (length ds) t) (fun r => r) sv)).
    exists (set_solver self sv' sc), sv'.
    split; [|split; [|split; [|split; [|split; [|split; [|split; [|split]]]]]]].
    + rewrite bindM_query, He. cbn [negb]. rewrite bindM_query, Ht. cbn [negb].
      rewrite bindM_query, (the_solver_ok _ _ _ Hs).
      unfold has_driver. rewrite Hdrv, bool_decide_eq_false_2 by exact Hd.
      rewrite Hnum, bool_decide_eq_false_2.
      2:{ rewrite Hin, lookup_dense. intros [x Hx]. apply lookup_lt_Some in Hx. lia. }
      rewrite (bindM_ok _ _ _ _ _ (update_solver_ok _ _ _ _ Hs)).
      rewrite bindM_query. unfold xform_query. cbn [transforms set_solver]. rewrite Hm.
      now rewrite update_solver_set.
    + cbn. apply lookup_insert_eq.
    + unfold drivers. cbn. now rewrite Hin, dense_snoc, values_of_dense.
    + unfold num_drivers at 1. cbn. rewrite Hin, dense_snoc, size_dense, length_app, Hnum.
      reflexivity.
    + cbn. apply lookup_insert_eq.
    + reflexivity.
    + reflexivity.
    + reflexivity.
    + intros ts nodes i t0 rd Hi. unfold pose.
      rewrite (pose_index_targets sv sv') by reflexivity.
      rewrite (pose_index_dense _ _ _ _ rd i t0 Hi).
      replace (Z.of_nat i =? -1)%Z with false by (symmetry; apply Z.eqb_neq; lia).
      rewrite Nat2Z.id.
      change (target_at sv' i) with (target_at sv i).
      rewrite (target_at_dense _ _ _ _ rd i t0 Hi).
      pose proof (rd_target _ _ _ _ rd) as Hd0. rewrite Forall_forall in Hd0.
      destruct (Hd0 t0) as (_ & (vs & Hvs & Hlv) & _); [apply list_elem_of_lookup; eauto|].
      rewrite Hvs, multiIndices_dense, length_seq.
      rewrite bool_decide_eq_false_2.
      2:{ pose proof (rd_drivers _ _ _ _ rd).
          destruct vs; [cbn in Hlv; lia | cbn; discriminate]. }
      replace (num_drivers sv') with (num_drivers sv + 1).
      2:{ unfold num_drivers at 2. cbn.
          rewrite Hin, dense_snoc, size_dense, length_app, Hnum. reflexivity. }
      rewrite Hlv.
      replace (num_drivers sv =? num_drivers sv + 1) with false
        by (symmetry; apply Nat.eqb_neq; lia).
      reflexivity.
Qed.

Lemma add_driver_one_witness :
  exists sc0 sv0 sc' sv',
    solvers sc0 !! "arm_l_UERBFSolver" = Some sv0
    /\ num_poses sv0 <= 1
    /\ inputs sv0 = map_seq 0 []
    /\ transforms sc0 !! "J_l_shoulder" = Some identity_matrix
    /\ add_driver "arm_l_UERBFSolver" (Some ["J_l_shoulder"]) sc0 = (Ok tt, sc')
    /\ solvers sc' !! "arm_l_UERBFSolver" = Some sv'
    /\ drivers sv' = ["J_l_shoulder"].
Proof.
  set (sc0 := snd (create some_config 1 "arm_l_UERBFSolver" joints)).
  destruct (solvers sc0 !! "arm_l_UERBFSolver") as [sv0|] eqn:Hs;
    [|exfalso; revert Hs; vm_compute; discriminate].
  assert (Hn : num_poses sv0 <= 1).
  { revert Hs. vm_compute. intros [= <-]. vm_compute. lia. }
  assert (Hi : inputs sv0 = map_seq 0 []).
  { revert Hs. vm_compute. intros [= <-]. reflexivity. }
  assert (Hm : transforms sc0 !! "J_l_shoulder" = Some identity_matrix)
    by (vm_compute; reflexivity).
  assert (Hd : "J_l_shoulder" ∉ ([] : list string)) by (apply not_elem_of_nil).
  destruct (proj2 (proj2 (proj2 (add_driver_one "arm_l_UERBFSolver" "J_l_shoulder" sc0 sv0 []
                                   Hs Hn Hi))) identity_matrix Hm Hd)
    as (sc' & sv' & H1 & H2 & H3 & _).
  exists sc0, sv0, sc', sv'. repeat split; auto.
Defined.

Lemma foldl_ext_in {A B} (f g : A -> B -> A) (l : list B) : forall a,
  (forall acc x, x ∈ l -> f acc x = g acc x) -> foldl f a l = foldl g a l.
Proof.
  induction l as [|x l IH]; intros a H; [reflexivity|].
  cbn. rewrite (H a x) by (apply elem_of_cons; now left).
  apply IH. intros acc y Hy. apply H. apply elem_of_cons. now right.
Qed.

(** X12.  What [delete_pose] does to a pose that stays: its enabled flag
    and what the Driven Bindings record for it are as before, but its
    function type, scale factor and distance method are not carried over;
    they read as on an element that was never written, since [add_pose]
    stores none of them when the pose is added again. *)
Theorem delete_pose_resets_settings (self : string) (sc : scene) (sv : solver)
        (ts : list target) (nodes : list string) (k j : nat) (t t' : target) :
  solvers sc !! self = Some sv ->
  well_formed sc sv ts nodes ->
  ts !! k = Some t ->
  delete k ts !! j = Some t' ->
  exists sc' sv' pd pd',
    delete_pose self (targetName t) sc = (Ok tt, sc')
    /\ solvers sc' !! self = Some sv'
    /\ pose sc sv (targetName t') = Ok pd
    /\ pose sc' sv' (targetName t') = Ok pd'
    /\ pd_function_type pd = targetFunctionType t'
    /\ pd_scale_factor pd = targetScaleFactor t'
    /\ pd_distance_method pd = targetDistanceMethod t'
    /\ pd_function_type pd' = targetFunctionType default_target
    /\ pd_scale_factor pd' = targetScaleFactor default_target
    /\ pd_distance_method pd' = targetDistanceMethod default_target
    /\ pd_target_enable pd' = pd_target_enable pd
    /\ pd_driven pd' = pd_driven pd.
Proof.
  intros Hs wf Hk Hj.
  pose proof (well_formed_readable _ _ _ _ wf) as rd.
  pose proof (lookup_lt_Some _ _ _ Hk) as Hlt.
  pose proof (without_pose_well_formed self sc sv ts nodes wf k Hlt) as wf'.
  pose proof (well_formed_readable _ _ _ _ wf') as rd'.
  assert (Hj' : (rebuilt <$> delete k ts) !! j = Some (rebuilt t'))
    by (now rewrite list_lookup_fmap, Hj).
  exists (without_pose self k nodes sc),
         (with_targets (fun _ => map_seq 0 (rebuilt <$> delete k ts)) sv),
         (pose_data_of sc nodes (index_before k j) t'),
         (pose_data_of (without_pose self k nodes sc) nodes j (rebuilt t')).
  split; [now apply (delete_pose_present self sc sv ts nodes)|].
  split; [now apply (without_pose_solver self sc sv ts nodes)|].
  split; [apply (pose_dense _ _ _ _ rd); now rewrite <- lookup_delete_before|].
  split; [exact (pose_dense _ _ _ _ rd' j (rebuilt t') Hj')|].
  repeat (split; [reflexivity|]).
  cbn [pd_driven pose_data_of]. unfold driven_of.
  apply foldl_ext_in. intros acc node Hin.
  destruct (without_pose_blender self sc sv ts nodes wf k node Hin)
    as (b & d & ps & H1 & H2 & H3 & H4 & H5 & H6 & H7).
  rewrite H1, H6. f_equal.
  now rewrite H7, H3, !lookup_dense, lookup_delete_before.
Qed.

Lemma delete_pose_resets_settings_witness :
  exists t t' sc' sv' pd',
    poses_A !! 1 = Some t /\ targetName t = "raised"
    /\ delete 1 poses_A !! 0 = Some t' /\ targetName t' = "default"
    /\ delete_pose "arm_l_UERBFSolver" "raised" scenario_A = (Ok tt, sc')
    /\ solvers sc' !! "arm_l_UERBFSolver" = Some sv'
    /\ pose sc' sv' "default" = Ok pd'
    /\ pd_function_type pd' = targetFunctionType default_target.
Proof.
  assert (H : solvers scenario_A !! "arm_l_UERBFSolver" = Some solver_A)
    by (vm_compute; reflexivity).
  destruct (poses_A !! 1) as [t|] eqn:Ht;
    [|exfalso; revert Ht; vm_compute; discriminate].
  destruct (delete 1 poses_A !! 0) as [t'|] eqn:Ht';
    [|exfalso; revert Ht'; vm_compute; discriminate].
  assert (Hn : targetName t = "raised")
    by (revert Ht; vm_compute; intros [= <-]; reflexivity).
  assert (Hn' : targetName t' = "default")
    by (revert Ht'; vm_compute; intros [= <-]; reflexivity).
  destruct (delete_pose_resets_settings "arm_l_UERBFSolver" scenario_A solver_A poses_A
              nodes_A 1 0 t t' H scenario_A_well_formed Ht Ht')
    as (sc' & sv' & pd & pd' & H1 & H2 & _ & H4 & _ & _ & _ & H8 & _).
  rewrite Hn in H1. rewrite Hn' in H4.
  exists t, t', sc', sv', pd'. repeat split; auto.
Defined.

Lemma add_driver_ok (self t : string) (sc : scene) (sv : solver) (ds : list string)
      (m : matrix) :
  solvers sc !! self = Some sv ->
  num_poses sv <= 1 ->
  inputs sv = map_seq 0 ds ->
  transforms sc !! t = Some m ->
  t ∉ ds ->
  add_driver self (Some [t]) sc
  = (Ok tt, set_solver self
              (with_inputs (fun _ => map_seq 0 (ds ++ [t])) (insert (length ds) m) sv) sc).
Proof.
  intros Hs Hn Hin Hm Hd.
  assert (Hlock : (1 <? num_poses sv) = false) by (apply Nat.ltb_ge; lia).
  assert (Hdrv : drivers sv = ds) by (unfold drivers; now rewrite Hin, values_of_dense).
  assert (Hnum : num_drivers sv = length ds)
    by (unfold num_drivers; rewrite Hin; apply size_dense).
  assert (Ht : is_transform t sc = true)
    by (unfold is_transform; apply bool_decide_eq_true_2; rewrite Hm; eauto).
  assert (He : objExists t sc = true).
  { unfold objExists. unfold is_transform in Ht. now rewrite Ht. }
  unfold add_driver. rewrite bindM_ret, bindM_query, (the_solver_ok _ _ _ Hs), Hlock.
  cbn [for_each]. rewrite bindM_unit_r. unfold add_one_driver.
  rewrite bindM_query, He. cbn [negb]. rewrite bindM_query, Ht. cbn [negb].
  rewrite bindM_query, (the_solver_ok _ _ _ Hs).
  unfold has_driver. rewrite Hdrv, bool_decide_eq_false_2 by exact Hd.
  rewrite Hnum, bool_decide_eq_false_2.
  2:{ rewrite Hin, lookup_dense. intros [x Hx]. apply lookup_lt_Some in Hx. lia. }
  rewrite (bindM_ok _ _ _ _ _ (update_solver_ok _ _ _ _ Hs)).
  rewrite bindM_query. unfold xform_query. cbn [transforms set_solver]. rewrite Hm.
  rewrite update_solver_set. do 2 f_equal.
  unfold with_inputs. cbn. now rewrite Hin, dense_snoc.
Qed.

Lemma result_mapM_xform sc (ds : list string) (ms : list matrix) :
  Forall2 (fun d m => transforms sc !! d = Some m) ds ms ->
  result_mapM (fun d => xform_query d sc) ds = Ok ms.
Proof.
  induction 1 as [|d m ds ms Hd _ IH]; [reflexivity|].
  cbn. unfold xform_query at 1. rewrite Hd. cbn. now rewrite IH.
Qed.

Lemma with_pose_well_formed (self name : string) (ms cms : list matrix) (enable : bool)
      (sc : scene) (sv : solver) (ts : list target) (nodes : list string) :
  well_formed sc sv ts nodes ->
  name <> "" ->
  name ∉ targetName <$> ts ->
  length ms = num_drivers sv ->
  length cms = num_controllers sv ->
  Forall (fun node => exists b d (cur : matrix),
            blenders sc !! node = Some b /\ drivenTransform b = Some d
            /\ transforms sc !! d = Some cur /\ cur <> []) nodes ->
  well_formed (with_pose self sv ts nodes (new_target name ms cms enable) sc)
              (with_targets (fun _ => map_seq 0 (ts ++ [new_target name ms cms enable])) sv)
              (ts ++ [new_target name ms cms enable]) nodes.
Proof.
  intros wf Hname Hfresh Hlv Hlc Hcur.
  pose proof (nodes_NoDup _ _ _ _ wf) as Hnd.
  split.
  - reflexivity.
  - apply Forall_app. split.
    + eapply Forall_impl; [exact (wf_target _ _ _ _ wf)|]. intros x Hx. exact Hx.
    + repeat constructor; [exact Hname| |].
      * exists ms. split; [reflexivity | exact Hlv].
      * exists cms. split; [reflexivity | exact Hlc].
  - rewrite fmap_app. apply NoDup_app. split; [exact (wf_names _ _ _ _ wf)|]. split.
    + intros x Hx Hin. cbn in Hin. apply list_elem_of_singleton in Hin. now subst.
    + cbn. apply NoDup_singleton.
  - exact (wf_drivers _ _ _ _ wf).
  - exact (wf_nodes _ _ _ _ wf).
  - apply Forall_forall. intros node Hin. rewrite Forall_forall in Hcur.
    destruct (Hcur node Hin) as (b & d & cur & Hb & Hd & Hc & Hne).
    pose proof (wf_blenders _ _ _ _ wf) as Hbb. rewrite Forall_forall in Hbb.
    destruct (Hbb node Hin) as (b' & d' & ps & Hb' & _ & Hp & Hl & Hf).
    rewrite Hb in Hb'. injection Hb' as <-.
    eexists _, d, (ps ++ [cur]).
    split; [exact (with_pose_blender self sv ts nodes _ sc node b d cur Hnd Hin Hb Hd Hc)|].
    split; [exact Hd|]. split; [|split].
    + cbn. rewrite Hp, <- Hl. apply dense_snoc.
    + rewrite !length_app. cbn. lia.
    + apply Forall_app. split; [exact Hf|]. now repeat constructor.
  - rewrite (list_fmap_ext _ (driven_transform_of sc)); [exact (wf_driven _ _ _ _ wf)|].
    intros i x _. now apply with_pose_driven.
Qed.

End WriteFacts.

(* ================================================================== *)
(** * Updating and visiting poses *)
(* ================================================================== *)

Module UpdateFacts.
Import Scene Host RBFNode SparseFacts Examples Invariants Outcomes SceneFacts PoseFacts.
Import WriteFacts.
Local Open Scope list_scope.
Local Open Scope nat_scope.

Lemma set_all_dense {A} (ms vs : list A) :
  length ms <= length vs ->
  set_all ms (map_seq 0 vs : gmap nat A) = map_seq 0 (ms ++ drop (length ms) vs).
Proof.
  intros Hle. unfold set_all. apply map_eq. intros i.
  rewrite lookup_union, !lookup_map_seq_0.
  destruct (decide (i < length ms)) as [Hlt|Hge].
  - rewrite lookup_app_l by exact Hlt.
    destruct (lookup_lt_is_Some_2 ms i Hlt) as [x ->].
    now destruct (vs !! i).
  - rewrite lookup_app_r by lia. rewrite lookup_drop.
    rewrite (lookup_ge_None_2 ms i) by lia.
    replace (length ms + (i - length ms)) with i by lia.
    now destruct (vs !! i).
Qed.

Lemma current_loop k (ns : list string) : forall s,
  NoDup ns ->
  Forall (fun node => exists b d (cur : matrix),
            blenders s !! node = Some b /\ drivenTransform b = Some d
            /\ transforms s !! d = Some cur) ns ->
  for_each ns (fun node => UEPoseBlenderNode.set_pose node k None) s
  = (Ok tt, with_nodes (solvers s)
              (foldl (fun bs node => alter (snapshot (transforms s) k) node bs)
                     (blenders s) ns) s).
Proof.
  induction ns as [|node ns IH]; intros s Hnd Hb.
  - cbn. now destruct s.
  - apply NoDup_cons in Hnd as [Hnotin Hnd].
    apply Forall_cons in Hb as [(b & d & cur & Hb & Hd & Hcur) Hrest].
    cbn [for_each foldl].
    assert (Hstep : UEPoseBlenderNode.set_pose node k None s
                    = (Ok tt, with_nodes (solvers s)
                                (alter (snapshot (transforms s) k) node (blenders s)) s)).
    { unfold UEPoseBlenderNode.set_pose.
      rewrite (bindM_ok _ _ s cur s).
      - rewrite (update_blender_ok _ _ _ _ Hb). f_equal.
        unfold set_blender, with_nodes. f_equal.
        rewrite <- (insert_id _ _ _ Hb) at 2. rewrite alter_insert_eq. f_equal.
        unfold snapshot. rewrite Hd. cbn. now rewrite Hcur.
      - rewrite bindM_query. unfold UEPoseBlenderNode.driven_transform, the_blender.
        rewrite Hb. cbn [bind]. rewrite Hd. unfold query, xform_query. now rewrite Hcur. }
    rewrite (bindM_ok _ _ _ _ _ Hstep).
    rewrite IH; [reflexivity | exact Hnd |].
    rewrite Forall_forall in Hrest. apply Forall_forall. intros n Hn.
    destruct (Hrest n Hn) as (b' & d' & cur' & Hb' & Hd' & Hcur').
    exists b', d', cur'. split; [|auto]. cbn.
    rewrite lookup_alter_ne; [exact Hb'|]. intros ->. contradiction.
Qed.

(** [update_pose] with matrices and no controller matrices, on the pose
    at index [k] of a readable solver. *)
Lemma update_pose_ok (self : string) (drivers_arg : option (list string))
      (ms : list matrix) (sc : scene) (sv : solver) (ts : list target)
      (nodes : list string) (k : nat) (t : target) :
  solvers sc !! self = Some sv ->
  readable sc sv ts nodes ->
  NoDup nodes ->
  ts !! k = Some t ->
  Forall (fun node => exists b d (cur : matrix),
            blenders sc !! node = Some b /\ drivenTransform b = Some d
            /\ transforms sc !! d = Some cur) nodes ->
  update_pose self (targetName t) drivers_arg (Some ms) None sc
  = (Ok tt, with_updated_pose self sv ts nodes k (set_targetValues ms t) sc).
Proof.
  intros Hs rd Hnd Hk Hcur. unfold update_pose.
  rewrite (bool_decide_eq_false_2 (Some ms = None)) by discriminate.
  rewrite andb_false_r, bindM_ret, bindM_query, (the_solver_ok _ _ _ Hs).
  rewrite bindM_query, (has_pose_dense _ _ _ _ rd).
  rewrite bool_decide_eq_true_2.
  2:{ apply list_elem_of_fmap. exists t. split; [reflexivity|].
      apply list_elem_of_lookup. eauto. }
  cbn [negb truthy]. rewrite (pose_index_dense _ _ _ _ rd k t Hk), Nat2Z.id.
  rewrite (bindM_ok _ _ _ _ _ (update_solver_ok _ _ _ _ Hs)).
  rewrite bindM_ret, bindM_query, (rd_nodes _ _ _ _ rd).
  rewrite (current_loop k nodes (set_solver self _ sc) Hnd Hcur).
  unfold with_updated_pose, with_nodes.
  cbn [solvers set_solver blenders transforms selection]. do 3 f_equal.
  unfold with_targets. f_equal.
  unfold write_target. rewrite (rd_targets _ _ _ _ rd), lookup_dense, Hk. cbn.
  apply insert_map_seq_0. now apply lookup_lt_Some in Hk.
Qed.

Lemma snapshot_lookup (T : gmap string matrix) (B : gmap string blender) k
      (nodes : list string) node b d (cur : matrix) :
  NoDup nodes -> node ∈ nodes ->
  B !! node = Some b -> drivenTransform b = Some d -> T !! d = Some cur ->
  foldl (fun bs n => alter (snapshot T k) n bs) B nodes !! node
  = Some (UEPoseBlenderNode.with_poses (insert k cur) b).
Proof.
  intros Hnd Hin Hb Hd Hcur.
  rewrite (lookup_foldl_alter _ _ _ _ Hnd), decide_True by exact Hin.
  rewrite Hb. cbn. f_equal. unfold snapshot. rewrite Hd. cbn. now rewrite Hcur.
Qed.

(** X14.  [update_pose] with driver matrices (and no controller
    matrices) on a solver that keeps the invariants.  For a name that no
    pose has it raises RuntimeError 'Pose ... does not exist' and leaves
    the scene as it was.  For the pose at index [k] it overwrites the
    first stored driver matrices with the given ones without checking
    their number (with fewer matrices than drivers the remaining stored
    ones stay), keeps the pose count, the controller matrices and the
    per-pose settings, leaves every other pose as it was, makes every
    Driven Binding record the current local matrix of its transform at
    [k], its other recorded matrices staying, and moves no transform. *)
Theorem update_pose_spec (self : string) (drivers_arg : option (list string))
        (ms : list matrix) (sc : scene) (sv : solver) (ts : list target)
        (nodes : list string) :
  solvers sc !! self = Some sv ->
  well_formed sc sv ts nodes ->
  (forall name, name ∉ targetName <$> ts ->
     update_pose self name drivers_arg (Some ms) None sc
     = (Raise (RuntimeError (Pose_to_update_does_not_exist name)), sc))
  /\ (forall k t, ts !! k = Some t -> length ms <= num_drivers sv ->
        Forall (fun node => exists b d (cur : matrix),
                  blenders sc !! node = Some b /\ drivenTransform b = Some d
                  /\ transforms sc !! d = Some cur) nodes ->
        exists sc' sv' pd pd',
          update_pose self (targetName t) drivers_arg (Some ms) None sc = (Ok tt, sc')
          /\ solvers sc' !! self = Some sv'
          /\ num_poses sv' = num_poses sv
          /\ pose sc sv (targetName t) = Ok pd
          /\ pose sc' sv' (targetName t) = Ok pd'
          /\ pd_drivers pd' = ms ++ drop (length ms) (pd_drivers pd)
          /\ pd_controllers pd' = pd_controllers pd
          /\ pd_function_type pd' = pd_function_type pd
          /\ pd_target_enable pd' = pd_target_enable pd
          /\ (forall j t2, j <> k -> ts !! j = Some t2 ->
                pose_index sv' (targetName t2) = Z.of_nat j
                /\ exists pd2 pd2',
                     pose sc sv (targetName t2) = Ok pd2
                     /\ pose sc' sv' (targetName t2) = Ok pd2'
                     /\ pd_drivers pd2' = pd_drivers pd2
                     /\ pd_controllers pd2' = pd_controllers pd2)
          /\ Forall (fun node => exists d (cur : matrix),
                       UEPoseBlenderNode.driven_transform node sc = Ok (Some d)
                       /\ transforms sc !! d = Some cur
                       /\ UEPoseBlenderNode.get_pose node k sc' = Ok cur
                       /\ (forall j, j <> k ->
                             UEPoseBlenderNode.get_pose node j sc'
                             = UEPoseBlenderNode.get_pose node j sc)) nodes
          /\ transforms sc' = transforms sc).
Proof.
  intros Hs wf. pose proof (well_formed_readable _ _ _ _ wf) as rd.
  pose proof (nodes_NoDup _ _ _ _ wf) as Hnd. split.
  - intros name Hn. unfold update_pose.
    rewrite (bool_decide_eq_false_2 (Some ms = None)) by discriminate.
    rewrite andb_false_r, bindM_ret, bindM_query, (the_solver_ok _ _ _ Hs).
    rewrite bindM_query, (has_pose_dense _ _ _ _ rd).
    now rewrite bool_decide_eq_false_2.
  - intros k t Hk Hlen Hcur.
    pose proof (lookup_lt_Some _ _ _ Hk) as Hlt.
    pose proof (rd_target _ _ _ _ rd) as Hdense. rewrite Forall_forall in Hdense.
    destruct (Hdense t) as (Hname & (vs & Hvs & Hlv) & Hctl);
      [apply list_elem_of_lookup; eauto|].
    set (t' := set_targetValues ms t).
    set (ts' := <[k := t']> ts).
    set (sc' := with_updated_pose self sv ts nodes k t' sc).
    set (sv' := with_targets (fun _ => map_seq 0 ts') sv).
    assert (Hvs' : targetValues t' = map_seq 0 (ms ++ drop (length ms) vs)).
    { cbn. rewrite Hvs. apply set_all_dense. lia. }
    assert (Hpresent : forall node, node ∈ nodes ->
              exists b d (cur : matrix),
                blenders sc !! node = Some b /\ drivenTransform b = Some d
                /\ transforms sc !! d = Some cur
                /\ blenders sc' !! node
                   = Some (UEPoseBlenderNode.with_poses (insert k cur) b)).
    { intros node Hin. rewrite Forall_forall in Hcur.
      destruct (Hcur node Hin) as (b & d & cur & Hb & Hd & Hc).
      exists b, d, cur. repeat split; auto.
      exact (snapshot_lookup _ _ k nodes node b d cur Hnd Hin Hb Hd Hc). }
    assert (rd' : readable sc' sv' ts' nodes).
    { split.
      - reflexivity.
      - apply Forall_insert.
        + eapply Forall_impl; [exact (rd_target _ _ _ _ rd)|]. intros x Hx. exact Hx.
        + split; [exact Hname|]. split; [|exact Hctl].
          exists (ms ++ drop (length ms) vs). split; [exact Hvs'|].
          rewrite length_app, length_drop.
          change (num_drivers sv') with (num_drivers sv). lia.
      - unfold ts'. rewrite list_fmap_insert.
        change (targetName t') with (targetName t).
        rewrite list_insert_id; [exact (rd_names _ _ _ _ rd)|].
        now rewrite list_lookup_fmap, Hk.
      - exact (rd_drivers _ _ _ _ rd).
      - exact (rd_nodes _ _ _ _ rd).
      - apply Forall_forall. intros node Hin.
        destruct (Hpresent node Hin) as (b & d & cur & _ & _ & _ & Hb'). rewrite Hb'. eauto. }
    assert (Hk' : ts' !! k = Some t') by (apply list_lookup_insert_eq; exact Hlt).
    exists sc', sv', (pose_data_of sc nodes k t), (pose_data_of sc' nodes k t').
    split; [exact (update_pose_ok self drivers_arg ms sc sv ts nodes k t Hs rd Hnd Hk Hcur)|].
    split; [cbn; apply lookup_insert_eq|].
    split.
    { rewrite (num_poses_dense _ _ _ _ rd'), (num_poses_dense _ _ _ _ rd).
      apply length_insert. }
    split; [exact (pose_dense _ _ _ _ rd k t Hk)|].
    split; [exact (pose_dense _ _ _ _ rd' k t' Hk')|].
    split.
    { cbn [pd_drivers pose_data_of]. now rewrite Hvs', Hvs, !values_of_dense. }
    split; [reflexivity|]. split; [reflexivity|]. split; [reflexivity|].
    split.
    { intros j t2 Hj Hj2.
      assert (Hj' : ts' !! j = Some t2)
        by (unfold ts'; rewrite list_lookup_insert_ne by congruence; exact Hj2).
      split; [exact (pose_index_dense _ _ _ _ rd' j t2 Hj')|].
      exists (pose_data_of sc nodes j t2), (pose_data_of sc' nodes j t2).
      split; [exact (pose_dense _ _ _ _ rd j t2 Hj2)|].
      split; [exact (pose_dense _ _ _ _ rd' j t2 Hj')|].
      split; reflexivity. }
    split; [|reflexivity].
    apply Forall_forall. intros node Hin.
    destruct (Hpresent node Hin) as (b & d & cur & Hb & Hd & Hc & Hb').
    exists d, cur. split; [|split; [exact Hc|split]].
    + unfold UEPoseBlenderNode.driven_transform, the_blender. rewrite Hb. cbn. now rewrite Hd.
    + unfold UEPoseBlenderNode.get_pose, the_blender. rewrite Hb'. cbn.
      now rewrite lookup_insert_eq.
    + intros j Hj. unfold UEPoseBlenderNode.get_pose, the_blender. rewrite Hb', Hb. cbn.
      now rewrite lookup_insert_ne by congruence.
Qed.

Lemma update_pose_spec_witness :
  exists sc' sv' pd',
    update_pose "arm_l_UERBFSolver" "raised" None (Some [identity_matrix]) None scenario_A
    = (Ok tt, sc')
    /\ solvers sc' !! "arm_l_UERBFSolver" = Some sv'
    /\ pose sc' sv' "raised" = Ok pd'
    /\ pd_drivers pd' = [identity_matrix].
Proof.
  assert (H : solvers scenario_A !! "arm_l_UERBFSolver" = Some solver_A)
    by (vm_compute; reflexivity).
  destruct (poses_A !! 1) as [t|] eqn:Ht;
    [|exfalso; revert Ht; vm_compute; discriminate].
  assert (Hn : targetName t = "raised")
    by (revert Ht; vm_compute; intros [= <-]; reflexivity).
  assert (Hlen : length [identity_matrix] <= num_drivers solver_A) by (vm_compute; lia).
  assert (Hcur : Forall (fun node => exists b d (cur : matrix),
                   blenders scenario_A !! node = Some b /\ drivenTransform b = Some d
                   /\ transforms scenario_A !! d = Some cur) nodes_A).
  { apply Forall_cons. split; [|constructor].
    exists {| drivenTransform := Some "J_l_elbow";
              blender_poses := map_seq 0 [rotate_z_45; rotate_z_45];
              outMatrix_connected := false |}, "J_l_elbow", rotate_z_45.
    split; [vm_compute; reflexivity|]. split; [reflexivity|]. vm_compute; reflexivity. }
  destruct (proj2 (update_pose_spec "arm_l_UERBFSolver" None [identity_matrix] scenario_A
                     solver_A poses_A nodes_A H scenario_A_well_formed) 1 t Ht Hlen Hcur)
    as (sc' & sv' & pd & pd' & H1 & H2 & _ & H4 & H5 & H6 & _).
  rewrite Hn in H1, H4, H5.
  assert (Hpd : pd_drivers pd = [rotate_z_45])
    by (revert H4; vm_compute; intros [= <-]; reflexivity).
  exists sc', sv', pd'.
  split; [exact H1|]. split; [exact H2|]. split; [exact H5|].
  rewrite H6, Hpd. reflexivity.
Defined.

Lemma xform_loop (pairs : list (string * matrix)) : forall s,
  Forall (fun p => is_Some (transforms s !! fst p)) pairs ->
  for_each pairs (fun p => xform_set (fst p) (snd p)) s
  = (Ok tt, with_transforms (moved pairs (transforms s)) s).
Proof.
  induction pairs as [|[d m] pairs IH]; intros s Hex.
  - cbn. now destruct s.
  - apply Forall_cons in Hex as [[x Hx] Hrest]. cbn [for_each moved foldl fst snd].
    assert (Hstep : xform_set d m s = (Ok tt, with_transforms (<[d := m]> (transforms s)) s)).
    { unfold xform_set. cbn in Hx. now rewrite Hx. }
    rewrite (bindM_ok _ _ _ _ _ Hstep). rewrite IH; [reflexivity|].
    eapply Forall_impl; [exact Hrest|]. intros p [y Hy]. cbn.
    destruct (decide (fst p = d)) as [->|Hne].
    + rewrite lookup_insert_eq. eauto.
    + rewrite lookup_insert_ne by congruence. eauto.
Qed.

Lemma moved_lookup (pairs : list (string * matrix)) : forall T,
  NoDup pairs.*1 ->
  (forall d m, (d, m) ∈ pairs -> moved pairs T !! d = Some m)
  /\ (forall x, x ∉ pairs.*1 -> moved pairs T !! x = T !! x).
Proof.
  induction pairs as [|[d m] pairs IH]; intros T Hnd.
  - split; [intros d m H; now apply elem_of_nil in H | reflexivity].
  - cbn in Hnd. apply NoDup_cons in Hnd as [Hd Hnd].
    destruct (IH (<[d := m]> T) Hnd) as [IH1 IH2]. split.
    + intros d' m' Hin. apply elem_of_cons in Hin as [[= -> ->]|Hin].
      * cbn. rewrite IH2 by exact Hd. apply lookup_insert_eq.
      * cbn. now apply IH1.
    + intros x Hx. cbn in Hx. apply not_elem_of_cons in Hx as [Hne Hx].
      cbn. rewrite IH2 by exact Hx. now rewrite lookup_insert_ne by congruence.
Qed.

Lemma drivers_loop (vs : list matrix) (ds : list string) : forall j s,
  j + length ds <= length vs ->
  for_each (imap (fun i d => (j + i, d)) ds)
    (fun '(driver_index, driver) =>
       m <~ query (fun _ => list_item vs driver_index) ;; xform_set driver m) s
  = for_each (zip ds (drop j vs)) (fun p => xform_set (fst p) (snd p)) s.
Proof.
  induction ds as [|d ds IH]; intros j s Hle; [reflexivity|].
  cbn [length] in Hle.
  destruct (lookup_lt_is_Some_2 vs j) as [m Hm]; [lia|].
  rewrite (drop_S _ _ _ Hm). cbn [imap zip zip_with for_each fst snd].
  assert (Hb : (m0 <~ query (fun _ => list_item vs (j + 0)) ;; xform_set d m0) s
               = xform_set d m s).
  { rewrite bindM_query, Nat.add_0_r. unfold list_item. now rewrite Hm. }
  destruct (xform_set d m s) as [[[]|e] s1] eqn:E.
  - rewrite (bindM_ok _ _ s tt s1 Hb), (bindM_ok _ _ s tt s1 E).
    rewrite (imap_ext _ (fun i d0 => (S j + i, d0))).
    2:{ intros i x _. cbn. f_equal. lia. }
    apply IH. lia.
  - now rewrite (bindM_raise _ _ s e s1 Hb), (bindM_raise _ _ s e s1 E).
Qed.

Lemma moved_is_Some (pairs : list (string * matrix)) : forall T x,
  is_Some (T !! x) -> is_Some (moved pairs T !! x).
Proof.
  induction pairs as [|[d m] pairs IH]; intros T x Hx; [exact Hx|].
  cbn. apply IH. destruct (decide (x = d)) as [->|Hne].
  - rewrite lookup_insert_eq. eauto.
  - now rewrite lookup_insert_ne by congruence.
Qed.

Lemma blender_go_loop k (nodes : list string) (pairs : list (string * matrix)) : forall s,
  Forall2 (fun node p => exists b, blenders s !! node = Some b
             /\ drivenTransform b = Some (fst p)
             /\ blender_poses b !! k = Some (snd p)) nodes pairs ->
  for_each nodes (fun node => UEPoseBlenderNode.go_to_pose node k) s
  = for_each pairs (fun p => xform_set (fst p) (snd p)) s.
Proof.
  intros s H. revert s H.
  induction nodes as [|node nodes IH] in pairs |- *; intros s H.
  - inversion H; subst. reflexivity.
  - inversion H as [|? [d m] ? pairs' (b & Hb & Hd & Hp) Hrest]; subst.
    cbn [for_each fst snd] in *.
    assert (Hstep : UEPoseBlenderNode.go_to_pose node k s = xform_set d m s).
    { unfold UEPoseBlenderNode.go_to_pose. rewrite bindM_query.
      unfold UEPoseBlenderNode.get_pose, the_blender. rewrite Hb. cbn [bind].
      rewrite Hp. cbn [default from_option]. rewrite bindM_query.
      unfold UEPoseBlenderNode.driven_transform, the_blender. rewrite Hb. cbn [bind].
      now rewrite Hd. }
    destruct (xform_set d m s) as [[[]|e] s1] eqn:E.
    + rewrite (bindM_ok _ _ s tt s1) by (now rewrite Hstep).
      rewrite (bindM_ok _ _ s tt s1 E).
      apply IH.
      assert (Hbl : blenders s1 = blenders s).
      { unfold xform_set in E. destruct (transforms s !! d); [|discriminate].
        injection E as <-. reflexivity. }
      now rewrite Hbl.
    + rewrite (bindM_raise _ _ s e s1) by (now rewrite Hstep).
      now rewrite (bindM_raise _ _ s e s1 E).
Qed.

(** X15.  [RBFNode.go_to_pose] on a solver without controllers that keeps
    the invariants.  For a name that no pose has it raises InvalidPose
    'Pose not found' and moves nothing.  For the pose at index [k], the
    drivers and the driven transforms being distinct existing transforms,
    it sets every driver to the driver matrix stored for the pose and
    every driven transform to the matrix its pose blender node records at
    [k]; no other transform moves and no solver or pose blender node
    changes. *)
Theorem go_to_pose_spec (self : string) (sc : scene) (sv : solver) (ts : list target)
        (nodes ds : list string) :
  solvers sc !! self = Some sv ->
  well_formed sc sv ts nodes ->
  inputs sv = map_seq 0 ds ->
  num_controllers sv = 0 ->
  (forall name, name ∉ targetName <$> ts ->
     go_to_pose self name sc = (Raise (InvalidPose (Pose_not_found name)), sc))
  /\ (forall k t (pairs : list (string * matrix)),
        ts !! k = Some t ->
        Forall2 (fun node p => exists b, blenders sc !! node = Some b
                   /\ drivenTransform b = Some (fst p)
                   /\ blender_poses b !! k = Some (snd p)) nodes pairs ->
        NoDup (ds ++ pairs.*1) ->
        Forall (fun d => is_Some (transforms sc !! d)) (ds ++ pairs.*1) ->
        exists sc',
          go_to_pose self (targetName t) sc = (Ok tt, sc')
          /\ solvers sc' = solvers sc
          /\ blenders sc' = blenders sc
          /\ (forall i d, ds !! i = Some d ->
                transforms sc' !! d = values_of (targetValues t) !! i)
          /\ (forall d m, (d, m) ∈ pairs -> transforms sc' !! d = Some m)
          /\ (forall x, x ∉ ds ++ pairs.*1 -> transforms sc' !! x = transforms sc !! x)).
Proof.
  intros Hs wf Hin Hnc. pose proof (well_formed_readable _ _ _ _ wf) as rd. split.
  - intros name Hn. unfold go_to_pose.
    rewrite bindM_query, (the_solver_ok _ _ _ Hs), bindM_query.
    unfold pose. now rewrite (pose_index_missing _ _ _ _ rd name Hn).
  - intros k t pairs Hk Hpairs Hnd Hex.
    pose proof (rd_target _ _ _ _ rd) as Hdense. rewrite Forall_forall in Hdense.
    destruct (Hdense t) as (_ & (vs & Hvs & Hlv) & _); [apply list_elem_of_lookup; eauto|].
    assert (Hnum : num_drivers sv = length ds)
      by (unfold num_drivers; rewrite Hin; apply size_dense).
    assert (Hdrv : drivers sv = ds) by (unfold drivers; now rewrite Hin, values_of_dense).
    assert (Hfst : (zip ds vs).*1 = ds) by (apply fst_zip; lia).
    apply Forall_app in Hex as [Hex1 Hex2].
    set (T1 := moved (zip ds vs) (transforms sc)).
    set (T2 := moved pairs T1).
    exists (with_transforms T2 sc).
    assert (Hall : T2 = moved (zip ds vs ++ pairs) (transforms sc))
      by (unfold T2, T1, moved; now rewrite foldl_app).
    assert (Hnd' : NoDup (zip ds vs ++ pairs).*1) by (now rewrite fmap_app, Hfst).
    destruct (moved_lookup (zip ds vs ++ pairs) (transforms sc) Hnd') as [Hl1 Hl2].
    split; [|split; [reflexivity|split; [reflexivity|split; [|split]]]].
    + unfold go_to_pose.
      rewrite bindM_query, (the_solver_ok _ _ _ Hs), bindM_query.
      rewrite (pose_dense _ _ _ _ rd k t Hk).
      rewrite (pose_index_dense _ _ _ _ rd k t Hk), Nat2Z.id, Hnc. cbn [Nat.eqb].
      rewrite Hdrv. cbn [pd_drivers pose_data_of]. rewrite Hvs, values_of_dense.
      assert (Hloop1 : for_each (enumerate ds)
                (fun '(driver_index, driver) =>
                   m <~ query (fun _ => list_item vs driver_index) ;; xform_set driver m) sc
              = (Ok tt, with_transforms T1 sc)).
      { unfold enumerate.
        rewrite (imap_ext _ (fun i d => (0 + i, d))) by reflexivity.
        rewrite drivers_loop by (cbn; lia). cbn [drop].
        apply xform_loop. apply Forall_forall. intros [d m] Hdm. cbn.
        rewrite Forall_forall in Hex1. apply Hex1. rewrite <- Hfst.
        apply list_elem_of_fmap. exists (d, m). auto. }
      rewrite (bindM_ok _ _ _ _ _ Hloop1).
      rewrite bindM_query, (rd_nodes _ _ _ _ rd).
      rewrite (blender_go_loop k nodes pairs (with_transforms T1 sc)) by exact Hpairs.
      rewrite xform_loop; [reflexivity|].
      apply Forall_forall. intros [d m] Hdm. cbn. apply moved_is_Some.
      rewrite Forall_forall in Hex2. apply Hex2.
      apply list_elem_of_fmap. exists (d, m). auto.
    + intros i d Hd. cbn [transforms with_transforms]. rewrite Hall, Hvs, values_of_dense.
      destruct (lookup_lt_is_Some_2 vs i) as [m Hm].
      { apply lookup_lt_Some in Hd. lia. }
      rewrite Hm. apply Hl1. apply elem_of_app. left.
      apply list_elem_of_lookup. exists i. apply lookup_zip_with_Some. eauto.
    + intros d m Hdm. cbn [transforms with_transforms]. rewrite Hall.
      apply Hl1. apply elem_of_app. now right.
    + intros x Hx. cbn [transforms with_transforms]. rewrite Hall. apply Hl2.
      now rewrite fmap_app, Hfst.
Qed.

Lemma go_to_pose_spec_witness :
  exists sc',
    go_to_pose "arm_l_UERBFSolver" "raised" scenario_A = (Ok tt, sc')
    /\ transforms sc' !! "J_l_shoulder" = Some rotate_z_45
    /\ transforms sc' !! "J_l_elbow" = Some rotate_z_45.
Proof.
  assert (H : solvers scenario_A !! "arm_l_UERBFSolver" = Some solver_A)
    by (vm_compute; reflexivity).
  assert (Hin : inputs solver_A = map_seq 0 ["J_l_shoulder"]) by (vm_compute; reflexivity).
  assert (Hnc : num_controllers solver_A = 0) by (vm_compute; reflexivity).
  destruct (poses_A !! 1) as [t|] eqn:Ht;
    [|exfalso; revert Ht; vm_compute; discriminate].
  assert (Hn : targetName t = "raised")
    by (revert Ht; vm_compute; intros [= <-]; reflexivity).
  assert (Hv : values_of (targetValues t) !! 0 = Some rotate_z_45)
    by (revert Ht; vm_compute; intros [= <-]; reflexivity).
  assert (Hpairs : Forall2 (fun node (p : string * matrix) =>
                     exists b, blenders scenario_A !! node = Some b
                       /\ drivenTransform b = Some (fst p)
                       /\ blender_poses b !! 1 = Some (snd p))
                     nodes_A [("J_l_elbow", rotate_z_45)]).
  { repeat constructor.
    exists {| drivenTransform := Some "J_l_elbow";
              blender_poses := map_seq 0 [rotate_z_45; rotate_z_45];
              outMatrix_connected := false |}.
    split; [vm_compute; reflexivity|]. split; reflexivity. }
  assert (Hnd : NoDup (["J_l_shoulder"] ++ [("J_l_elbow", rotate_z_45)].*1)).
  { cbn. apply NoDup_cons. split; [|apply NoDup_singleton].
    intros Hx. apply list_elem_of_singleton in Hx. discriminate. }
  assert (Hex : Forall (fun d => is_Some (transforms scenario_A !! d))
                       (["J_l_shoulder"] ++ [("J_l_elbow", rotate_z_45)].*1)).
  { cbn. repeat (apply Forall_cons; split; [vm_compute; eauto|]). constructor. }
  destruct (proj2 (go_to_pose_spec "arm_l_UERBFSolver" scenario_A solver_A poses_A nodes_A
                     ["J_l_shoulder"] H scenario_A_well_formed Hin Hnc)
              1 t [("J_l_elbow", rotate_z_45)] Ht Hpairs Hnd Hex)
    as (sc' & H1 & _ & _ & H4 & H5 & _).
  rewrite Hn in H1. exists sc'. split; [exact H1|]. split.
  - rewrite (H4 0 "J_l_shoulder" eq_refl). exact Hv.
  - apply H5. apply list_elem_of_singleton. reflexivity.
Defined.

End UpdateFacts.

(* ================================================================== *)
(** * Properties of UERBFAPI *)
(* ================================================================== *)

Module ApiFacts.
Import Scene Host RBFNode SparseFacts Examples Invariants Outcomes SceneFacts PoseFacts.
Import WriteFacts.
Local Open Scope list_scope.
Local Open Scope nat_scope.

(** X13.  [UERBFAPI.add_drivers] with one new transform, on a solver that
    keeps the invariants and whose only pose is 'default': the call
    deletes the pose, adds the driver and stores 'default' again from the
    current local matrices of all drivers, old and new.  Afterwards the
    invariants hold with the new number of drivers, 'default' holds one
    matrix per driver, every Driven Binding records exactly the current
    local matrix of its transform, and no transform has moved. *)
Theorem add_drivers_rebuilds_default (self t : string) (sc : scene) (sv : solver)
        (t0 : target) (nodes ds cs : list string) (ms cms : list matrix) :
  solvers sc !! self = Some sv ->
  well_formed sc sv [t0] nodes ->
  targetName t0 = "default" ->
  inputs sv = map_seq 0 ds ->
  inputsControllers sv = map_seq 0 cs ->
  t ∉ ds ->
  Forall2 (fun d m => transforms sc !! d = Some m) (ds ++ [t]) ms ->
  Forall2 (fun c m => transforms sc !! c = Some m) cs cms ->
  Forall (fun node => exists b d (cur : matrix),
            blenders sc !! node = Some b /\ drivenTransform b = Some d
            /\ transforms sc !! d = Some cur /\ cur <> []) nodes ->
  exists sc' sv',
    UERBFAPI.add_drivers (Some [t]) self sc = (Ok tt, sc')
    /\ solvers sc' !! self = Some sv'
    /\ drivers sv' = ds ++ [t]
    /\ well_formed sc' sv' [new_target "default" ms cms true] nodes
    /\ (exists pd, pose sc' sv' "default" = Ok pd
          /\ pd_drivers pd = ms /\ pd_controllers pd = cms)
    /\ Forall (fun node => exists d (cur : matrix),
                 UEPoseBlenderNode.driven_transform node sc = Ok (Some d)
                 /\ transforms sc !! d = Some cur
                 /\ UEPoseBlenderNode.get_poses node sc' = Ok [cur]) nodes
    /\ transforms sc' = transforms sc.
Proof.
  intros Hs wf Hname Hin Hic Hnew Hdm Hcm Hdriven.
  pose proof (well_formed_readable _ _ _ _ wf) as rd.
  pose proof (nodes_NoDup _ _ _ _ wf) as Hnd.
  (* the three steps *)
  set (sc1 := without_pose self 0 nodes sc).
  set (sv1 := with_targets (fun _ => map_seq 0 (rebuilt <$> delete 0 [t0])) sv).
  assert (wf1 : well_formed sc1 sv1 [] nodes)
    by (exact (without_pose_well_formed self sc sv [t0] nodes wf 0 (Nat.lt_0_succ 0))).
  assert (Hs1 : solvers sc1 !! self = Some sv1)
    by (exact (without_pose_solver self sc sv [t0] nodes Hs wf 0)).
  assert (Hdel : delete_pose self "default" sc = (Ok tt, sc1)).
  { rewrite <- Hname. now apply (delete_pose_present self sc sv [t0] nodes). }
  apply Forall2_app_inv_l in Hdm as Hsplit.
  destruct Hsplit as (ms1 & ms2 & Hds & Ht & ->).
  inversion Ht as [|? m ? ? Hm Hnil]; subst. inversion Hnil; subst. clear Ht Hnil.
  assert (Hlen1 : length ms1 = length ds) by (symmetry; exact (Forall2_length _ _ _ Hds)).
  set (sv2 := with_inputs (fun _ => map_seq 0 (ds ++ [t])) (insert (length ds) m) sv1).
  set (sc2 := set_solver self sv2 sc1).
  assert (Hadd : add_driver self (Some [t]) sc1 = (Ok tt, sc2)).
  { apply add_driver_ok; auto;
      rewrite (num_poses_dense _ _ _ _ (well_formed_readable _ _ _ _ wf1)); cbn; lia. }
  assert (Hs2 : solvers sc2 !! self = Some sv2) by (cbn; apply lookup_insert_eq).
  assert (Hnd2 : num_drivers sv2 = length (ms1 ++ [m])).
  { unfold num_drivers. cbn. rewrite size_dense, !length_app, Hlen1. reflexivity. }
  assert (Hnc2 : num_controllers sv2 = length cms).
  { unfold num_controllers. cbn. rewrite Hic, size_dense.
    exact (Forall2_length _ _ _ Hcm). }
  assert (Hdriven2 : Forall (fun node => exists b d (cur : matrix),
                       blenders sc2 !! node = Some b /\ drivenTransform b = Some d
                       /\ transforms sc2 !! d = Some cur /\ cur <> []) nodes).
  { apply Forall_forall. intros node Hn. rewrite Forall_forall in Hdriven.
    destruct (Hdriven node Hn) as (b & d & cur & Hb & Hd & Hc & Hne).
    destruct (without_pose_blender self sc sv [t0] nodes wf 0 node Hn)
      as (b' & d' & ps & H1 & H2 & H3 & H4 & H5 & H6 & H7).
    rewrite Hb in H1. injection H1 as <-.
    exists (drop_pose 0 b), d, cur. repeat split; auto. }
  assert (wf2 : well_formed sc2 sv2 [] nodes).
  { split.
    - reflexivity.
    - constructor.
    - constructor.
    - rewrite Hnd2, length_app. cbn. lia.
    - exact (wf_nodes _ _ _ _ wf).
    - exact (wf_blenders _ _ _ _ wf1).
    - exact (wf_driven _ _ _ _ wf1). }
  set (new := new_target "default" (ms1 ++ [m]) cms true).
  assert (Hpose : forall cm, default [] cm = cms ->
            add_pose self "default" (Some (ds ++ [t])) (Some (ms1 ++ [m])) cm None true sc2
            = (Ok tt, with_pose self sv2 [] nodes new sc2)).
  { intros cm Hcmd. subst new. rewrite <- Hcmd. apply add_pose_ok; auto.
    - apply not_elem_of_nil.
    - now rewrite Hcmd.
    - eapply Forall_impl; [exact Hdriven2|].
      intros node (b & d & cur & H1 & H2 & H3 & _). exists b, d, cur. auto. }
  assert (Hcur : add_pose_from_current self "default" false sc2
                 = (Ok tt, with_pose self sv2 [] nodes new sc2)).
  { unfold add_pose_from_current. rewrite bindM_query, (the_solver_ok _ _ _ Hs2).
    assert (Hdrv : drivers sv2 = ds ++ [t]) by (unfold drivers; cbn; apply values_of_dense).
    rewrite Hdrv, bindM_query.
    rewrite (result_mapM_xform sc2 (ds ++ [t]) (ms1 ++ [m]))
      by (apply Forall2_app; [exact Hds | repeat constructor; exact Hm]).
    rewrite Hnc2.
    destruct cms as [|c0 cms'].
    - cbn [length Nat.eqb negb]. rewrite bindM_ret. now apply Hpose.
    - cbn [length Nat.eqb negb].
      assert (Hctl : controllers sv2 = cs)
        by (unfold controllers; cbn; rewrite Hic; apply values_of_dense).
      rewrite Hctl.
      rewrite (bindM_ok _ _ sc2 (Some (c0 :: cms')) sc2).
      + now apply Hpose.
      + rewrite bindM_query. now rewrite (result_mapM_xform sc2 cs (c0 :: cms') Hcm). }
  pose proof (with_pose_well_formed self "default" (ms1 ++ [m]) cms true sc2 sv2 [] nodes
                wf2 ltac:(discriminate) ltac:(apply not_elem_of_nil) (eq_sym Hnd2)
                (eq_sym Hnc2) Hdriven2) as wf3.
  pose proof (well_formed_readable _ _ _ _ wf3) as rd3.
  exists (with_pose self sv2 [] nodes new sc2),
         (with_targets (fun _ => map_seq 0 ([] ++ [new])) sv2).
  split; [|split; [|split; [|split; [|split; [|split]]]]].
  - unfold UERBFAPI.add_drivers. rewrite bindM_query, (the_solver_ok _ _ _ Hs).
    rewrite (num_poses_dense _ _ _ _ rd). cbn [length Nat.ltb Nat.leb].
    rewrite bindM_query, (has_pose_dense _ _ _ _ rd).
    rewrite bool_decide_eq_true_2
      by (cbn; rewrite Hname; apply elem_of_cons; now left).
    rewrite (bindM_ok _ _ _ _ _ Hdel), (bindM_ok _ _ _ _ _ Hadd). exact Hcur.
  - cbn. apply lookup_insert_eq.
  - unfold drivers. cbn. apply values_of_dense.
  - exact wf3.
  - exists (pose_data_of (with_pose self sv2 [] nodes new sc2) nodes 0 new).
    split; [exact (pose_dense _ _ _ _ rd3 0 new eq_refl)|].
    cbn. now rewrite !values_of_dense.
  - apply Forall_forall. intros node Hn. rewrite Forall_forall in Hdriven.
    destruct (Hdriven node Hn) as (b & d & cur & Hb & Hd & Hc & Hne).
    destruct (without_pose_blender self sc sv [t0] nodes wf 0 node Hn)
      as (b' & d' & ps & H1 & H2 & H3 & H4 & H5 & H6 & H7).
    rewrite Hb in H1. injection H1 as <-.
    exists d, cur. split; [|split; [exact Hc|]].
    + unfold UEPoseBlenderNode.driven_transform, the_blender. rewrite Hb. cbn. now rewrite Hd.
    + apply (BlenderFacts.get_poses_dense _ _
               (UEPoseBlenderNode.with_poses (insert 0 cur) (drop_pose 0 b))).
      * exact (with_pose_blender self sv2 [] nodes new sc2 node (drop_pose 0 b) d cur
                 Hnd Hn H6 Hd Hc).
      * cbn [blender_poses UEPoseBlenderNode.with_poses].
        change (blender_poses (drop_pose 0 b))
          with (map_seq 0 (delete 0 (values_of (blender_poses b))) : gmap nat matrix).
        rewrite H3, values_of_dense.
        destruct ps as [|p [|p' ps']]; cbn in H4; try lia.
        reflexivity.
  - reflexivity.
Qed.

Lemma scenario_D_well_formed : well_formed scenario_D solver_D [default_D] nodes_A.
Proof.
  split.
  - vm_compute. reflexivity.
  - apply Forall_cons. split; [|constructor].
    split; [vm_compute; discriminate|]. split.
    + exists [identity_matrix]. split; vm_compute; reflexivity.
    + exists []. split; vm_compute; reflexivity.
  - vm_compute. repeat constructor. rewrite elem_of_nil. tauto.
  - vm_compute. discriminate.
  - vm_compute. reflexivity.
  - apply Forall_cons. split; [|constructor].
    exists {| drivenTransform := Some "J_l_elbow";
              blender_poses := map_seq 0 [rotate_z_45];
              outMatrix_connected := false |},
           "J_l_elbow", [rotate_z_45].
    split; [vm_compute; reflexivity|]. split; [reflexivity|]. split; [reflexivity|].
    split; [reflexivity|]. repeat constructor; discriminate.
  - vm_compute. repeat constructor. rewrite elem_of_nil. tauto.
Qed.

Lemma add_drivers_rebuilds_default_witness :
  exists sc' sv' pd,
    solvers scenario_D !! "arm_l_UERBFSolver" = Some solver_D
    /\ UERBFAPI.add_drivers (Some ["J_r_shoulder"]) "arm_l_UERBFSolver" scenario_D
       = (Ok tt, sc')
    /\ solvers sc' !! "arm_l_UERBFSolver" = Some sv'
    /\ drivers sv' = ["J_l_shoulder"; "J_r_shoulder"]
    /\ pose sc' sv' "default" = Ok pd
    /\ pd_drivers pd = [identity_matrix; identity_matrix].
Proof.
  assert (H : solvers scenario_D !! "arm_l_UERBFSolver" = Some solver_D)
    by (vm_compute; reflexivity).
  assert (Hname : targetName default_D = "default") by (vm_compute; reflexivity).
  assert (Hin : inputs solver_D = map_seq 0 ["J_l_shoulder"]) by (vm_compute; reflexivity).
  assert (Hic : inputsControllers solver_D = map_seq 0 []) by (vm_compute; reflexivity).
  assert (Hnew : "J_r_shoulder" ∉ ["J_l_shoulder"]).
  { intros Hx. apply elem_of_cons in Hx as [Hx|Hx]; [discriminate|].
    now apply elem_of_nil in Hx. }
  assert (Hdm : Forall2 (fun d (m : matrix) => transforms scenario_D !! d = Some m)
                        (["J_l_shoulder"] ++ ["J_r_shoulder"])
                        [identity_matrix; identity_matrix]).
  { repeat constructor; vm_compute; reflexivity. }
  assert (Hcm : Forall2 (fun c (m : matrix) => transforms scenario_D !! c = Some m) [] [])
    by constructor.
  assert (Hdriven : Forall (fun node => exists b d (cur : matrix),
                      blenders scenario_D !! node = Some b /\ drivenTransform b = Some d
                      /\ transforms scenario_D !! d = Some cur /\ cur <> []) nodes_A).
  { repeat constructor.
    exists {| drivenTransform := Some "J_l_elbow";
              blender_poses := map_seq 0 [rotate_z_45];
              outMatrix_connected := false |}, "J_l_elbow", rotate_z_45.
    split; [vm_compute; reflexivity|]. split; [reflexivity|].
    split; [vm_compute; reflexivity | discriminate]. }
  destruct (add_drivers_rebuilds_default "arm_l_UERBFSolver" "J_r_shoulder" scenario_D
              solver_D default_D nodes_A ["J_l_shoulder"] []
              [identity_matrix; identity_matrix] []
              H scenario_D_well_formed Hname Hin Hic Hnew Hdm Hcm Hdriven)
    as (sc' & sv' & H1 & H2 & H3 & _ & (pd & H5 & H6 & _) & _).
  exists sc', sv', pd. repeat split; auto.
Defined.

End ApiFacts.

(* ================================================================== *)
(** * Pose names by index *)
(* ================================================================== *)

Module PoseNameFacts.
Import Scene Host RBFNode PoseNames SparseFacts Examples Invariants Outcomes SceneFacts.
Import PoseFacts WriteFacts.
Local Open Scope list_scope.
Local Open Scope nat_scope.

Lemma NoDup_insert_fresh {A} (l : list A) i x :
  NoDup l -> x ∉ l -> NoDup (<[i := x]> l).
Proof.
  intros Hnd Hx. apply NoDup_alt. intros j1 j2 y H1 H2.
  apply list_lookup_insert_Some in H1 as [(-> & -> & _)|(Hne1 & H1)];
    apply list_lookup_insert_Some in H2 as [(<- & E & _)|(Hne2 & H2)]; try reflexivity.
  - subst. exfalso. apply Hx. apply list_elem_of_lookup. eauto.
  - subst. exfalso. apply Hx. apply list_elem_of_lookup. eauto.
  - exact (NoDup_lookup _ _ _ _ Hnd H1 H2).
Qed.

Lemma not_elem_of_insert_old {A} (l : list A) i x y :
  NoDup l -> l !! i = Some y -> x <> y -> y ∉ <[i := x]> l.
Proof.
  intros Hnd Hi Hne Hin. apply list_elem_of_lookup in Hin as [j Hj].
  apply list_lookup_insert_Some in Hj as [(_ & E & _)|(Hij & Hj)]; [congruence|].
  apply Hij. exact (NoDup_lookup _ _ _ _ Hnd Hi Hj).
Qed.

Lemma pose_name_dense sc sv (ts : list target) nodes i :
  readable sc sv ts nodes -> pose_name sv i = targetName <$> ts !! i.
Proof.
  intros rd. unfold pose_name. rewrite (rd_targets _ _ _ _ rd), multiIndices_dense.
  destruct (ts !! i) as [t|] eqn:Hi.
  - pose proof (lookup_lt_Some _ _ _ Hi) as Hlt.
    rewrite bool_decide_eq_true_2 by (destruct ts; [cbn in Hlt; lia | discriminate]).
    rewrite bool_decide_eq_true_2 by (apply elem_of_seq; lia).
    cbn. now rewrite (target_at_dense _ _ _ _ rd i t Hi).
  - apply lookup_ge_None in Hi.
    rewrite (bool_decide_eq_false_2 (i ∈ _)) by (rewrite elem_of_seq; lia).
    now rewrite andb_false_r.
Qed.

Section Messages.
Variable Pose_Index_not_found : nat -> message.
Variable Pose_already_exists : string -> message.

(** X16.  [rename_pose(index, name)] on a solver whose poses [ts] sit at
    the indices 0, 1, ... under distinct non-empty names.  Without any
    pose the call does nothing and returns the name.  Otherwise an index
    that no pose has and a name that a pose already has (the pose's own
    name included) are refused with RuntimeError, the scene staying as it
    was.  A fresh non-empty name is stored at the index: afterwards
    [pose_name(index)] is the name, [pose_index(name)] is the index, the
    old name is no pose's name, the other poses keep their names, and
    [pose()] under the new name returns what it returned under the old
    one. *)
Theorem rename_pose_spec (self name : string) (i : nat) (sc : scene) (sv : solver)
        (ts : list target) (nodes : list string) :
  solvers sc !! self = Some sv ->
  readable sc sv ts nodes ->
  (ts = [] -> rename_pose Pose_Index_not_found Pose_already_exists self i name sc = (Ok name, sc))
  /\ (ts <> [] -> length ts <= i ->
        rename_pose Pose_Index_not_found Pose_already_exists self i name sc = (Raise (RuntimeError (Pose_Index_not_found i)), sc))
  /\ (i < length ts -> name ∈ targetName <$> ts ->
        rename_pose Pose_Index_not_found Pose_already_exists self i name sc = (Raise (RuntimeError (Pose_already_exists name)), sc))
  /\ (forall t, ts !! i = Some t -> name ∉ targetName <$> ts -> name <> "" ->
        exists sc' sv',
          rename_pose Pose_Index_not_found Pose_already_exists self i name sc = (Ok name, sc')
          /\ solvers sc' !! self = Some sv'
          /\ pose_name sv' i = Some name
          /\ pose_index sv' name = Z.of_nat i
          /\ has_pose sc' sv' name = Ok true
          /\ has_pose sc' sv' (targetName t) = Ok false
          /\ (forall j t2, j <> i -> ts !! j = Some t2 ->
                pose_name sv' j = Some (targetName t2))
          /\ pose sc' sv' name = pose sc sv (targetName t)
          /\ transforms sc' = transforms sc
          /\ blenders sc' = blenders sc).
Proof.
  intros Hs rd.
  assert (Hidx : multiIndices (targets sv) = seq 0 (length ts))
    by (rewrite (rd_targets _ _ _ _ rd); apply multiIndices_dense).
  unfold PoseNames.rename_pose.
  rewrite bindM_query, (the_solver_ok _ _ _ Hs), Hidx.
  split; [|split; [|split]].
  - intros ->. cbn. reflexivity.
  - intros Hne Hge.
    rewrite bool_decide_eq_true_2 by (destruct ts; [contradiction | discriminate]).
    rewrite (bool_decide_eq_false_2 (i ∈ _)) by (rewrite elem_of_seq; lia).
    reflexivity.
  - intros Hlt Hin.
    rewrite bool_decide_eq_true_2 by (destruct ts; [cbn in Hlt; lia | discriminate]).
    rewrite (bool_decide_eq_true_2 (i ∈ _)) by (apply elem_of_seq; lia).
    cbn [negb]. unfold bindM at 1. rewrite bindM_query, (has_pose_dense _ _ _ _ rd).
    now rewrite bool_decide_eq_true_2.
  - intros t Hi Hfresh Hname.
    pose proof (lookup_lt_Some _ _ _ Hi) as Hlt.
    set (t' := set_targetName name t).
    set (ts' := <[i := t']> ts).
    set (sv' := with_targets (fun _ => map_seq 0 ts') sv).
    set (sc' := set_solver self sv' sc).
    assert (Hnames : targetName <$> ts' = <[i := name]> (targetName <$> ts))
      by (unfold ts'; now rewrite list_fmap_insert).
    assert (rd' : readable sc' sv' ts' nodes).
    { split.
      - reflexivity.
      - apply Forall_insert.
        + eapply Forall_impl; [exact (rd_target _ _ _ _ rd)|]. intros x Hx. exact Hx.
        + pose proof (rd_target _ _ _ _ rd) as Hd. rewrite Forall_forall in Hd.
          destruct (Hd t) as (_ & Hv & Hc); [apply list_elem_of_lookup; eauto|].
          split; [exact Hname|]. split; [exact Hv | exact Hc].
      - rewrite Hnames. apply NoDup_insert_fresh; [exact (rd_names _ _ _ _ rd) | exact Hfresh].
      - exact (rd_drivers _ _ _ _ rd).
      - exact (rd_nodes _ _ _ _ rd).
      - exact (rd_present _ _ _ _ rd). }
    assert (Hi' : ts' !! i = Some t') by (apply list_lookup_insert_eq; exact Hlt).
    exists sc', sv'.
    split; [|split; [|split; [|split; [|split; [|split; [|split; [|split; [|split]]]]]]]].
    + rewrite bool_decide_eq_true_2 by (destruct ts; [cbn in Hlt; lia | discriminate]).
      rewrite (bool_decide_eq_true_2 (i ∈ _)) by (apply elem_of_seq; lia).
      cbn [negb].
      assert (Hinner : (exists_ <~ query (fun sc0 => has_pose sc0 sv name) ;;
                        if exists_ then raise (RuntimeError (Pose_already_exists name))
                        else update_solver self
                               (with_targets (write_target i (set_targetName name)))) sc
                       = (Ok tt, sc')).
      { rewrite bindM_query, (has_pose_dense _ _ _ _ rd).
        rewrite bool_decide_eq_false_2 by exact Hfresh.
        rewrite (update_solver_ok _ _ _ _ Hs). unfold sc', sv'. do 2 f_equal.
        unfold with_targets. f_equal. unfold write_target.
        rewrite (rd_targets _ _ _ _ rd), lookup_dense, Hi. cbn.
        now apply insert_map_seq_0. }
      now rewrite (bindM_ok _ _ _ _ _ Hinner).
    + cbn. apply lookup_insert_eq.
    + rewrite (pose_name_dense _ _ _ _ i rd'), Hi'. reflexivity.
    + exact (pose_index_dense _ _ _ _ rd' i t' Hi').
    + rewrite (has_pose_dense _ _ _ _ rd'), bool_decide_eq_true_2; [reflexivity|].
      apply list_elem_of_fmap. exists t'. split; [reflexivity|].
      apply list_elem_of_lookup. eauto.
    + rewrite (has_pose_dense _ _ _ _ rd'), bool_decide_eq_false_2; [reflexivity|].
      rewrite Hnames. apply not_elem_of_insert_old.
      * exact (rd_names _ _ _ _ rd).
      * now rewrite list_lookup_fmap, Hi.
      * intros ->. apply Hfresh. apply list_elem_of_fmap. exists t. split; [reflexivity|].
        apply list_elem_of_lookup. eauto.
    + intros j t2 Hj Hj2. rewrite (pose_name_dense _ _ _ _ j rd').
      unfold ts'. rewrite list_lookup_insert_ne by congruence. now rewrite Hj2.
    + change name with (targetName t') at 1.
      rewrite (pose_dense _ _ _ _ rd' i t' Hi'), (pose_dense _ _ _ _ rd i t Hi).
      reflexivity.
    + reflexivity.
    + reflexivity.
Qed.

End Messages.

Lemma rename_pose_spec_witness :
  exists sc' sv',
    PoseNames.rename_pose Unable_to_get_driver_at_index Pose_not_found
      "arm_l_UERBFSolver" 1 "lifted" scenario_A = (Ok "lifted", sc')
    /\ solvers sc' !! "arm_l_UERBFSolver" = Some sv'
    /\ pose_name sv' 1 = Some "lifted"
    /\ has_pose sc' sv' "raised" = Ok false.
Proof.
  assert (H : solvers scenario_A !! "arm_l_UERBFSolver" = Some solver_A)
    by (vm_compute; reflexivity).
  destruct (poses_A !! 1) as [t|] eqn:Ht;
    [|exfalso; revert Ht; vm_compute; discriminate].
  assert (Hn : targetName t = "raised")
    by (revert Ht; vm_compute; intros [= <-]; reflexivity).
  assert (Hfresh : "lifted" ∉ targetName <$> poses_A).
  { rewrite QueryFacts.scenario_A_names. intros Hin.
    repeat (apply elem_of_cons in Hin as [Hin|Hin]; [discriminate|]).
    now apply elem_of_nil in Hin. }
  assert (Hne : "lifted" <> "") by discriminate.
  destruct (proj2 (proj2 (proj2 (rename_pose_spec Unable_to_get_driver_at_index
                                   Pose_not_found "arm_l_UERBFSolver" "lifted" 1
                                   scenario_A solver_A poses_A nodes_A H
                                   QueryFacts.scenario_A_readable))) t Ht Hfresh Hne)
    as (sc' & sv' & H1 & H2 & H3 & _ & _ & H6 & _).
  rewrite Hn in H6. exists sc', sv'. auto.
Defined.

End PoseNameFacts.

(* ================================================================== *)
(** * Mirrored transform names *)
(* ================================================================== *)

Module MirrorTransformFacts.
Import Re MirrorMappingM MirrorName Scene Host RBFNode MirrorTransforms MirrorNameFacts.
Import Examples.

(** [p+] finds no match when the continuation refuses every rest. *)
Lemma plus_class_none {X} (p : ascii -> bool) (k : @cont X) (w : string) caps :
  (forall rest caps', all_class p rest = true -> k rest caps' = None) ->
  all_class p w = true ->
  plus_class p k w caps = None.
Proof.
  intros Hk. induction w as [|c w IH]; intros Hall; [reflexivity|].
  cbn [all_class] in Hall. apply andb_prop in Hall as [Hc Hw].
  cbn [plus_class]. rewrite Hc, (IH Hw). now apply Hk.
Qed.

(** A name of letters and digits only has no side token: the MetaHuman
    expression does not match it. *)
Lemma metahuman_no_match (w : string) :
  all_class alnum w = true -> re_match metahuman_expression 3 w = None.
Proof.
  intros Hw. unfold re_match, metahuman_expression.
  assert (Htok : forall (k : @cont captures) rest caps,
             all_class alnum rest = true -> run (lit "_") k rest caps = None).
  { intros k [|c rest] caps Hr; [reflexivity|].
    cbn [all_class] in Hr. apply andb_prop in Hr as [Hc _].
    cbn [run lit]. destruct (Ascii.eqb "_" c) eqn:E; [|reflexivity].
    apply Ascii.eqb_eq in E. subst c. discriminate. }
  cbn [run]. rewrite plus_class_none.
  - now apply Htok.
  - intros rest caps' Hr. now apply Htok.
  - exact Hw.
Qed.

Lemma metahuman_source_transform_syntax (src : side) :
  source_transform_syntax (metahuman_from src) = side_token src.
Proof. now destruct src. Qed.

Lemma metahuman_target_transform_syntax (src : side) :
  target_transform_syntax (metahuman_from src) = side_token (opposite src).
Proof. now destruct src. Qed.

Lemma mirror_transform_group_word (w name : string) (src : side) :
  is_word w = true ->
  mirror_transform_group (metahuman_from src) (Some w) name = Ok (name +:+ w).
Proof.
  intros Hw. unfold mirror_transform_group.
  rewrite metahuman_source_transform_syntax, metahuman_target_transform_syntax.
  assert (H : forall sd, String.eqb w (side_token sd) = false)
    by (intros [|]; now apply word_not_token).
  now rewrite !H.
Qed.

Lemma mirror_transform_group_token (t src : side) (name : string) :
  mirror_transform_group (metahuman_from src) (Some (side_token t)) name
  = Ok (name +:+ side_token (opposite t)).
Proof. destruct t, src; reflexivity. Qed.

Definition words (p : string * side * string) : Prop :=
  is_word p.1.1 = true /\ is_word p.2 = true.

Lemma opposite_opposite (sd : side) : opposite (opposite sd) = sd.
Proof. now destruct sd. Qed.

Lemma other_side_other_side (p : string * side * string) :
  other_side (other_side p) = p.
Proof. destruct p as [[a sd] b]. cbn. now rewrite opposite_opposite. Qed.

Lemma words_other_side (p : string * side * string) : words p -> words (other_side p).
Proof. now destruct p as [[a sd] b]. Qed.

Section Messages.
Variable Unable_to_mirror_transform : string -> message.
Variable Target_transform_does_not_exist : string -> string -> message.

(** One sided name: the token is exchanged whatever side the mapping is
    on; the scene decides between the name and the error. *)
Lemma mirrored_transform_sided (p : string * side * string) (src : side)
      (ignore : bool) (sc : scene) :
  words p ->
  mirrored_transform Unable_to_mirror_transform Target_transform_does_not_exist
    (metahuman_from src) ignore sc (sided_name p)
  = if negb (objExists (sided_name (other_side p)) sc) && negb ignore then
      Raise (InvalidMirrorMapping
               (Target_transform_does_not_exist (sided_name p) (sided_name (other_side p))))
    else Ok (sided_name (other_side p)).
Proof.
  destruct p as [[prefix sd] suffix]. intros [Hp Hs]. cbn in Hp, Hs.
  unfold mirrored_transform, sided_name, other_side.
  change (MirrorTransforms.transform_expression (metahuman_from src)) with metahuman_expression.
  change (md_transform_groups (MirrorMappingM.data (metahuman_from src))) with 3%nat.
  assert (Hm : re_match metahuman_expression 3 (prefix +:+ side_token sd +:+ suffix)
               = Some [Some prefix; Some (side_token sd); Some suffix]).
  { destruct sd; apply metahuman_match; auto. }
  rewrite Hm. cbn [mirror_transform_groups].
  rewrite (mirror_transform_group_word prefix "" src Hp). cbn [bind].
  rewrite mirror_transform_group_token. cbn [bind].
  rewrite (mirror_transform_group_word suffix _ src Hs). cbn [bind].
  now rewrite append_assoc.
Qed.

Lemma mirrored_transform_word (w : string) (mm_side : side) (ignore : bool) (sc : scene) :
  is_word w = true ->
  mirrored_transform Unable_to_mirror_transform Target_transform_does_not_exist
    (metahuman_from mm_side) ignore sc w
  = Raise (InvalidMirrorMapping (Unable_to_mirror_transform w)).
Proof.
  intros Hw. unfold mirrored_transform.
  change (MirrorTransforms.transform_expression (metahuman_from mm_side)) with metahuman_expression.
  change (md_transform_groups (MirrorMappingM.data (metahuman_from mm_side))) with 3%nat.
  rewrite metahuman_no_match; [reflexivity|].
  unfold is_word in Hw. now apply andb_prop in Hw as [_ Hw].
Qed.

(** The loop stops at the first name that raises. *)
Lemma result_mapM_app_raise {A B} (f : A -> result B) (xs : list A) (ys : list B)
      (x : A) (rest : list A) e :
  result_mapM f xs = Ok ys -> f x = Raise e ->
  result_mapM f (xs ++ x :: rest)%list = Raise e.
Proof.
  revert ys. induction xs as [|a xs IH]; intros ys Hxs Hx.
  - cbn. now rewrite Hx.
  - cbn in *. destruct (f a) as [b|e']; [|discriminate]. cbn in *.
    destruct (result_mapM f xs) as [ys'|e']; [|discriminate].
    now rewrite (IH ys' eq_refl Hx).
Qed.

Lemma result_mapM_ok {A B} (f : A -> result B) (g : A -> B) (xs : list A) :
  Forall (fun x => f x = Ok (g x)) xs -> result_mapM f xs = Ok (g <$> xs).
Proof.
  induction 1 as [|x xs Hx _ IH]; [reflexivity|].
  cbn. now rewrite Hx, IH.
Qed.

Lemma mirrored_ok (parts : list (string * side * string)) (src : side)
      (ignore : bool) (sc : scene) :
  Forall words parts ->
  ignore = true \/ Forall (fun p => objExists (sided_name (other_side p)) sc = true) parts ->
  _get_mirrored_transforms Unable_to_mirror_transform Target_transform_does_not_exist
    (sided_name <$> parts) (metahuman_from src) ignore sc
  = Ok (sided_name <$> (other_side <$> parts)).
Proof.
  intros Hw Hex. unfold _get_mirrored_transforms.
  rewrite <- list_fmap_compose.
  assert (H : forall (f : string -> result string) (ps : list (string * side * string)),
             Forall (fun p => f (sided_name p) = Ok (sided_name (other_side p))) ps ->
             result_mapM f (sided_name <$> ps) = Ok ((sided_name ∘ other_side) <$> ps)).
  { intros f ps. induction 1 as [|p ps Hp _ IH]; [reflexivity|].
    cbn. now rewrite Hp, IH. }
  apply H. apply Forall_forall. intros p Hin.
  rewrite mirrored_transform_sided by (now apply (proj1 (Forall_forall _ _) Hw)).
  destruct Hex as [-> | Hex].
  - now rewrite andb_false_r.
  - now rewrite (proj1 (Forall_forall _ _) Hex p Hin).
Qed.

(** X17 (_get_mirrored_transforms, MetaHuman mapping).  For transform names
    of the form prefix_l_suffix or prefix_r_suffix (prefix and suffix made of
    letters and digits) and the MetaHuman mapping on either side: when every
    mirrored name exists in the scene, or invalid nodes are ignored, the
    result lists, in the order of the input, each name with its side token
    exchanged, and mirroring the result with the same mapping gives the
    input back; with invalid nodes not ignored the first mirrored name that
    the scene lacks raises InvalidMirrorMapping naming the transform and the
    missing target; and a name of letters and digits only, without side
    token, raises InvalidMirrorMapping even when invalid nodes are ignored. *)
Theorem get_mirrored_transforms_spec (parts : list (string * side * string))
        (src : side) (sc : scene) :
  Forall words parts ->
  let get_mirrored_transforms :=
    _get_mirrored_transforms Unable_to_mirror_transform Target_transform_does_not_exist in
  let mm := metahuman_from src in
  let names := sided_name <$> parts in
  let mirrored := sided_name <$> (other_side <$> parts) in
  (forall ignore,
      ignore = true \/ Forall (fun n => objExists n sc = true) mirrored ->
      get_mirrored_transforms names mm ignore sc = Ok mirrored)
  /\ get_mirrored_transforms mirrored mm true sc = Ok names
  /\ (forall (before : list (string * side * string)) p after,
         parts = (before ++ p :: after)%list ->
         Forall (fun q => objExists (sided_name (other_side q)) sc = true) before ->
         objExists (sided_name (other_side p)) sc = false ->
         get_mirrored_transforms names mm false sc
         = Raise (InvalidMirrorMapping
                    (Target_transform_does_not_exist
                       (sided_name p) (sided_name (other_side p)))))
  /\ (forall w rest ignore,
         is_word w = true ->
         ignore = true \/ Forall (fun n => objExists n sc = true) mirrored ->
         get_mirrored_transforms (names ++ w :: rest)%list mm ignore sc
         = Raise (InvalidMirrorMapping (Unable_to_mirror_transform w))).
Proof.
  intros Hw get_mirrored_transforms mm names mirrored.
  subst get_mirrored_transforms mm names mirrored.
  assert (Hex : forall ps : list (string * side * string),
             Forall (fun n => objExists n sc = true) (sided_name <$> (other_side <$> ps)) ->
             Forall (fun p => objExists (sided_name (other_side p)) sc = true) ps).
  { intros ps H. rewrite <- list_fmap_compose in H.
    now apply Forall_fmap in H. }
  repeat split.
  - intros ignore Hi. apply mirrored_ok; [exact Hw|].
    destruct Hi as [Hi|Hi]; [now left | right; now apply Hex].
  - rewrite mirrored_ok; [| |now left].
    + rewrite <- !list_fmap_compose. f_equal. apply list_fmap_ext.
      intros i p _. cbn. now rewrite other_side_other_side.
    + apply Forall_fmap. eapply Forall_impl; [exact Hw|].
      intros p. apply words_other_side.
  - intros before p after -> Hb Hp.
    rewrite fmap_app, fmap_cons. unfold _get_mirrored_transforms.
    apply Forall_app in Hw as [Hwb Hwp]. apply Forall_cons in Hwp as [Hwp _].
    eapply result_mapM_app_raise.
    + apply (mirrored_ok before src false sc Hwb). now right.
    + rewrite mirrored_transform_sided by exact Hwp. now rewrite Hp.
  - intros w rest ignore Hword Hi. unfold _get_mirrored_transforms.
    eapply result_mapM_app_raise.
    + apply (mirrored_ok parts src ignore sc Hw).
      destruct Hi as [Hi|Hi]; [now left | right; now apply Hex].
    + now apply mirrored_transform_word.
Qed.

End Messages.

Lemma get_mirrored_transforms_spec_witness :
  _get_mirrored_transforms Unable_to_mirror_solver
    (fun _ target => Node_not_found target)
    ["J_l_shoulder"; "J_l_elbow"] metahuman false joints
  = Ok ["J_r_shoulder"; "J_r_elbow"].
Proof.
  assert (Hw : Forall words [("J", LEFT, "shoulder"); ("J", LEFT, "elbow")]).
  { repeat (apply Forall_cons; split; [split; reflexivity|]). constructor. }
  apply (proj1 (get_mirrored_transforms_spec Unable_to_mirror_solver
                  (fun _ target => Node_not_found target) _ LEFT joints Hw) false).
  right. repeat (apply Forall_cons; split; [vm_compute; reflexivity|]). constructor.
Defined.

End MirrorTransformFacts.

(* ================================================================== *)
(** * Muting a pose that exists *)
(* ================================================================== *)

Module MuteFacts.
Import Scene Host RBFNode SparseFacts Examples Invariants Outcomes SceneFacts.
Import PoseFacts.
Local Open Scope list_scope.
Local Open Scope nat_scope.

Lemma alter_enabled_back (ts : list target) i t e :
  ts !! i = Some t ->
  alter (set_targetEnable (targetEnable t)) i (alter (set_targetEnable e) i ts) = ts.
Proof.
  intros Hi. apply list_eq. intros j. rewrite !list_lookup_alter.
  destruct (decide (i = j)) as [<-|]; [|reflexivity].
  rewrite decide_True by reflexivity. rewrite Hi. cbn. f_equal. now destruct t.
Qed.

Lemma write_enabled sv (ts : list target) i t e :
  targets sv = map_seq 0 ts -> ts !! i = Some t ->
  with_targets (write_target i (set_targetEnable e)) sv
  = with_targets (fun _ => map_seq 0 (alter (set_targetEnable e) i ts)) sv.
Proof.
  intros Htg Hi. unfold with_targets. f_equal. unfold write_target.
  rewrite Htg, lookup_dense, Hi. cbn [default from_option].
  rewrite insert_map_seq_0 by (eapply lookup_lt_Some; eauto).
  f_equal. rewrite list_insert_alter. apply list_alter_ext; [|reflexivity].
  intros x Hx. unfold Datatypes.id. congruence.
Qed.

Lemma mute_index_name sc sv (ts : list target) nodes i t :
  readable sc sv ts nodes -> ts !! i = Some t ->
  mute_index sv (targetName t) (-1) = Ok (Z.of_nat i).
Proof.
  intros rd Hi. unfold mute_index.
  pose proof (rd_target _ _ _ _ rd) as Hd. rewrite Forall_forall in Hd.
  destruct (Hd t) as (Hname & _); [apply list_elem_of_lookup; eauto|].
  apply String.eqb_neq in Hname. rewrite Hname. cbn.
  now rewrite (pose_index_dense _ _ _ _ rd i t Hi).
Qed.

Lemma mute_index_index sv (name : string) (i : nat) :
  mute_index sv "" (Z.of_nat i) = Ok (Z.of_nat i).
Proof.
  unfold mute_index.
  replace (Z.of_nat i <? 0)%Z with false by (symmetry; apply Z.ltb_ge; lia).
  reflexivity.
Qed.

Lemma getAttr_enabled sc sv (ts : list target) nodes i t :
  readable sc sv ts nodes -> ts !! i = Some t ->
  getAttr_targetEnable sv (Z.of_nat i) = Ok (targetEnable t).
Proof.
  intros rd Hi. unfold getAttr_targetEnable.
  replace (Z.of_nat i <? 0)%Z with false by (symmetry; apply Z.ltb_ge; lia).
  now rewrite Nat2Z.id, (target_at_dense _ _ _ _ rd i t Hi).
Qed.

Lemma setAttr_enabled self sc sv (ts : list target) nodes i t e :
  solvers sc !! self = Some sv -> readable sc sv ts nodes -> ts !! i = Some t ->
  setAttr_targetEnable self (Z.of_nat i) e sc = (Ok tt, with_enabled self sv ts i e sc).
Proof.
  intros Hs rd Hi. unfold setAttr_targetEnable.
  replace (Z.of_nat i <? 0)%Z with false by (symmetry; apply Z.ltb_ge; lia).
  rewrite Nat2Z.id, (update_solver_ok _ _ _ _ Hs).
  now rewrite (write_enabled sv ts i t e (rd_targets _ _ _ _ rd) Hi).
Qed.

Lemma readable_with_enabled self sc sv (ts : list target) nodes i e :
  readable sc sv ts nodes ->
  readable (with_enabled self sv ts i e sc)
           (with_targets (fun _ => map_seq 0 (alter (set_targetEnable e) i ts)) sv)
           (alter (set_targetEnable e) i ts) nodes.
Proof.
  intros rd. split.
  - reflexivity.
  - apply Forall_alter; [exact (rd_target _ _ _ _ rd)|].
    intros x _ Hx. exact Hx.
  - rewrite (list_fmap_alter targetName _ (fun n : string => n)) by (apply Forall_forall; reflexivity).
    rewrite list_alter_id by reflexivity. exact (rd_names _ _ _ _ rd).
  - exact (rd_drivers _ _ _ _ rd).
  - exact (rd_nodes _ _ _ _ rd).
  - exact (rd_present _ _ _ _ rd).
Qed.

Lemma is_pose_muted_name sc sv (ts : list target) nodes i t :
  readable sc sv ts nodes -> ts !! i = Some t ->
  is_pose_muted sv (targetName t) (-1) = Ok (negb (targetEnable t)).
Proof.
  intros rd Hi. unfold is_pose_muted.
  rewrite (mute_index_name _ _ _ _ _ _ rd Hi). cbn [bind].
  now rewrite (getAttr_enabled _ _ _ _ _ _ rd Hi).
Qed.

Lemma mute_pose_some self sc sv (ts : list target) nodes i t b :
  solvers sc !! self = Some sv -> readable sc sv ts nodes -> ts !! i = Some t ->
  mute_pose self (targetName t) (-1) (Some b) sc
  = (Ok (negb b), with_enabled self sv ts i (negb b) sc).
Proof.
  intros Hs rd Hi. unfold mute_pose.
  rewrite bindM_query, (the_solver_ok _ _ _ Hs).
  rewrite bindM_query, (mute_index_name _ _ _ _ _ _ rd Hi).
  unfold bindM at 1. cbn [ret].
  now rewrite (bindM_ok _ _ _ _ _ (setAttr_enabled _ _ _ _ _ _ _ (negb b) Hs rd Hi)).
Qed.

Lemma mute_pose_toggle self sc sv (ts : list target) nodes i t :
  solvers sc !! self = Some sv -> readable sc sv ts nodes -> ts !! i = Some t ->
  mute_pose self (targetName t) (-1) None sc
  = (Ok (negb (targetEnable t)), with_enabled self sv ts i (negb (targetEnable t)) sc).
Proof.
  intros Hs rd Hi. unfold mute_pose.
  rewrite bindM_query, (the_solver_ok _ _ _ Hs).
  rewrite bindM_query, (mute_index_name _ _ _ _ _ _ rd Hi).
  assert (Hm : is_pose_muted sv "" (Z.of_nat i) = Ok (negb (targetEnable t))).
  { unfold is_pose_muted. rewrite (mute_index_index sv "" i). cbn [bind].
    now rewrite (getAttr_enabled _ _ _ _ _ _ rd Hi). }
  unfold bindM at 1. rewrite bindM_query, Hm. cbn [ret]. rewrite negb_involutive.
  now rewrite (bindM_ok _ _ _ _ _
                 (setAttr_enabled _ _ _ _ _ _ _ (negb (targetEnable t)) Hs rd Hi)).
Qed.

(** X18 (mute_pose and is_pose_muted on a pose that exists).  On a solver
    whose poses sit at the indices 0, 1, ... under distinct non-empty
    names, for the pose [t] at index [i]: [is_pose_muted(name)] is the
    negation of the pose's enabled flag; [mute_pose(name, mute=b)] returns
    [not b] and stores it as the enabled flag of that pose, after which
    [is_pose_muted(name)] is [b], every other pose is as muted as before,
    and [pose(name)] differs from before in [target_enable] only;
    [mute_pose(name, mute=None)] inverts the enabled flag and returns the
    new flag, and doing it twice gives back the scene it started from. *)
Theorem mute_pose_spec (self : string) (i : nat) (sc : scene) (sv : solver)
        (ts : list target) (nodes : list string) (t : target) :
  solvers sc !! self = Some sv ->
  readable sc sv ts nodes ->
  ts !! i = Some t ->
  let name := targetName t in
  is_pose_muted sv name (-1) = Ok (negb (targetEnable t))
  /\ (forall b, exists sc' sv',
         mute_pose self name (-1) (Some b) sc = (Ok (negb b), sc')
         /\ solvers sc' !! self = Some sv'
         /\ is_pose_muted sv' name (-1) = Ok b
         /\ (forall j t2, j <> i -> ts !! j = Some t2 ->
               is_pose_muted sv' (targetName t2) (-1)
               = is_pose_muted sv (targetName t2) (-1))
         /\ pose sc' sv' name
            = Ok (pose_data_of sc nodes i (set_targetEnable (negb b) t))
         /\ poses sc' sv' = Ok (pose_entries sc nodes 0 (alter (set_targetEnable (negb b)) i ts))
         /\ transforms sc' = transforms sc /\ blenders sc' = blenders sc)
  /\ (exists sc' sv',
         mute_pose self name (-1) None sc = (Ok (negb (targetEnable t)), sc')
         /\ solvers sc' !! self = Some sv'
         /\ is_pose_muted sv' name (-1) = Ok (targetEnable t)
         /\ mute_pose self name (-1) None sc' = (Ok (targetEnable t), sc)).
Proof.
  intros Hs rd Hi name. subst name.
  pose proof (lookup_lt_Some _ _ _ Hi) as Hlt.
  assert (Halt : forall e, alter (set_targetEnable e) i ts !! i = Some (set_targetEnable e t)).
  { intros e. now rewrite list_lookup_alter_eq, Hi. }
  split; [exact (is_pose_muted_name _ _ _ _ _ _ rd Hi)|]. split.
  - intros b.
    pose proof (readable_with_enabled self sc sv ts nodes i (negb b) rd) as rd'.
    eexists _, _. split; [exact (mute_pose_some _ _ _ _ _ _ _ b Hs rd Hi)|].
    split; [apply lookup_insert_eq|]. split; [|split; [|split; [|split; [|split]]]].
    + change (targetName t) with (targetName (set_targetEnable (negb b) t)).
      rewrite (is_pose_muted_name _ _ _ _ _ _ rd' (Halt (negb b))). cbn.
      now rewrite negb_involutive.
    + intros j t2 Hj Hj2.
      assert (Hj' : alter (set_targetEnable (negb b)) i ts !! j = Some t2)
        by (rewrite list_lookup_alter_ne by congruence; exact Hj2).
      rewrite (is_pose_muted_name _ _ _ _ _ _ rd' Hj').
      now rewrite (is_pose_muted_name _ _ _ _ _ _ rd Hj2).
    + change (targetName t) with (targetName (set_targetEnable (negb b) t)).
      rewrite (pose_dense _ _ _ _ rd' i _ (Halt (negb b))). reflexivity.
    + rewrite (poses_dense _ _ _ _ rd'). reflexivity.
    + reflexivity.
    + reflexivity.
  - pose proof (readable_with_enabled self sc sv ts nodes i (negb (targetEnable t)) rd) as rd'.
    eexists _, _. split; [exact (mute_pose_toggle _ _ _ _ _ _ _ Hs rd Hi)|].
    split; [apply lookup_insert_eq|]. split.
    + change (targetName t) with (targetName (set_targetEnable (negb (targetEnable t)) t)).
      rewrite (is_pose_muted_name _ _ _ _ _ _ rd' (Halt _)). cbn.
      now rewrite negb_involutive.
    + change (targetName t) with (targetName (set_targetEnable (negb (targetEnable t)) t)).
      rewrite (mute_pose_toggle self _ _ _ nodes i _ (lookup_insert_eq _ _ _) rd' (Halt _)).
      cbn [targetEnable set_targetEnable]. rewrite negb_involutive. f_equal.
      unfold with_enabled, set_solver. cbn [solvers transforms blenders selection].
      rewrite insert_insert_eq. destruct sc as [T S B L]. cbn in *. f_equal.
      rewrite <- (insert_id S self sv Hs) at 2. f_equal.
      destruct sv as [a1 a2 a3 tg a5 a6]. unfold with_targets. cbn in *. f_equal.
      pose proof (rd_targets _ _ _ _ rd) as Htg. cbn in Htg. rewrite Htg. f_equal.
      exact (alter_enabled_back ts i t _ Hi).
Qed.

Lemma mute_pose_spec_witness :
  exists sc' sv',
    mute_pose "arm_l_UERBFSolver" "raised" (-1) (Some true) scenario_A = (Ok false, sc')
    /\ solvers sc' !! "arm_l_UERBFSolver" = Some sv'
    /\ is_pose_muted sv' "raised" (-1) = Ok true.
Proof.
  assert (H : solvers scenario_A !! "arm_l_UERBFSolver" = Some solver_A)
    by (vm_compute; reflexivity).
  destruct (poses_A !! 1) as [t|] eqn:Ht;
    [|exfalso; revert Ht; vm_compute; discriminate].
  assert (Hn : targetName t = "raised")
    by (revert Ht; vm_compute; intros [= <-]; reflexivity).
  destruct (proj1 (proj2 (mute_pose_spec "arm_l_UERBFSolver" 1 scenario_A solver_A
                            poses_A nodes_A t H QueryFacts.scenario_A_readable Ht)) true)
    as (sc' & sv' & H1 & H2 & H3 & _).
  rewrite Hn in H1, H3. exists sc', sv'. auto.
Defined.

End MuteFacts.

(* ================================================================== *)
(** * Binding a driven transform *)
(* ================================================================== *)

Module DrivenFacts.
Import Scene Host RBFNode SparseFacts Examples Invariants Outcomes SceneFacts.
Import PoseFacts BlenderFacts WriteFacts.
Local Open Scope list_scope.
Local Open Scope nat_scope.









End DrivenFacts.
